(** * The MuJoCo accessor shim

    A shallow embedding of [NativeShim/mjaccess.c]: first the batched
    simulation engine (pool creation and destruction, parallel step,
    masked reset, gather of state fields, per-slot scatter) together
    with the single-environment entry points the batched ones are
    compared with, then the rest of the single-environment interface
    (life cycle of the model and state handles, state setters and
    getters, checked accessors of the model).  The entry points that
    only hand their arguments to the engine or to the file system
    (loading and saving a model, name lookup, the forward and
    kinematics passes, plugins) are left out.

    The C code works on raw pointers, so the embedding is written over an
    explicit memory: a finite map from addresses to typed blocks.  Every
    function is a computation in a small state-and-fault monad; [Fault]
    stands for undefined behaviour of the C program (null or dangling
    dereference, access outside an array, double free). *)

From Stdlib Require Import ZArith List Lia Permutation.
From stdpp Require Import base option list gmap.

(** ** Machine integers *)

(** [int] is 32 bits wide; products of [int]s are taken modulo 2^32 and
    read back as signed. *)
Definition INT_MAX : Z := 2147483647.

Definition int_wrap (z : Z) : Z := ((z + 2 ^ 31) mod 2 ^ 32 - 2 ^ 31)%Z.

Definition int_mul (a b : Z) : Z := int_wrap (a * b).

(** [size_t] is 64 bits wide and unsigned. *)
Definition size_t_of (z : Z) : Z := (z mod 2 ^ 64)%Z.

Definition size_mul (a b : Z) : Z := ((a * b) mod 2 ^ 64)%Z.

Definition sizeof_double : Z := 8.

(** The number of doubles covered by a byte count [n * sizeof(double)]
    where [n] is an [int] converted to [size_t]. *)
Definition double_count (n : Z) : nat :=
  Z.to_nat (size_mul (size_t_of n) sizeof_double / sizeof_double).

(** Pointer displacement [p + k]: a negative displacement leaves the
    array. *)
Definition displacement (k : Z) : option nat :=
  if (k <? 0)%Z then None else Some (Z.to_nat k).

(** ** memcpy on arrays

    [memcpy dst doff src soff n] copies [n] elements of [src] starting
    at [soff] over [dst] starting at [doff].  It is defined only when
    both ranges lie inside their arrays. *)
Definition memcpy {A : Type} (dst : list A) (doff : nat)
    (src : list A) (soff : nat) (n : nat) : option (list A) :=
  if bool_decide (soff + n ≤ length src ∧ doff + n ≤ length dst)
  then Some (take doff dst ++ take n (drop soff src) ++ drop (doff + n) dst)
  else None.

(** ** The exported fields of the batched getters *)

Inductive field : Type :=
  | Fqpos | Fqvel | Fxpos | Fsubtree_com
  | Fcinert | Fcvel | Fqfrc_actuator | Fcfrc_ext.

Definition all_fields : list field :=
  [Fqpos; Fqvel; Fxpos; Fsubtree_com; Fcinert; Fcvel; Fqfrc_actuator; Fcfrc_ext].

#[global] Instance field_eq_dec : EqDecision field.
Proof. solve_decision. Defined.

Section Shim.

(** [mjtNum] is the scalar type of the engine ([double]); the code only
    copies such values, it never computes with them.  [mjModelExtra] and
    [mjDataExtra] are what an [mjModel] and an [mjData] hold besides the
    fields the shim's batched code reads. *)
Context {mjtNum mjModelExtra mjDataExtra : Type}.

(** ** Engine structures *)

Record mjModel : Type := MkModel {
  nq : Z;
  nv : Z;
  nu : Z;
  nbody : Z;
  opt_iterations : Z;
  m_other : mjModelExtra
}.

Record mjData : Type := MkData {
  qpos : list mjtNum;
  qvel : list mjtNum;
  ctrl : list mjtNum;
  xpos : list mjtNum;
  subtree_com : list mjtNum;
  cinert : list mjtNum;
  cvel : list mjtNum;
  qfrc_actuator : list mjtNum;
  cfrc_ext : list mjtNum;
  d_other : mjDataExtra
}.

Definition set_opt_iterations (v : Z) (m : mjModel) : mjModel :=
  MkModel (nq m) (nv m) (nu m) (nbody m) v (m_other m).

Definition set_qpos (v : list mjtNum) (d : mjData) : mjData :=
  MkData v (qvel d) (ctrl d) (xpos d) (subtree_com d) (cinert d) (cvel d)
         (qfrc_actuator d) (cfrc_ext d) (d_other d).

Definition set_qvel (v : list mjtNum) (d : mjData) : mjData :=
  MkData (qpos d) v (ctrl d) (xpos d) (subtree_com d) (cinert d) (cvel d)
         (qfrc_actuator d) (cfrc_ext d) (d_other d).

Definition set_ctrl (v : list mjtNum) (d : mjData) : mjData :=
  MkData (qpos d) (qvel d) v (xpos d) (subtree_com d) (cinert d) (cvel d)
         (qfrc_actuator d) (cfrc_ext d) (d_other d).

(** ** The engine primitives the shim calls

    They are external to the repository; each acts on one model and one
    state. *)
Variable createDefaultState : mjModel -> mjData.
Variable advanceOneStep : mjModel -> mjData -> mjData.
Variable resetToDefault : mjModel -> mjData -> mjData.

(** ** Shim structures *)

Record MjAccessModel : Type := MkAccessModel { am_mj : option positive }.

Record MjAccessData : Type := MkAccessData {
  ad_mj : option positive;
  ad_model_ref : option positive
}.

Record MjAccessBatchedConfig : Type := MkConfig {
  cfg_num_envs : Z;
  solver_iterations : Z
}.

Record MjAccessBatchedSim : Type := MkSim {
  model_ref : option positive;
  num_envs : Z;
  datas : option positive;
  qpos_buf : option positive;
  qvel_buf : option positive;
  xpos_buf : option positive;
  subtree_com_buf : option positive;
  cinert_buf : option positive;
  cvel_buf : option positive;
  qfrc_actuator_buf : option positive;
  cfrc_ext_buf : option positive
}.

(** What [calloc] hands out for a pool header. *)
Definition zero_sim : MjAccessBatchedSim :=
  MkSim None 0 None None None None None None None None None.

Definition set_model_ref (v : option positive) (s : MjAccessBatchedSim) :=
  MkSim v (num_envs s) (datas s) (qpos_buf s) (qvel_buf s) (xpos_buf s)
        (subtree_com_buf s) (cinert_buf s) (cvel_buf s) (qfrc_actuator_buf s)
        (cfrc_ext_buf s).

Definition set_num_envs (v : Z) (s : MjAccessBatchedSim) :=
  MkSim (model_ref s) v (datas s) (qpos_buf s) (qvel_buf s) (xpos_buf s)
        (subtree_com_buf s) (cinert_buf s) (cvel_buf s) (qfrc_actuator_buf s)
        (cfrc_ext_buf s).

Definition set_datas (v : option positive) (s : MjAccessBatchedSim) :=
  MkSim (model_ref s) (num_envs s) v (qpos_buf s) (qvel_buf s) (xpos_buf s)
        (subtree_com_buf s) (cinert_buf s) (cvel_buf s) (qfrc_actuator_buf s)
        (cfrc_ext_buf s).

Definition buf_field (f : field) (s : MjAccessBatchedSim) : option positive :=
  match f with
  | Fqpos => qpos_buf s
  | Fqvel => qvel_buf s
  | Fxpos => xpos_buf s
  | Fsubtree_com => subtree_com_buf s
  | Fcinert => cinert_buf s
  | Fcvel => cvel_buf s
  | Fqfrc_actuator => qfrc_actuator_buf s
  | Fcfrc_ext => cfrc_ext_buf s
  end.

Definition set_buf_field (f : field) (v : option positive)
    (s : MjAccessBatchedSim) : MjAccessBatchedSim :=
  MkSim (model_ref s) (num_envs s) (datas s)
    (if decide (f = Fqpos) then v else qpos_buf s)
    (if decide (f = Fqvel) then v else qvel_buf s)
    (if decide (f = Fxpos) then v else xpos_buf s)
    (if decide (f = Fsubtree_com) then v else subtree_com_buf s)
    (if decide (f = Fcinert) then v else cinert_buf s)
    (if decide (f = Fcvel) then v else cvel_buf s)
    (if decide (f = Fqfrc_actuator) then v else qfrc_actuator_buf s)
    (if decide (f = Fcfrc_ext) then v else cfrc_ext_buf s).

(** The [field] argument of the gather macro: the array of an [mjData]. *)
Definition field_of (f : field) (d : mjData) : list mjtNum :=
  match f with
  | Fqpos => qpos d
  | Fqvel => qvel d
  | Fxpos => xpos d
  | Fsubtree_com => subtree_com d
  | Fcinert => cinert d
  | Fcvel => cvel d
  | Fqfrc_actuator => qfrc_actuator d
  | Fcfrc_ext => cfrc_ext d
  end.

(** The [per_env_expr] argument of the gather macro. *)
Definition per_env_expr (f : field) (m : mjModel) : Z :=
  match f with
  | Fqpos => nq m
  | Fqvel => nv m
  | Fxpos => int_mul (nbody m) 3
  | Fsubtree_com => int_mul (nbody m) 3
  | Fcinert => int_mul (nbody m) 10
  | Fcvel => int_mul (nbody m) 6
  | Fqfrc_actuator => nv m
  | Fcfrc_ext => int_mul (nbody m) 6
  end.

(** The element count in the [malloc] call of each gather buffer. *)
Definition buf_alloc_expr (f : field) (ne : Z) (m : mjModel) : Z :=
  match f with
  | Fqpos => int_mul ne (nq m)
  | Fqvel => int_mul ne (nv m)
  | Fxpos => int_mul (int_mul ne (nbody m)) 3
  | Fsubtree_com => int_mul (int_mul ne (nbody m)) 3
  | Fcinert => int_mul (int_mul ne (nbody m)) 10
  | Fcvel => int_mul (int_mul ne (nbody m)) 6
  | Fqfrc_actuator => int_mul ne (nv m)
  | Fcfrc_ext => int_mul (int_mul ne (nbody m)) 6
  end.

(** ** Memory *)

(** The typed blocks of memory.  A cell of a [malloc]ed buffer of doubles
    is [None] until it is written. *)
Inductive block : Type :=
  | BModel (m : mjModel)
  | BData (d : mjData)
  | BAccessModel (h : MjAccessModel)
  | BAccessData (h : MjAccessData)
  | BSim (s : MjAccessBatchedSim)
  | BPtrs (l : list (option positive))
  | BBuf (l : list (option mjtNum)).

(** The state of the program: the live blocks, and the outcomes of the
    allocation requests still to come ([true]: the request is served;
    an exhausted script refuses every request). *)
Record world : Type := MkWorld {
  heap : gmap positive block;
  script : list bool
}.

Inductive result (A : Type) : Type :=
  | Ok (a : A) (w : world)
  | Fault.
Arguments Ok {A} a w.
Arguments Fault {A}.

Definition M (A : Type) : Type := world -> result A.

Definition ret {A} (a : A) : M A := fun w => Ok a w.

Definition bind {A B} (c : M A) (k : A -> M B) : M B :=
  fun w => match c w with
           | Ok a w' => k a w'
           | Fault => Fault
           end.

Definition fault {A} : M A := fun _ => Fault.

Definition lift {A} (o : option A) : M A :=
  match o with
  | Some a => ret a
  | None => fault
  end.

Notation "'let*' x ':=' c 'in' k" := (bind c (fun x => k))
  (at level 10, x pattern, c at level 100, k at level 200).

Fixpoint for_each {I : Type} (l : list I) (body : I -> M unit) : M unit :=
  match l with
  | [] => ret tt
  | i :: l' => let* _ := body i in for_each l' body
  end.

Definition load (p : option positive) : M block :=
  fun w => match p with
           | None => Fault
           | Some a => match heap w !! a with
                       | Some b => Ok b w
                       | None => Fault
                       end
           end.

Definition store (p : option positive) (b : block) : M unit :=
  fun w => match p with
           | None => Fault
           | Some a => match heap w !! a with
                       | Some _ => Ok tt (MkWorld (<[a:=b]> (heap w)) (script w))
                       | None => Fault
                       end
           end.

(** [malloc]/[calloc]: the block is placed at an unused address, or the
    request is refused and the null pointer returned. *)
Definition alloc (b : block) : M (option positive) :=
  fun w => match script w with
           | true :: s =>
               let a := fresh (dom (heap w)) in
               Ok (Some a) (MkWorld (<[a:=b]> (heap w)) s)
           | false :: s => Ok None (MkWorld (heap w) s)
           | [] => Ok None w
           end.

(** [free]: nothing for the null pointer. *)
Definition free (p : option positive) : M unit :=
  fun w => match p with
           | None => Ok tt w
           | Some a => match heap w !! a with
                       | Some _ => Ok tt (MkWorld (delete a (heap w)) (script w))
                       | None => Fault
                       end
           end.

Definition load_model (p : option positive) : M mjModel :=
  let* b := load p in match b with BModel m => ret m | _ => fault end.

Definition load_data (p : option positive) : M mjData :=
  let* b := load p in match b with BData d => ret d | _ => fault end.

Definition load_access_model (p : option positive) : M MjAccessModel :=
  let* b := load p in match b with BAccessModel h => ret h | _ => fault end.

Definition load_access_data (p : option positive) : M MjAccessData :=
  let* b := load p in match b with BAccessData h => ret h | _ => fault end.

Definition load_sim (p : option positive) : M MjAccessBatchedSim :=
  let* b := load p in match b with BSim s => ret s | _ => fault end.

Definition load_ptrs (p : option positive) : M (list (option positive)) :=
  let* b := load p in match b with BPtrs l => ret l | _ => fault end.

Definition load_buf (p : option positive) : M (list (option mjtNum)) :=
  let* b := load p in match b with BBuf l => ret l | _ => fault end.

(** [sim->field = v] *)
Definition modify_sim (sim : option positive)
    (f : MjAccessBatchedSim -> MjAccessBatchedSim) : M unit :=
  let* s := load_sim sim in store sim (BSim (f s)).

(** [sim->datas[i]] *)
Definition datas_at (sim : option positive) (i : nat) : M (option positive) :=
  let* s := load_sim sim in
  let* l := load_ptrs (datas s) in
  lift (l !! i).

(** [sim->datas[i] = d] *)
Definition set_datas_at (sim : option positive) (i : nat)
    (d : option positive) : M unit :=
  let* s := load_sim sim in
  let* l := load_ptrs (datas s) in
  if bool_decide (i < length l) then store (datas s) (BPtrs (<[i:=d]> l))
  else fault.

(** ** The engine entry points, on memory *)

Definition mj_makeData (m : option positive) : M (option positive) :=
  let* mm := load_model m in alloc (BData (createDefaultState mm)).

Definition mj_deleteData (d : option positive) : M unit :=
  let* _ := load_data d in free d.

Definition mj_step (m d : option positive) : M unit :=
  let* mm := load_model m in
  let* dd := load_data d in
  store d (BData (advanceOneStep mm dd)).

Definition mj_resetData (m d : option positive) : M unit :=
  let* mm := load_model m in
  let* dd := load_data d in
  store d (BData (resetToDefault mm dd)).

(** ** Single-environment entry points *)

Definition mjaccess_step (model data : option positive) : M unit :=
  match model with
  | None => ret tt
  | Some _ =>
    let* am := load_access_model model in
    match am_mj am, data with
    | None, _ | _, None => ret tt
    | Some _, Some _ =>
      let* ad := load_access_data data in
      match ad_mj ad with
      | None => ret tt
      | Some _ => mj_step (am_mj am) (ad_mj ad)
      end
    end
  end.

Definition mjaccess_set_ctrl (data : option positive)
    (ctrl_in : option (list mjtNum)) (n : Z) : M unit :=
  match data with
  | None => ret tt
  | Some _ =>
    let* ad := load_access_data data in
    match ad_mj ad, ctrl_in with
    | None, _ | _, None => ret tt
    | Some _, Some vals =>
      if (n <=? 0)%Z then ret tt
      else
        let* dd := load_data (ad_mj ad) in
        let* c := lift (memcpy (ctrl dd) 0 vals 0 (double_count n)) in
        store (ad_mj ad) (BData (set_ctrl c dd))
    end
  end.

(** ** Batched simulation *)

Definition batched_free_buffers (sim : option positive) : M unit :=
  for_each all_fields (fun f =>
    let* s := load_sim sim in
    let* _ := free (buf_field f s) in
    modify_sim sim (set_buf_field f None)).

Definition mjaccess_batched_free (sim : option positive) : M unit :=
  match sim with
  | None => ret tt
  | Some _ =>
    let* s := load_sim sim in
    let* _ :=
      match datas s with
      | None => ret tt
      | Some _ =>
        let* _ := for_each (seq 0 (Z.to_nat (num_envs s))) (fun i =>
                    let* d := datas_at sim i in
                    match d with
                    | Some _ => mj_deleteData d
                    | None => ret tt
                    end) in
        free (datas s)
      end in
    let* _ := batched_free_buffers sim in
    free sim
  end.

(** The slot-allocation loop of [mjaccess_batched_create], from index
    [i] with [n] iterations to go.  It yields [false] when a slot could
    not be made, after the pool has been freed. *)
Fixpoint create_envs (sim mj : option positive) (i n : nat) : M bool :=
  match n with
  | O => ret true
  | S n' =>
    let* d := mj_makeData mj in
    let* _ := set_datas_at sim i d in
    match d with
    | None => let* _ := mjaccess_batched_free sim in ret false
    | Some _ => create_envs sim mj (S i) n'
    end
  end.

Definition alloc_gather_buffers (sim mj : option positive) (ne : Z) : M unit :=
  for_each all_fields (fun f =>
    let* mm := load_model mj in
    let* b := alloc (BBuf (replicate (double_count (buf_alloc_expr f ne mm)) None)) in
    modify_sim sim (set_buf_field f b)).

Definition mjaccess_batched_create (model : option positive)
    (config : option MjAccessBatchedConfig) : M (option positive) :=
  match model with
  | None => ret None
  | Some _ =>
    let* am := load_access_model model in
    match am_mj am, config with
    | None, _ | _, None => ret None
    | Some _, Some cfg =>
      if (cfg_num_envs cfg <=? 0)%Z then ret None
      else
        let mj := am_mj am in
        let ne := cfg_num_envs cfg in
        let* sim := alloc (BSim zero_sim) in
        let* _ := modify_sim sim (set_model_ref mj) in
        let* _ := modify_sim sim (set_num_envs ne) in
        let* da := alloc (BPtrs (replicate (Z.to_nat (size_t_of ne)) None)) in
        let* _ := modify_sim sim (set_datas da) in
        let* made := create_envs sim mj 0 (Z.to_nat ne) in
        if made then
          let* _ :=
            if (0 <? solver_iterations cfg)%Z then
              let* mm := load_model mj in
              store mj (BModel (set_opt_iterations (solver_iterations cfg) mm))
            else ret tt in
          let* _ := alloc_gather_buffers sim mj ne in
          ret sim
        else ret None
    end
  end.

(** The block run by [dispatch_apply] for index [i]. *)
Definition step_task (sim m : option positive) (nu_ : Z)
    (ctrl_in : list mjtNum) (i : nat) : M unit :=
  let* d := datas_at sim i in
  let* dd := load_data d in
  let* c := lift (memcpy (ctrl dd) 0 ctrl_in
                    (Z.to_nat (size_mul (Z.of_nat i) (size_t_of nu_)))
                    (double_count nu_)) in
  let* _ := store d (BData (set_ctrl c dd)) in
  mj_step m d.

(** [dispatch_apply n queue block] runs the block once for every index
    below [n] and returns when all runs are over.  The order is the
    scheduler's; [sched n] is the order in which the runs take effect.
    Each run is taken as one step of the whole: a run of [step_task]
    writes only the state of its own environment and reads the model
    and the control buffer, which no run writes, so the interleavings
    of two runs have the effect of one of the two orders. *)
Definition dispatch_apply (sched : nat -> list nat) (n : nat)
    (task : nat -> M unit) : M unit :=
  for_each (sched n) task.

Definition mjaccess_batched_step_with (sched : nat -> list nat)
    (sim : option positive) (ctrl_in : option (list mjtNum)) : M unit :=
  match sim, ctrl_in with
  | None, _ | _, None => ret tt
  | Some _, Some cb =>
    let* s := load_sim sim in
    let m := model_ref s in
    let ne := num_envs s in
    let* mm := load_model m in
    let nu_ := nu mm in
    dispatch_apply sched (Z.to_nat (size_t_of ne)) (step_task sim m nu_ cb)
  end.

(** The batched step with the runs taking effect in index order. *)
Definition mjaccess_batched_step := mjaccess_batched_step_with (seq 0).

Definition mjaccess_batched_reset (sim : option positive)
    (reset_mask : option (list Z)) : M unit :=
  match sim, reset_mask with
  | None, _ | _, None => ret tt
  | Some _, Some mask =>
    let* s := load_sim sim in
    let m := model_ref s in
    for_each (seq 0 (Z.to_nat (num_envs s))) (fun i =>
      let* b := lift (mask !! i) in
      if (b =? 0)%Z then ret tt
      else let* d := datas_at sim i in mj_resetData m d)
  end.

(** [if (n_out) *n_out = v] *)
Definition write_out (n_out : option Z) (v : Z) : option Z :=
  match n_out with
  | Some _ => Some v
  | None => None
  end.

(** The body of the loop of the gather macro: the [memcpy] for
    environment [i]. *)
Definition gather_task (f : field) (sim buf : option positive) (per_env : Z)
    (i : nat) : M unit :=
  let* d := datas_at sim i in
  let* dd := load_data d in
  let* cells := load_buf buf in
  let* off := lift (displacement (int_mul (Z.of_nat i) per_env)) in
  let* cells' := lift (memcpy cells off (Some <$> field_of f dd) 0
                         (double_count per_env)) in
  store buf (BBuf cells').

(** The gather macro; the result is the returned pointer and the int
    behind [n_out] after the call ([None] for a null [n_out]). *)
Definition BATCHED_GATHER (f : field) (sim : option positive)
    (n_out : option Z) : M (option positive * option Z) :=
  match sim with
  | None => ret (None, write_out n_out 0)
  | Some _ =>
    let* s := load_sim sim in
    let ne := num_envs s in
    let* mm := load_model (model_ref s) in
    let per_env := int_wrap (per_env_expr f mm) in
    let total := int_mul ne per_env in
    let buf := buf_field f s in
    let* _ := for_each (seq 0 (Z.to_nat ne)) (gather_task f sim buf per_env) in
    ret (buf, write_out n_out total)
  end.

Definition mjaccess_batched_get_qpos := BATCHED_GATHER Fqpos.
Definition mjaccess_batched_get_qvel := BATCHED_GATHER Fqvel.
Definition mjaccess_batched_get_xpos := BATCHED_GATHER Fxpos.
Definition mjaccess_batched_get_subtree_com := BATCHED_GATHER Fsubtree_com.
Definition mjaccess_batched_get_cinert := BATCHED_GATHER Fcinert.
Definition mjaccess_batched_get_cvel := BATCHED_GATHER Fcvel.
Definition mjaccess_batched_get_qfrc_actuator := BATCHED_GATHER Fqfrc_actuator.
Definition mjaccess_batched_get_cfrc_ext := BATCHED_GATHER Fcfrc_ext.

Definition mjaccess_batched_set_env_qpos (sim : option positive) (env_idx : Z)
    (qpos_in : option (list mjtNum)) (nq_ : Z) : M unit :=
  match sim, qpos_in with
  | None, _ | _, None => ret tt
  | Some _, Some vals =>
    if (env_idx <? 0)%Z then ret tt
    else
      let* s := load_sim sim in
      if (num_envs s <=? env_idx)%Z then ret tt
      else
        let* d := datas_at sim (Z.to_nat env_idx) in
        let* dd := load_data d in
        let* q := lift (memcpy (qpos dd) 0 vals 0 (double_count nq_)) in
        store d (BData (set_qpos q dd))
  end.

Definition mjaccess_batched_set_env_qvel (sim : option positive) (env_idx : Z)
    (qvel_in : option (list mjtNum)) (nv_ : Z) : M unit :=
  match sim, qvel_in with
  | None, _ | _, None => ret tt
  | Some _, Some vals =>
    if (env_idx <? 0)%Z then ret tt
    else
      let* s := load_sim sim in
      if (num_envs s <=? env_idx)%Z then ret tt
      else
        let* d := datas_at sim (Z.to_nat env_idx) in
        let* dd := load_data d in
        let* q := lift (memcpy (qvel dd) 0 vals 0 (double_count nv_)) in
        store d (BData (set_qvel q dd))
  end.

(** Successive batched steps, one per control buffer, and a gather of
    field [f] after them. *)
Fixpoint batched_steps (sim : option positive)
    (controls : list (list mjtNum)) : M unit :=
  match controls with
  | [] => ret tt
  | cb :: rest =>
    let* _ := mjaccess_batched_step sim (Some cb) in batched_steps sim rest
  end.

Definition steps_then_gather (f : field) (sim : option positive)
    (controls : list (list mjtNum)) : M (option positive * option Z) :=
  let* _ := batched_steps sim controls in BATCHED_GATHER f sim (Some 0%Z).

(** ** Well-formed pools

    The shape of memory that [mjaccess_batched_create] sets up and that
    every other batched entry point relies on. *)

(** The mathematical value of the [per_env_expr] of a field. *)
Definition field_dim (f : field) (m : mjModel) : Z :=
  match f with
  | Fqpos => nq m
  | Fqvel => nv m
  | Fxpos => nbody m * 3
  | Fsubtree_com => nbody m * 3
  | Fcinert => nbody m * 10
  | Fcvel => nbody m * 6
  | Fqfrc_actuator => nv m
  | Fcfrc_ext => nbody m * 6
  end%Z.

(** The sizes of a model are non-negative [int]s. *)
Definition model_ok (m : mjModel) : Prop :=
  (0 ≤ nq m ≤ INT_MAX ∧ 0 ≤ nv m ≤ INT_MAX ∧
   0 ≤ nu m ≤ INT_MAX ∧ 0 ≤ nbody m ≤ INT_MAX)%Z.

(** The arrays of a state have the sizes the model gives them. *)
Definition data_ok (m : mjModel) (d : mjData) : Prop :=
  length (ctrl d) = Z.to_nat (nu m) ∧
  ∀ f, length (field_of f d) = Z.to_nat (field_dim f m).

(** [pool_at w sp s ma m slots ds]: in [w] the pool header [s] lives at
    [sp], it refers to the model [m] at [ma], and its pointer array
    lists the pairwise distinct addresses [slots], whose states are
    [ds]. *)
Record pool_at (w : world) (sp : positive) (s : MjAccessBatchedSim)
    (ma : positive) (m : mjModel) (slots : list positive)
    (ds : list mjData) : Prop := MkPoolAt {
  pool_sim : heap w !! sp = Some (BSim s);
  pool_model_ref : model_ref s = Some ma;
  pool_model : heap w !! ma = Some (BModel m);
  pool_ptrs : ∃ da, datas s = Some da ∧
                    heap w !! da = Some (BPtrs (Some <$> slots));
  pool_num_envs : num_envs s = Z.of_nat (length slots);
  pool_num_envs_int : (Z.of_nat (length slots) ≤ INT_MAX)%Z;
  pool_nodup : NoDup slots;
  pool_slots : Forall2 (λ a d, heap w !! a = Some (BData d)) slots ds
}.

(** The model and the states of a pool have matching sizes. *)
Definition dims_ok (m : mjModel) (ds : list mjData) : Prop :=
  model_ok m ∧ Forall (data_ok m) ds.

(** Every gather buffer of the pool is live, holds [n * field_dim]
    cells, and that count is an [int]. *)
Definition buffers_at (w : world) (s : MjAccessBatchedSim) (m : mjModel)
    (n : nat) : Prop :=
  ∀ f, (Z.of_nat n * field_dim f m ≤ INT_MAX)%Z ∧
       ∃ b cells, buf_field f s = Some b ∧
                  heap w !! b = Some (BBuf cells) ∧
                  length cells = n * Z.to_nat (field_dim f m).

(** The part of a flat buffer that belongs to environment [i] when each
    environment has [n] entries. *)
Definition env_slice {A : Type} (n : nat) (i : nat) (l : list A) : list A :=
  take n (drop (i * n) l).

(** The non-null gather buffers of a pool header. *)
Definition buffers_of (s : MjAccessBatchedSim) : list positive :=
  omap (λ f, buf_field f s) all_fields.

(** The gather buffers of the pool are live and pairwise distinct. *)
Definition buffers_owned (w : world) (s : MjAccessBatchedSim) : Prop :=
  NoDup (buffers_of s) ∧
  ∀ f b, buf_field f s = Some b → ∃ cells, heap w !! b = Some (BBuf cells).

(** Memory [h] with the blocks at the addresses [l] released. *)
Definition remove_all (l : list positive) (h : gmap positive block)
    : gmap positive block :=
  foldl (λ h a, delete a h) h l.

(** The pool header written by [mjaccess_batched_create] before any
    gather buffer exists. *)
Definition fresh_sim (ma : positive) (ne : Z) (da : positive)
    : MjAccessBatchedSim :=
  set_datas (Some da) (set_num_envs ne (set_model_ref (Some ma) zero_sim)).

(** The pool while [mjaccess_batched_create] is making its slots, in
    terms of the memory [h0] the call started from: the header and the
    pointer array are in place, the states at [made] have been made and
    entered, [r] entries of the array are still null, and the rest of
    memory is as in [h0]. *)
Record building_at (h0 : gmap positive block) (w : world)
    (sp ma da : positive) (m : mjModel) (ne : Z) (made : list positive)
    (r : nat) : Prop := MkBuildingAt {
  bld_sim : heap w !! sp = Some (BSim (fresh_sim ma ne da));
  bld_ptrs : heap w !! da = Some (BPtrs ((Some <$> made) ++ replicate r None));
  bld_model : heap w !! ma = Some (BModel m);
  bld_len : length made + r = Z.to_nat ne;
  bld_nodup : NoDup made;
  bld_made : ∀ a, a ∈ made → heap w !! a = Some (BData (createDefaultState m));
  bld_new : ∀ a, a ∈ sp :: da :: made → h0 !! a = None;
  bld_old : ∀ a, a ∉ sp :: da :: made → heap w !! a = h0 !! a
}.

(** What [mjaccess_batched_create] does once the pool header at [sp]
    and the pointer array are in place: the slot loop, the override,
    the gather buffers. *)
Definition create_rest (sp ma : positive) (cfg : MjAccessBatchedConfig)
    : M (option positive) :=
  let* made := create_envs (Some sp) (Some ma) 0 (Z.to_nat (cfg_num_envs cfg)) in
  if made then
    let* _ :=
      if (0 <? solver_iterations cfg)%Z then
        let* mm := load_model (Some ma) in
        store (Some ma) (BModel (set_opt_iterations (solver_iterations cfg) mm))
      else ret tt in
    let* _ := alloc_gather_buffers (Some sp) (Some ma) (cfg_num_envs cfg) in
    ret (Some sp)
  else ret None.

(** The circumstances in which pool creation has to fail: a null model
    handle, a handle without a model, a number of environments that is
    not positive, or the engine refusing one of the per-slot states
    (the [k]+1-th) once the pool header and the pointer array have been
    obtained. *)
Inductive failure_cause (w : world)
    : option positive → MjAccessBatchedConfig → Prop :=
  | cause_null_handle cfg : failure_cause w None cfg
  | cause_no_model hm cfg :
      heap w !! hm = Some (BAccessModel (MkAccessModel None)) →
      failure_cause w (Some hm) cfg
  | cause_num_envs hm am cfg :
      heap w !! hm = Some (BAccessModel am) →
      (cfg_num_envs cfg ≤ 0)%Z →
      failure_cause w (Some hm) cfg
  | cause_slot_alloc hm ma m cfg k t :
      heap w !! hm = Some (BAccessModel (MkAccessModel (Some ma))) →
      heap w !! ma = Some (BModel m) →
      (0 < cfg_num_envs cfg ≤ INT_MAX)%Z →
      k < Z.to_nat (cfg_num_envs cfg) →
      script w = true :: true :: replicate k true ++ t →
      (t = [] ∨ ∃ t', t = false :: t') →
      failure_cause w (Some hm) cfg.

(** The batched operations other than creation, with their arguments
    besides the pool handle. *)
Inductive batch_op : Type :=
  | OpStep (sched : nat → list nat) (ctrl_in : option (list mjtNum))
  | OpReset (reset_mask : option (list Z))
  | OpGather (f : field) (n_out : option Z)
  | OpSetEnvQpos (env_idx : Z) (qpos_in : option (list mjtNum)) (nq_ : Z)
  | OpSetEnvQvel (env_idx : Z) (qvel_in : option (list mjtNum)) (nv_ : Z)
  | OpFree.

Definition run_op (sim : option positive) (op : batch_op) : M unit :=
  match op with
  | OpStep sched ctrl_in => mjaccess_batched_step_with sched sim ctrl_in
  | OpReset reset_mask => mjaccess_batched_reset sim reset_mask
  | OpGather f n_out => let* _ := BATCHED_GATHER f sim n_out in ret tt
  | OpSetEnvQpos i v n => mjaccess_batched_set_env_qpos sim i v n
  | OpSetEnvQvel i v n => mjaccess_batched_set_env_qvel sim i v n
  | OpFree => mjaccess_batched_free sim
  end.

(** Every model of [w] is still there, unchanged, in [w']. *)
Definition models_kept (w w' : world) : Prop :=
  ∀ a m, heap w !! a = Some (BModel m) → heap w' !! a = Some (BModel m).

(** What a batched step with the control buffer [cb] makes of the state
    of environment [i]. *)
Definition step_env (m : mjModel) (cb : list mjtNum) (i : nat)
    (d : mjData) : mjData :=
  advanceOneStep m (set_ctrl (env_slice (Z.to_nat (nu m)) i cb) d).

(** What a masked reset makes of the state of environment [i]. *)
Definition reset_env (m : mjModel) (mask : list Z) (i : nat)
    (d : mjData) : mjData :=
  match mask !! i with
  | Some b => if (b =? 0)%Z then d else resetToDefault m d
  | None => d
  end.

(** The states of a pool once the environments listed in [done] have
    been updated by [g]. *)
Definition updated_on (g : nat → mjData → mjData) (done : list nat)
    (ds : list mjData) : list mjData :=
  imap (λ i d, if decide (i ∈ done) then g i d else d) ds.

(** [w'] has the script of [w] and differs from [w] at most at the
    addresses listed in [touched]. *)
Definition same_outside (touched : list positive) (w w' : world) : Prop :=
  script w' = script w ∧ ∀ a, a ∉ touched → heap w' !! a = heap w !! a.

(** ** A single environment on its own

    The memory of one environment used through the single-environment
    interface: the model, one state, and the two handles. *)
Definition single_env_world (m : mjModel) (d : mjData) : world :=
  MkWorld (<[4%positive := BAccessData (MkAccessData (Some 2%positive) (Some 1%positive))]>
        (<[3%positive := BAccessModel (MkAccessModel (Some 1%positive))]>
        (<[2%positive := BData d]>
        (<[1%positive := BModel m]> ∅)))) [].

(** Set the controls of that environment to [u] and step it once. *)
Definition single_env_step (m : mjModel) (d : mjData) (u : list mjtNum)
    : option mjData :=
  match (let* _ := mjaccess_set_ctrl (Some 4%positive) (Some u) (nu m) in
         mjaccess_step (Some 3%positive) (Some 4%positive))
          (single_env_world m d) with
  | Ok _ w' => match heap w' !! 2%positive with
               | Some (BData d') => Some d'
               | _ => None
               end
  | Fault => None
  end.

(** The int reported through [n_out] by a getter. *)
Definition reported_length {A} (r : result (A * option Z)) : option Z :=
  match r with
  | Ok (_, n) _ => n
  | Fault => None
  end.

(** ** Sequences of batched operations *)

Fixpoint run_ops (sim : option positive) (ops : list batch_op) : M unit :=
  match ops with
  | [] => ret tt
  | op :: rest => let* _ := run_op sim op in run_ops sim rest
  end.

(** A pool of [n] environments of the model [m] at [ma], with its gather
    buffers, ready for use. *)
Definition pool_ready (w : world) (sp ma : positive) (m : mjModel)
    (n : nat) : Prop :=
  ∃ s slots ds,
    pool_at w sp s ma m slots ds ∧ length slots = n ∧ dims_ok m ds ∧
    buffers_at w s m n ∧ buffers_owned w s.

(** The arguments an operation other than destruction is meant to be
    called with on such a pool: every index run once by the scheduler,
    a control buffer of [n * nu] entries, a mask of [n] entries, and for
    a scatter into an existing slot a count that is within both the
    target array and the given values. *)
Definition op_valid (m : mjModel) (n : nat) (op : batch_op) : Prop :=
  match op with
  | OpStep sched ctrl_in =>
      (∀ k, Permutation (sched k) (seq 0 k)) ∧
      ∀ cb, ctrl_in = Some cb → length cb = n * Z.to_nat (nu m)
  | OpReset reset_mask =>
      ∀ mask, reset_mask = Some mask → length mask = n
  | OpGather _ _ => True
  | OpSetEnvQpos i v k =>
      ∀ vals, v = Some vals → (0 ≤ i < Z.of_nat n)%Z →
              (0 ≤ k ≤ nq m)%Z ∧ Z.to_nat k ≤ length vals
  | OpSetEnvQvel i v k =>
      ∀ vals, v = Some vals → (0 ≤ i < Z.of_nat n)%Z →
              (0 ≤ k ≤ nv m)%Z ∧ Z.to_nat k ≤ length vals
  | OpFree => False
  end.

End Shim.

Arguments mjModel : clear implicits.
Arguments mjData : clear implicits.
Arguments block : clear implicits.
Arguments world : clear implicits.
Arguments result : clear implicits.
Arguments M : clear implicits.
Arguments Ok {mjtNum mjModelExtra mjDataExtra A} a w.
Arguments Fault {mjtNum mjModelExtra mjDataExtra A}.

(** * The single-environment interface

    The model and state handles with their life cycle, the state
    setters, the zero-copy getters and the checked accessors of the
    model, over the same memory as the batched engine. *)

Definition sizeof_float : Z := 4.

(** The number of floats covered by a byte count [n * sizeof(float)]
    where [n] is an [int] converted to [size_t]. *)
Definition float_count (n : Z) : nat :=
  Z.to_nat (size_mul (size_t_of n) sizeof_float / sizeof_float).

Definition int_sub (a b : Z) : Z := int_wrap (a - b).

(** [a[i] = v] *)
Definition array_set {A : Type} (l : list A) (i : nat) (v : A)
    : option (list A) :=
  if bool_decide (i < length l) then Some (<[i:=v]> l) else None.

(** The instances of the [GETTER] macro. *)
Inductive getter : Type :=
  | Gqpos | Gqvel | Gctrl | Gxpos | Gxquat | Gxipos | Gcvel | Gqfrc_actuator
  | Gsubtree_com | Gcinert | Gcfrc_ext | Ggeom_xpos | Ggeom_xmat | Gsensordata
  | Gxaxis | Gsite_xpos | Gsite_xmat | Gactuator_length | Gactuator_velocity
  | Gactuator_force | Gmocap_pos | Gmocap_quat | Gten_length | Gxfrc_applied.

(** The setters that copy [n] values over the start of an array. *)
Inductive bulk_setter : Type :=
  | SetQpos | SetQvel | SetCtrl | SetMocapPos | SetMocapQuat.

(** The setters that write one entry of an array. *)
Inductive entry_setter : Type := SetQposAt | SetQvelAt | SetCtrlAt.

(** The accessors that read one entry of an [int] array of the model. *)
Inductive int_accessor : Type :=
  | Ajnt_qposadr | Ajnt_dofadr | Ajnt_type | Ageom_type | Asensor_adr
  | Abody_mocapid | Ahfield_adr.

(** The accessors that read one entry of a [double] array of the model. *)
Inductive num_accessor : Type := Abody_mass | Atendon_width.

Section Accessors.

(** [mjfloat] is [float], the type of height-field samples. *)
Context {mjtNum mjfloat : Type}.

(** The constant [0.0]. *)
Variable zero : mjtNum.

(** ** The rest of the engine structures

    The fields of [mjModel] and [mjData] that the single-environment
    entry points read or write, besides those of the batched code. *)

Record mjModelRest : Type := MkModelRest {
  njnt : Z;
  ngeom : Z;
  nsite : Z;
  nmocap : Z;
  ntendon : Z;
  nsensor : Z;
  nsensordata : Z;
  nhfield : Z;
  nhfielddata : Z;
  opt_timestep : mjtNum;
  body_mass : list mjtNum;
  body_mocapid : list Z;
  jnt_qposadr : list Z;
  jnt_dofadr : list Z;
  jnt_type : list Z;
  geom_type : list Z;
  sensor_adr : list Z;
  tendon_width : list mjtNum;
  hfield_adr : list Z;
  hfield_data : list mjfloat
}.

Record mjDataRest : Type := MkDataRest {
  xquat : list mjtNum;
  xipos : list mjtNum;
  geom_xpos : list mjtNum;
  geom_xmat : list mjtNum;
  sensordata : list mjtNum;
  xaxis : list mjtNum;
  site_xpos : list mjtNum;
  site_xmat : list mjtNum;
  actuator_length : list mjtNum;
  actuator_velocity : list mjtNum;
  actuator_force : list mjtNum;
  mocap_pos : list mjtNum;
  mocap_quat : list mjtNum;
  ten_length : list mjtNum;
  xfrc_applied : list mjtNum
}.

Local Abbreviation Model := (mjModel mjModelRest).
Local Abbreviation Data := (mjData mjtNum mjDataRest).
Local Abbreviation Run := (M mjtNum mjModelRest mjDataRest).

Local Notation "'let*' x ':=' c 'in' k" := (bind c (fun x => k))
  (at level 10, x pattern, c at level 100, k at level 200).

Definition set_m_other (r : mjModelRest) (m : Model) : Model :=
  MkModel (nq m) (nv m) (nu m) (nbody m) (opt_iterations m) r.

Definition set_opt_timestep (v : mjtNum) (m : Model) : Model :=
  let r := m_other m in
  set_m_other
    (MkModelRest (njnt r) (ngeom r) (nsite r) (nmocap r) (ntendon r) (nsensor r)
       (nsensordata r) (nhfield r) (nhfielddata r) v (body_mass r)
       (body_mocapid r) (jnt_qposadr r) (jnt_dofadr r) (jnt_type r)
       (geom_type r) (sensor_adr r) (tendon_width r) (hfield_adr r)
       (hfield_data r)) m.

Definition set_hfield_data (v : list mjfloat) (m : Model) : Model :=
  let r := m_other m in
  set_m_other
    (MkModelRest (njnt r) (ngeom r) (nsite r) (nmocap r) (ntendon r) (nsensor r)
       (nsensordata r) (nhfield r) (nhfielddata r) (opt_timestep r)
       (body_mass r) (body_mocapid r) (jnt_qposadr r) (jnt_dofadr r)
       (jnt_type r) (geom_type r) (sensor_adr r) (tendon_width r)
       (hfield_adr r) v) m.

Definition set_d_other (r : mjDataRest) (d : Data) : Data :=
  MkData (qpos d) (qvel d) (ctrl d) (xpos d) (subtree_com d) (cinert d) (cvel d)
         (qfrc_actuator d) (cfrc_ext d) r.

Definition set_mocap_pos (v : list mjtNum) (d : Data) : Data :=
  let r := d_other d in
  set_d_other
    (MkDataRest (xquat r) (xipos r) (geom_xpos r) (geom_xmat r) (sensordata r)
       (xaxis r) (site_xpos r) (site_xmat r) (actuator_length r)
       (actuator_velocity r) (actuator_force r) v (mocap_quat r)
       (ten_length r) (xfrc_applied r)) d.

Definition set_mocap_quat (v : list mjtNum) (d : Data) : Data :=
  let r := d_other d in
  set_d_other
    (MkDataRest (xquat r) (xipos r) (geom_xpos r) (geom_xmat r) (sensordata r)
       (xaxis r) (site_xpos r) (site_xmat r) (actuator_length r)
       (actuator_velocity r) (actuator_force r) (mocap_pos r) v
       (ten_length r) (xfrc_applied r)) d.

Definition set_xfrc_applied (v : list mjtNum) (d : Data) : Data :=
  let r := d_other d in
  set_d_other
    (MkDataRest (xquat r) (xipos r) (geom_xpos r) (geom_xmat r) (sensordata r)
       (xaxis r) (site_xpos r) (site_xmat r) (actuator_length r)
       (actuator_velocity r) (actuator_force r) (mocap_pos r) (mocap_quat r)
       (ten_length r) v) d.

Definition set_ad_mj (v : option positive) (h : MjAccessData) : MjAccessData :=
  MkAccessData v (ad_model_ref h).

Definition set_ad_model_ref (v : option positive) (h : MjAccessData)
    : MjAccessData :=
  MkAccessData (ad_mj h) v.

(** ** Engine entry points *)

Variable createDefaultState : Model -> Data.

Definition mj_deleteModel (m : option positive) : Run unit :=
  let* _ := load_model m in free m.

(** ** Guards *)

(** [!model || !model->mj]: the model pointer of the handle, null when
    the guard makes the caller return. *)
Definition live_model (model : option positive) : Run (option positive) :=
  match model with
  | None => ret None
  | Some _ => let* am := load_access_model model in ret (am_mj am)
  end.

(** [!data || !data->mj]: the handle, when the guard lets the call go on. *)
Definition live_data (data : option positive) : Run (option MjAccessData) :=
  match data with
  | None => ret None
  | Some _ =>
    let* ad := load_access_data data in
    match ad_mj ad with
    | None => ret None
    | Some _ => ret (Some ad)
    end
  end.

(** [data->field = v] *)
Definition modify_access_data (data : option positive)
    (f : MjAccessData -> MjAccessData) : Run unit :=
  let* h := load_access_data data in store data (BAccessData (f h)).

(** ** Model lifecycle and accessors *)

Definition mjaccess_free_model (model : option positive) : Run unit :=
  match model with
  | None => ret tt
  | Some _ =>
    let* am := load_access_model model in
    let* _ := match am_mj am with
              | Some _ => mj_deleteModel (am_mj am)
              | None => ret tt
              end in
    free model
  end.

Definition mjaccess_model_opt_timestep (model : option positive) : Run mjtNum :=
  let* mj := live_model model in
  match mj with
  | None => ret zero
  | Some _ => let* mm := load_model mj in ret (opt_timestep (m_other mm))
  end.

Definition mjaccess_model_set_opt_timestep (model : option positive)
    (dt : mjtNum) : Run unit :=
  let* mj := live_model model in
  match mj with
  | None => ret tt
  | Some _ =>
    let* mm := load_model mj in store mj (BModel (set_opt_timestep dt mm))
  end.

Definition mjaccess_model_body_mass (model : option positive) (body_id : Z)
    : Run mjtNum :=
  let* mj := live_model model in
  match mj with
  | None => ret zero
  | Some _ =>
    if (body_id <? 0)%Z then ret zero
    else
      let* mm := load_model mj in
      if (nbody mm <=? body_id)%Z then ret zero
      else lift (body_mass (m_other mm) !! Z.to_nat body_id)
  end.

Definition mjaccess_model_jnt_qposadr (model : option positive) (jnt_id : Z)
    : Run Z :=
  let* mj := live_model model in
  match mj with
  | None => ret (-1)%Z
  | Some _ =>
    if (jnt_id <? 0)%Z then ret (-1)%Z
    else
      let* mm := load_model mj in
      if (njnt (m_other mm) <=? jnt_id)%Z then ret (-1)%Z
      else lift (jnt_qposadr (m_other mm) !! Z.to_nat jnt_id)
  end.

Definition mjaccess_model_jnt_dofadr (model : option positive) (jnt_id : Z)
    : Run Z :=
  let* mj := live_model model in
  match mj with
  | None => ret (-1)%Z
  | Some _ =>
    if (jnt_id <? 0)%Z then ret (-1)%Z
    else
      let* mm := load_model mj in
      if (njnt (m_other mm) <=? jnt_id)%Z then ret (-1)%Z
      else lift (jnt_dofadr (m_other mm) !! Z.to_nat jnt_id)
  end.

Definition mjaccess_model_jnt_type (model : option positive) (jnt_id : Z)
    : Run Z :=
  let* mj := live_model model in
  match mj with
  | None => ret (-1)%Z
  | Some _ =>
    if (jnt_id <? 0)%Z then ret (-1)%Z
    else
      let* mm := load_model mj in
      if (njnt (m_other mm) <=? jnt_id)%Z then ret (-1)%Z
      else lift (jnt_type (m_other mm) !! Z.to_nat jnt_id)
  end.

Definition mjaccess_model_geom_type (model : option positive) (geom_id : Z)
    : Run Z :=
  let* mj := live_model model in
  match mj with
  | None => ret (-1)%Z
  | Some _ =>
    if (geom_id <? 0)%Z then ret (-1)%Z
    else
      let* mm := load_model mj in
      if (ngeom (m_other mm) <=? geom_id)%Z then ret (-1)%Z
      else lift (geom_type (m_other mm) !! Z.to_nat geom_id)
  end.

Definition mjaccess_model_sensor_adr (model : option positive) (sensor_id : Z)
    : Run Z :=
  let* mj := live_model model in
  match mj with
  | None => ret (-1)%Z
  | Some _ =>
    if (sensor_id <? 0)%Z then ret (-1)%Z
    else
      let* mm := load_model mj in
      if (nsensor (m_other mm) <=? sensor_id)%Z then ret (-1)%Z
      else lift (sensor_adr (m_other mm) !! Z.to_nat sensor_id)
  end.

Definition mjaccess_model_body_mocapid (model : option positive) (body_id : Z)
    : Run Z :=
  let* mj := live_model model in
  match mj with
  | None => ret (-1)%Z
  | Some _ =>
    if (body_id <? 0)%Z then ret (-1)%Z
    else
      let* mm := load_model mj in
      if (nbody mm <=? body_id)%Z then ret (-1)%Z
      else lift (body_mocapid (m_other mm) !! Z.to_nat body_id)
  end.

Definition mjaccess_model_tendon_width (model : option positive) (tendon_id : Z)
    : Run mjtNum :=
  let* mj := live_model model in
  match mj with
  | None => ret zero
  | Some _ =>
    if (tendon_id <? 0)%Z then ret zero
    else
      let* mm := load_model mj in
      if (ntendon (m_other mm) <=? tendon_id)%Z then ret zero
      else lift (tendon_width (m_other mm) !! Z.to_nat tendon_id)
  end.

Definition mjaccess_model_hfield_adr (model : option positive) (hfield_id : Z)
    : Run Z :=
  let* mj := live_model model in
  match mj with
  | None => ret (-1)%Z
  | Some _ =>
    if (hfield_id <? 0)%Z then ret (-1)%Z
    else
      let* mm := load_model mj in
      if (nhfield (m_other mm) <=? hfield_id)%Z then ret (-1)%Z
      else lift (hfield_adr (m_other mm) !! Z.to_nat hfield_id)
  end.

(** The result is the returned pointer, which stands for the array
    [hfield_data] of the model at that address, and the int behind
    [n_out] after the call. *)
Definition mjaccess_model_hfield_data (model : option positive)
    (n_out : option Z) : Run (option positive * option Z) :=
  let* mj := live_model model in
  match mj with
  | None => ret (None, write_out n_out 0)
  | Some _ =>
    let* mm := load_model mj in
    if (nhfield (m_other mm) =? 0)%Z then ret (None, write_out n_out 0)
    else ret (mj, write_out n_out (int_wrap (nhfielddata (m_other mm))))
  end.

Definition mjaccess_model_set_hfield_data (model : option positive)
    (offset : Z) (values : option (list mjfloat)) (n : Z) : Run unit :=
  let* mj := live_model model in
  match mj, values with
  | None, _ | _, None => ret tt
  | Some _, Some vals =>
    if (n <=? 0)%Z || (offset <? 0)%Z then ret tt
    else
      let* mm := load_model mj in
      let max_n := int_sub (int_wrap (nhfielddata (m_other mm))) offset in
      if (max_n <=? 0)%Z then ret tt
      else
        let count := if (n <? max_n)%Z then n else max_n in
        let* off := lift (displacement offset) in
        let* h := lift (memcpy (hfield_data (m_other mm)) off vals 0
                          (float_count count)) in
        store mj (BModel (set_hfield_data h mm))
  end.

(** ** Data lifecycle *)

Definition mjaccess_make_data (model : option positive)
    : Run (option positive) :=
  let* mj := live_model model in
  match mj with
  | None => ret None
  | Some _ =>
    let* d := mj_makeData createDefaultState mj in
    match d with
    | None => ret None
    | Some _ =>
      let* data := alloc (BAccessData (MkAccessData None None)) in
      let* _ := modify_access_data data (set_ad_mj d) in
      let* am := load_access_model model in
      let* _ := modify_access_data data (set_ad_model_ref (am_mj am)) in
      ret data
    end
  end.

Definition mjaccess_free_data (data : option positive) : Run unit :=
  match data with
  | None => ret tt
  | Some _ =>
    let* ad := load_access_data data in
    let* _ := match ad_mj ad with
              | Some _ => mj_deleteData (ad_mj ad)
              | None => ret tt
              end in
    free data
  end.

(** ** State setters *)

Definition mjaccess_set_qpos (data : option positive)
    (qpos_in : option (list mjtNum)) (n : Z) : Run unit :=
  let* h := live_data data in
  match h, qpos_in with
  | None, _ | _, None => ret tt
  | Some ad, Some vals =>
    if (n <=? 0)%Z then ret tt
    else
      let* dd := load_data (ad_mj ad) in
      let* q := lift (memcpy (qpos dd) 0 vals 0 (double_count n)) in
      store (ad_mj ad) (BData (set_qpos q dd))
  end.

Definition mjaccess_set_qvel (data : option positive)
    (qvel_in : option (list mjtNum)) (n : Z) : Run unit :=
  let* h := live_data data in
  match h, qvel_in with
  | None, _ | _, None => ret tt
  | Some ad, Some vals =>
    if (n <=? 0)%Z then ret tt
    else
      let* dd := load_data (ad_mj ad) in
      let* q := lift (memcpy (qvel dd) 0 vals 0 (double_count n)) in
      store (ad_mj ad) (BData (set_qvel q dd))
  end.

Definition mjaccess_set_mocap_pos (data : option positive)
    (pos : option (list mjtNum)) (n : Z) : Run unit :=
  let* h := live_data data in
  match h, pos with
  | None, _ | _, None => ret tt
  | Some ad, Some vals =>
    if (n <=? 0)%Z then ret tt
    else
      let* dd := load_data (ad_mj ad) in
      let* q := lift (memcpy (mocap_pos (d_other dd)) 0 vals 0 (double_count n)) in
      store (ad_mj ad) (BData (set_mocap_pos q dd))
  end.

Definition mjaccess_set_mocap_quat (data : option positive)
    (quat : option (list mjtNum)) (n : Z) : Run unit :=
  let* h := live_data data in
  match h, quat with
  | None, _ | _, None => ret tt
  | Some ad, Some vals =>
    if (n <=? 0)%Z then ret tt
    else
      let* dd := load_data (ad_mj ad) in
      let* q := lift (memcpy (mocap_quat (d_other dd)) 0 vals 0 (double_count n)) in
      store (ad_mj ad) (BData (set_mocap_quat q dd))
  end.

Definition mjaccess_set_xfrc_applied (data : option positive)
    (values : option (list mjtNum)) (n : Z) : Run unit :=
  let* h := live_data data in
  match h, values with
  | None, _ | _, None => ret tt
  | Some ad, Some vals =>
    if (n <=? 0)%Z then ret tt
    else
      let* mm := load_model (ad_model_ref ad) in
      let max_n := int_mul (nbody mm) 6 in
      let count := if (n <? max_n)%Z then n else max_n in
      let* dd := load_data (ad_mj ad) in
      let* x := lift (memcpy (xfrc_applied (d_other dd)) 0 vals 0
                        (double_count count)) in
      store (ad_mj ad) (BData (set_xfrc_applied x dd))
  end.

Definition mjaccess_set_qpos_at (data : option positive) (index : Z)
    (value : mjtNum) : Run unit :=
  let* h := live_data data in
  match h with
  | None => ret tt
  | Some ad =>
    if (index <? 0)%Z then ret tt
    else
      let* mm := load_model (ad_model_ref ad) in
      if (nq mm <=? index)%Z then ret tt
      else
        let* dd := load_data (ad_mj ad) in
        let* q := lift (array_set (qpos dd) (Z.to_nat index) value) in
        store (ad_mj ad) (BData (set_qpos q dd))
  end.

Definition mjaccess_set_qvel_at (data : option positive) (index : Z)
    (value : mjtNum) : Run unit :=
  let* h := live_data data in
  match h with
  | None => ret tt
  | Some ad =>
    if (index <? 0)%Z then ret tt
    else
      let* mm := load_model (ad_model_ref ad) in
      if (nv mm <=? index)%Z then ret tt
      else
        let* dd := load_data (ad_mj ad) in
        let* q := lift (array_set (qvel dd) (Z.to_nat index) value) in
        store (ad_mj ad) (BData (set_qvel q dd))
  end.

Definition mjaccess_set_ctrl_at (data : option positive) (index : Z)
    (value : mjtNum) : Run unit :=
  let* h := live_data data in
  match h with
  | None => ret tt
  | Some ad =>
    if (index <? 0)%Z then ret tt
    else
      let* mm := load_model (ad_model_ref ad) in
      if (nu mm <=? index)%Z then ret tt
      else
        let* dd := load_data (ad_mj ad) in
        let* q := lift (array_set (ctrl dd) (Z.to_nat index) value) in
        store (ad_mj ad) (BData (set_ctrl q dd))
  end.

(** ** State getters *)

(** The [field] argument of the getter macro. *)
Definition getter_field (g : getter) (d : Data) : list mjtNum :=
  match g with
  | Gqpos => qpos d
  | Gqvel => qvel d
  | Gctrl => ctrl d
  | Gxpos => xpos d
  | Gxquat => xquat (d_other d)
  | Gxipos => xipos (d_other d)
  | Gcvel => cvel d
  | Gqfrc_actuator => qfrc_actuator d
  | Gsubtree_com => subtree_com d
  | Gcinert => cinert d
  | Gcfrc_ext => cfrc_ext d
  | Ggeom_xpos => geom_xpos (d_other d)
  | Ggeom_xmat => geom_xmat (d_other d)
  | Gsensordata => sensordata (d_other d)
  | Gxaxis => xaxis (d_other d)
  | Gsite_xpos => site_xpos (d_other d)
  | Gsite_xmat => site_xmat (d_other d)
  | Gactuator_length => actuator_length (d_other d)
  | Gactuator_velocity => actuator_velocity (d_other d)
  | Gactuator_force => actuator_force (d_other d)
  | Gmocap_pos => mocap_pos (d_other d)
  | Gmocap_quat => mocap_quat (d_other d)
  | Gten_length => ten_length (d_other d)
  | Gxfrc_applied => xfrc_applied (d_other d)
  end.

(** The [size_expr] argument of the getter macro. *)
Definition getter_size_expr (g : getter) (m : Model) : Z :=
  match g with
  | Gqpos => nq m
  | Gqvel => nv m
  | Gctrl => nu m
  | Gxpos => int_mul (nbody m) 3
  | Gxquat => int_mul (nbody m) 4
  | Gxipos => int_mul (nbody m) 3
  | Gcvel => int_mul (nbody m) 6
  | Gqfrc_actuator => nv m
  | Gsubtree_com => int_mul (nbody m) 3
  | Gcinert => int_mul (nbody m) 10
  | Gcfrc_ext => int_mul (nbody m) 6
  | Ggeom_xpos => int_mul (ngeom (m_other m)) 3
  | Ggeom_xmat => int_mul (ngeom (m_other m)) 9
  | Gsensordata => nsensordata (m_other m)
  | Gxaxis => int_mul (njnt (m_other m)) 3
  | Gsite_xpos => int_mul (nsite (m_other m)) 3
  | Gsite_xmat => int_mul (nsite (m_other m)) 9
  | Gactuator_length => nu m
  | Gactuator_velocity => nu m
  | Gactuator_force => nu m
  | Gmocap_pos => int_mul (nmocap (m_other m)) 3
  | Gmocap_quat => int_mul (nmocap (m_other m)) 4
  | Gten_length => ntendon (m_other m)
  | Gxfrc_applied => int_mul (nbody m) 6
  end.

(** The getter macro.  The pointer it returns points into the state:
    the pair of the address of the state and the array meant.  The
    model is read only to fill in [n_out]. *)
Definition GETTER (g : getter) (data : option positive) (n_out : option Z)
    : Run (option (positive * getter) * option Z) :=
  let* h := live_data data in
  match h with
  | None => ret (None, write_out n_out 0)
  | Some ad =>
    let* n' := match n_out with
               | None => ret None
               | Some _ =>
                 let* mm := load_model (ad_model_ref ad) in
                 ret (Some (int_wrap (getter_size_expr g mm)))
               end in
    let* _ := load_data (ad_mj ad) in
    ret (match ad_mj ad with
         | Some pd => Some (pd, g)
         | None => None
         end, n')
  end.

Definition mjaccess_get_qpos := GETTER Gqpos.
Definition mjaccess_get_qvel := GETTER Gqvel.
Definition mjaccess_get_ctrl := GETTER Gctrl.
Definition mjaccess_get_xpos := GETTER Gxpos.
Definition mjaccess_get_xquat := GETTER Gxquat.
Definition mjaccess_get_xipos := GETTER Gxipos.
Definition mjaccess_get_cvel := GETTER Gcvel.
Definition mjaccess_get_qfrc_actuator := GETTER Gqfrc_actuator.
Definition mjaccess_get_subtree_com := GETTER Gsubtree_com.
Definition mjaccess_get_cinert := GETTER Gcinert.
Definition mjaccess_get_cfrc_ext := GETTER Gcfrc_ext.
Definition mjaccess_get_geom_xpos := GETTER Ggeom_xpos.
Definition mjaccess_get_geom_xmat := GETTER Ggeom_xmat.
Definition mjaccess_get_sensordata := GETTER Gsensordata.
Definition mjaccess_get_xaxis := GETTER Gxaxis.
Definition mjaccess_get_site_xpos := GETTER Gsite_xpos.
Definition mjaccess_get_site_xmat := GETTER Gsite_xmat.
Definition mjaccess_get_actuator_length := GETTER Gactuator_length.
Definition mjaccess_get_actuator_velocity := GETTER Gactuator_velocity.
Definition mjaccess_get_actuator_force := GETTER Gactuator_force.
Definition mjaccess_get_mocap_pos := GETTER Gmocap_pos.
Definition mjaccess_get_mocap_quat := GETTER Gmocap_quat.
Definition mjaccess_get_ten_length := GETTER Gten_length.
Definition mjaccess_get_xfrc_applied := GETTER Gxfrc_applied.

(** Reading the array behind a pointer returned by a getter. *)
Definition read_array (p : positive * getter) : Run (list mjtNum) :=
  let* d := load_data (Some p.1) in ret (getter_field p.2 d).

(** ** The families of entry points of one shape *)

Definition run_bulk_setter (k : bulk_setter)
    : option positive -> option (list mjtNum) -> Z -> Run unit :=
  match k with
  | SetQpos => mjaccess_set_qpos
  | SetQvel => mjaccess_set_qvel
  | SetCtrl => mjaccess_set_ctrl
  | SetMocapPos => mjaccess_set_mocap_pos
  | SetMocapQuat => mjaccess_set_mocap_quat
  end.

Definition bulk_array (k : bulk_setter) (d : Data) : list mjtNum :=
  match k with
  | SetQpos => qpos d
  | SetQvel => qvel d
  | SetCtrl => ctrl d
  | SetMocapPos => mocap_pos (d_other d)
  | SetMocapQuat => mocap_quat (d_other d)
  end.

Definition bulk_update (k : bulk_setter) (v : list mjtNum) (d : Data) : Data :=
  match k with
  | SetQpos => set_qpos v d
  | SetQvel => set_qvel v d
  | SetCtrl => set_ctrl v d
  | SetMocapPos => set_mocap_pos v d
  | SetMocapQuat => set_mocap_quat v d
  end.

Definition run_entry_setter (k : entry_setter)
    : option positive -> Z -> mjtNum -> Run unit :=
  match k with
  | SetQposAt => mjaccess_set_qpos_at
  | SetQvelAt => mjaccess_set_qvel_at
  | SetCtrlAt => mjaccess_set_ctrl_at
  end.

Definition entry_array (k : entry_setter) (d : Data) : list mjtNum :=
  match k with
  | SetQposAt => qpos d
  | SetQvelAt => qvel d
  | SetCtrlAt => ctrl d
  end.

Definition entry_update (k : entry_setter) (v : list mjtNum) (d : Data) : Data :=
  match k with
  | SetQposAt => set_qpos v d
  | SetQvelAt => set_qvel v d
  | SetCtrlAt => set_ctrl v d
  end.

Definition entry_bound (k : entry_setter) (m : Model) : Z :=
  match k with
  | SetQposAt => nq m
  | SetQvelAt => nv m
  | SetCtrlAt => nu m
  end.

(** The getter of the array an entry setter writes. *)
Definition entry_getter (k : entry_setter) : getter :=
  match k with
  | SetQposAt => Gqpos
  | SetQvelAt => Gqvel
  | SetCtrlAt => Gctrl
  end.

Definition run_int_accessor (k : int_accessor)
    : option positive -> Z -> Run Z :=
  match k with
  | Ajnt_qposadr => mjaccess_model_jnt_qposadr
  | Ajnt_dofadr => mjaccess_model_jnt_dofadr
  | Ajnt_type => mjaccess_model_jnt_type
  | Ageom_type => mjaccess_model_geom_type
  | Asensor_adr => mjaccess_model_sensor_adr
  | Abody_mocapid => mjaccess_model_body_mocapid
  | Ahfield_adr => mjaccess_model_hfield_adr
  end.

Definition int_accessor_array (k : int_accessor) (m : Model) : list Z :=
  match k with
  | Ajnt_qposadr => jnt_qposadr (m_other m)
  | Ajnt_dofadr => jnt_dofadr (m_other m)
  | Ajnt_type => jnt_type (m_other m)
  | Ageom_type => geom_type (m_other m)
  | Asensor_adr => sensor_adr (m_other m)
  | Abody_mocapid => body_mocapid (m_other m)
  | Ahfield_adr => hfield_adr (m_other m)
  end.

Definition int_accessor_count (k : int_accessor) (m : Model) : Z :=
  match k with
  | Ajnt_qposadr | Ajnt_dofadr | Ajnt_type => njnt (m_other m)
  | Ageom_type => ngeom (m_other m)
  | Asensor_adr => nsensor (m_other m)
  | Abody_mocapid => nbody m
  | Ahfield_adr => nhfield (m_other m)
  end.

Definition run_num_accessor (k : num_accessor)
    : option positive -> Z -> Run mjtNum :=
  match k with
  | Abody_mass => mjaccess_model_body_mass
  | Atendon_width => mjaccess_model_tendon_width
  end.

Definition num_accessor_array (k : num_accessor) (m : Model) : list mjtNum :=
  match k with
  | Abody_mass => body_mass (m_other m)
  | Atendon_width => tendon_width (m_other m)
  end.

Definition num_accessor_count (k : num_accessor) (m : Model) : Z :=
  match k with
  | Abody_mass => nbody m
  | Atendon_width => ntendon (m_other m)
  end.

(** ** Well-formed environments *)

(** The mathematical value of the [size_expr] of a getter. *)
Definition getter_dim (g : getter) (m : Model) : Z :=
  match g with
  | Gqpos => nq m
  | Gqvel | Gqfrc_actuator => nv m
  | Gctrl | Gactuator_length | Gactuator_velocity | Gactuator_force => nu m
  | Gxpos | Gxipos | Gsubtree_com => nbody m * 3
  | Gxquat => nbody m * 4
  | Gcvel | Gcfrc_ext | Gxfrc_applied => nbody m * 6
  | Gcinert => nbody m * 10
  | Ggeom_xpos => ngeom (m_other m) * 3
  | Ggeom_xmat => ngeom (m_other m) * 9
  | Gsensordata => nsensordata (m_other m)
  | Gxaxis => njnt (m_other m) * 3
  | Gsite_xpos => nsite (m_other m) * 3
  | Gsite_xmat => nsite (m_other m) * 9
  | Gmocap_pos => nmocap (m_other m) * 3
  | Gmocap_quat => nmocap (m_other m) * 4
  | Gten_length => ntendon (m_other m)
  end%Z.

(** The counts of the model are non-negative, and every array length
    derived from them is an [int]. *)
Definition counts_ok (m : Model) : Prop :=
  (0 ≤ nq m ∧ 0 ≤ nv m ∧ 0 ≤ nu m ∧ 0 ≤ nbody m ∧
   0 ≤ njnt (m_other m) ∧ 0 ≤ ngeom (m_other m) ∧ 0 ≤ nsite (m_other m) ∧
   0 ≤ nmocap (m_other m) ∧ 0 ≤ ntendon (m_other m) ∧
   0 ≤ nsensor (m_other m) ∧ 0 ≤ nsensordata (m_other m) ∧
   0 ≤ nhfield (m_other m) ∧ 0 ≤ nhfielddata (m_other m) ≤ INT_MAX)%Z ∧
  ∀ g, (getter_dim g m ≤ INT_MAX)%Z.

(** The arrays of the model have the lengths its counts give. *)
Definition model_arrays_ok (m : Model) : Prop :=
  (∀ k, length (int_accessor_array k m) = Z.to_nat (int_accessor_count k m)) ∧
  (∀ k, length (num_accessor_array k m) = Z.to_nat (num_accessor_count k m)) ∧
  length (hfield_data (m_other m)) = Z.to_nat (nhfielddata (m_other m)).

(** The arrays of a state have the lengths the model gives them. *)
Definition arrays_ok (m : Model) (d : Data) : Prop :=
  ∀ g, length (getter_field g d) = Z.to_nat (getter_dim g m).

(** A model handle at [hm] for the model [m] at [pm]. *)
Definition model_at (w : world mjtNum mjModelRest mjDataRest)
    (hm pm : positive) (m : Model) : Prop :=
  heap w !! hm = Some (BAccessModel (MkAccessModel (Some pm))) ∧
  heap w !! pm = Some (BModel m).

(** A state handle at [hd] for the state [d] at [pd], made from the
    model [m] at [pm]. *)
Definition data_at (w : world mjtNum mjModelRest mjDataRest)
    (hd pd pm : positive) (m : Model) (d : Data) : Prop :=
  heap w !! hd = Some (BAccessData (MkAccessData (Some pd) (Some pm))) ∧
  heap w !! pd = Some (BData d) ∧
  heap w !! pm = Some (BModel m).

End Accessors.

Arguments mjModelRest : clear implicits.
Arguments mjDataRest : clear implicits.

(** ** A small engine to run the shim on concrete pools *)

Definition toy_model : mjModel unit := MkModel 2 2 1 1 100 tt.

Definition toy_default (m : mjModel unit) : mjData Z unit :=
  MkData (replicate (Z.to_nat (nq m)) 0%Z) (replicate (Z.to_nat (nv m)) 0%Z)
         (replicate (Z.to_nat (nu m)) 0%Z)
         (replicate (Z.to_nat (nbody m * 3)) 0%Z)
         (replicate (Z.to_nat (nbody m * 3)) 0%Z)
         (replicate (Z.to_nat (nbody m * 10)) 0%Z)
         (replicate (Z.to_nat (nbody m * 6)) 0%Z)
         (replicate (Z.to_nat (nv m)) 0%Z)
         (replicate (Z.to_nat (nbody m * 6)) 0%Z) tt.

Definition toy_step (m : mjModel unit) (d : mjData Z unit) : mjData Z unit :=
  set_qpos (map (λ x, x + foldr Z.add 0 (ctrl d))%Z (qpos d)) d.

Definition toy_reset (m : mjModel unit) (d : mjData Z unit) : mjData Z unit :=
  toy_default m.

Definition toy_memory : gmap positive (block Z unit unit) :=
  <[2%positive:=BAccessModel (MkAccessModel (Some 1%positive))]>
    (<[1%positive:=BModel toy_model]> ∅).

Definition toy_memory' : gmap positive (block Z unit unit) :=
  <[2%positive:=BAccessModel (MkAccessModel (Some 1%positive))]>
    (<[1%positive:=BModel (set_opt_iterations 7 toy_model)]> ∅).

Definition world_of {A} (r : result Z unit unit A) (w0 : world Z unit unit)
    : world Z unit unit :=
  match r with
  | Ok _ w => w
  | Fault => w0
  end.

Definition toy_start (sc : list bool) : world Z unit unit := MkWorld toy_memory sc.

Definition toy_pool : world Z unit unit :=
  world_of (mjaccess_batched_create toy_default (Some 2%positive)
              (Some (MkConfig 3 7)) (toy_start (replicate 13 true)))
           (toy_start []).

Definition toy_model' : mjModel unit := set_opt_iterations 7 toy_model.

Definition toy_sim : MjAccessBatchedSim :=
  MkSim (Some 1%positive) 3 (Some 4%positive)
        (Some 8%positive) (Some 9%positive) (Some 10%positive)
        (Some 11%positive) (Some 12%positive) (Some 13%positive)
        (Some 14%positive) (Some 15%positive).

Definition toy_slots : list positive := [5; 6; 7]%positive.

Definition toy_stepped : world Z unit unit :=
  world_of (mjaccess_batched_step toy_step (Some 3%positive) (Some [1; 2; 3]%Z) toy_pool)
           toy_pool.

Definition toy_state (x : Z) : mjData Z unit :=
  set_ctrl [x] (set_qpos [x; x] (toy_default toy_model')).

(** The engine refuses the second of three slots. *)
Definition toy_refusing : world Z unit unit :=
  toy_start [true; true; true; false; true].

(** A pool of four environments on a model with [nq = 2] and [nu = 1],
    stepped once with the controls [1, -1, 0, 0]; the result is the
    gathered position buffer and the reported length. *)
Definition toy_scenario : option (list (option Z) * option Z) :=
  match mjaccess_batched_create toy_default (Some 2%positive)
          (Some (MkConfig 4 0)) (toy_start (replicate 14 true)) with
  | Ok (Some sp) w1 =>
    match mjaccess_batched_step toy_step (Some sp) (Some [1; -1; 0; 0]%Z) w1 with
    | Ok _ w2 =>
      match mjaccess_batched_get_qpos (Some sp) (Some 0%Z) w2 with
      | Ok (Some b, n) w3 =>
        match heap w3 !! b with
        | Some (BBuf cells) => Some (cells, n)
        | _ => None
        end
      | _ => None
      end
    | Fault => None
    end
  | _ => None
  end.

(** ** A small environment for the single-environment interface

    One body, one joint, one geom, one tendon, one sensor with two
    readings, one mocap body and a height field of four samples. *)

Definition acc_rest : mjModelRest Z Z :=
  MkModelRest 1 1 0 1 1 1 2 1 4 5%Z [10%Z] [0%Z] [0%Z] [0%Z] [3%Z] [2%Z]
              [0%Z] [1%Z] [0%Z] [0; 0; 0; 0]%Z.

Definition acc_model : mjModel (mjModelRest Z Z) := MkModel 2 2 1 1 100 acc_rest.

Definition acc_state (x : Z) : mjData Z (mjDataRest Z) :=
  MkData [x; x] [x; x] [x] [x; x; x] [x; x; x]
         (replicate 10 x) (replicate 6 x) [x; x] (replicate 6 x)
         (MkDataRest (replicate 4 x) (replicate 3 x) (replicate 3 x)
            (replicate 9 x) [x; x] (replicate 3 x) [] [] [x] [x] [x]
            (replicate 3 x) (replicate 4 x) [x] (replicate 6 x)).

Definition acc_default (m : mjModel (mjModelRest Z Z)) : mjData Z (mjDataRest Z) :=
  acc_state 0.

(** The model at 1 with its handle at 2, a state at 3 with its handle
    at 4. *)
Definition acc_world : world Z (mjModelRest Z Z) (mjDataRest Z) :=
  MkWorld (<[4%positive:=BAccessData (MkAccessData (Some 3%positive) (Some 1%positive))]>
          (<[3%positive:=BData (acc_state 1)]>
          (<[2%positive:=BAccessModel (MkAccessModel (Some 1%positive))]>
          (<[1%positive:=BModel acc_model]> ∅)))) [].

(** The model and its handle alone, with two allocations to be served. *)
Definition acc_start (sc : list bool) : world Z (mjModelRest Z Z) (mjDataRest Z) :=
  MkWorld (<[2%positive:=BAccessModel (MkAccessModel (Some 1%positive))]>
          (<[1%positive:=BModel acc_model]> ∅)) sc.

(** * Properties *)

(** ** Arithmetic and arrays *)

Lemma int_wrap_small z : (- 2 ^ 31 ≤ z ≤ INT_MAX)%Z → int_wrap z = z.
Proof.
  unfold int_wrap, INT_MAX. intros H.
  rewrite Z.mod_small by lia. lia.
Qed.

Lemma int_mul_small a b : (- 2 ^ 31 ≤ a * b ≤ INT_MAX)%Z → int_mul a b = (a * b)%Z.
Proof. apply int_wrap_small. Qed.

Lemma size_t_of_small z : (0 ≤ z < 2 ^ 64)%Z → size_t_of z = z.
Proof. intros H. unfold size_t_of. by rewrite Z.mod_small. Qed.

Lemma double_count_small n : (0 ≤ n ≤ INT_MAX)%Z → double_count n = Z.to_nat n.
Proof.
  unfold double_count, size_mul, size_t_of, sizeof_double, INT_MAX. intros H.
  rewrite (Z.mod_small n) by lia.
  rewrite Z.mod_small by lia.
  by rewrite Z.div_mul by lia.
Qed.

Lemma memcpy_whole {A} (dst src : list A) soff n :
  length dst = n → soff + n ≤ length src →
  memcpy dst 0 src soff n = Some (take n (drop soff src)).
Proof.
  intros Hd Hs. unfold memcpy.
  rewrite bool_decide_eq_true_2 by lia.
  rewrite take_0, (drop_ge dst) by lia. simpl. by rewrite app_nil_r.
Qed.

Lemma memcpy_prefix {A} (dst src : list A) n :
  n ≤ length src → n ≤ length dst →
  memcpy dst 0 src 0 n = Some (take n src ++ drop n dst).
Proof.
  intros Hs Hd. unfold memcpy.
  rewrite bool_decide_eq_true_2 by lia. by rewrite take_0, drop_0.
Qed.

Lemma memcpy_overrun {A} (dst src : list A) doff soff n :
  length dst < doff + n → memcpy dst doff src soff n = None.
Proof.
  intros H. unfold memcpy. rewrite bool_decide_eq_false_2; [done | lia].
Qed.

Lemma memcpy_length {A} (dst src : list A) doff soff n r :
  memcpy dst doff src soff n = Some r → length r = length dst.
Proof.
  unfold memcpy. case_bool_decide as H; [|done]. intros [= <-].
  rewrite !length_app, !length_take, length_drop, length_drop. lia.
Qed.

Lemma seq_split_inv n pre i post :
  seq 0 n = pre ++ i :: post → i = length pre ∧ length pre < n.
Proof.
  intros H. assert (seq 0 n !! length pre = Some i) as Hi.
  { rewrite H. by apply list_lookup_middle. }
  apply lookup_seq in Hi. lia.
Qed.

Lemma concat_length_uniform {A} n (l : list (list A)) :
  Forall (λ x, length x = n) l → length (concat l) = length l * n.
Proof. induction 1; simpl; [done|]. rewrite length_app. lia. Qed.

Lemma env_slice_concat {A} n (l : list (list A)) i x :
  Forall (λ x, length x = n) l → l !! i = Some x →
  env_slice n i (concat l) = x.
Proof.
  intros Hl. revert i. induction Hl as [|y l Hy Hl IH]; intros i Hi; [done|].
  unfold env_slice. destruct i as [|i]; simpl in *.
  - injection Hi as ->. by rewrite drop_0, take_app_length'.
  - rewrite drop_app_add' by done. by apply IH.
Qed.

Lemma env_slice_fmap {A B} (g : A → B) n i (l : list A) :
  env_slice n i (g <$> l) = g <$> env_slice n i l.
Proof. unfold env_slice. by rewrite fmap_take, fmap_drop. Qed.

Section ShimTheory.
#[local] Set Default Proof Using "Type".
Context {mjtNum mjModelExtra mjDataExtra : Type}.
Local Abbreviation Model := (mjModel mjModelExtra).
Local Abbreviation Data := (mjData mjtNum mjDataExtra).
Local Abbreviation World := (world mjtNum mjModelExtra mjDataExtra).
Local Abbreviation Block := (block mjtNum mjModelExtra mjDataExtra).
Variable createDefaultState : Model -> Data.
Variable advanceOneStep : Model -> Data -> Data.
Variable resetToDefault : Model -> Data -> Data.

Implicit Types (w : World) (m : Model) (d : Data) (a : positive).

Lemma run_bind {A B} (c : M mjtNum mjModelExtra mjDataExtra A) (k : A → M mjtNum mjModelExtra mjDataExtra B) w x w' :
  c w = Ok x w' → bind c k w = k x w'.
Proof. intros H. unfold bind. by rewrite H. Qed.

Lemma run_ret {A B} (x : A) (k : A → M mjtNum mjModelExtra mjDataExtra B) w :
  bind (ret x) k w = k x w.
Proof. done. Qed.

Lemma run_bind_fault {A B} (c : M mjtNum mjModelExtra mjDataExtra A) (k : A → M mjtNum mjModelExtra mjDataExtra B) w :
  c w = Fault → bind c k w = Fault.
Proof. intros H. unfold bind. by rewrite H. Qed.

Lemma load_sim_ok w a s : heap w !! a = Some (BSim s) → load_sim (Some a) w = Ok s w.
Proof. intros H. unfold load_sim, bind, load. by rewrite H. Qed.

Lemma load_model_ok w a m : heap w !! a = Some (BModel m) → load_model (Some a) w = Ok m w.
Proof. intros H. unfold load_model, bind, load. by rewrite H. Qed.

Lemma load_data_ok w a d : heap w !! a = Some (BData d) → load_data (Some a) w = Ok d w.
Proof. intros H. unfold load_data, bind, load. by rewrite H. Qed.

Lemma load_ptrs_ok w a l : heap w !! a = Some (BPtrs l) → load_ptrs (Some a) w = Ok l w.
Proof. intros H. unfold load_ptrs, bind, load. by rewrite H. Qed.

Lemma load_buf_ok w a l : heap w !! a = Some (BBuf l) → load_buf (Some a) w = Ok l w.
Proof. intros H. unfold load_buf, bind, load. by rewrite H. Qed.

Lemma store_ok w a (b b0 : Block) :
  heap w !! a = Some b0 → store (Some a) b w = Ok tt (MkWorld (<[a:=b]> (heap w)) (script w)).
Proof. intros H. unfold store. by rewrite H. Qed.

Lemma datas_at_ok w sp s ma m slots ds i a :
  pool_at w sp s ma m slots ds → slots !! i = Some a →
  datas_at (Some sp) i w = Ok (Some a) w.
Proof.
  intros [Hs _ _ (da & Hda & Hp) _ _ _ _] Hi. unfold datas_at.
  rewrite (run_bind _ _ _ _ _ (load_sim_ok _ _ _ Hs)), Hda.
  rewrite (run_bind _ _ _ _ _ (load_ptrs_ok _ _ _ Hp)).
  by rewrite list_lookup_fmap, Hi.
Qed.

Lemma for_each_invariant {X} (I : list X → World → Prop) body l w :
  I [] w →
  (∀ pre i post w1, l = pre ++ i :: post → I pre w1 →
     ∃ w2, body i w1 = Ok tt w2 ∧ I (pre ++ [i]) w2) →
  ∃ w', for_each l body w = Ok tt w' ∧ I l w'.
Proof.
  revert I w. induction l as [|i l IH]; intros I w H0 Hstep.
  - by exists w.
  - destruct (Hstep [] i l w eq_refl H0) as (w2 & Hb & H2).
    destruct (IH (λ p, I (i :: p)) w2 H2) as (w' & Hl & H').
    + intros pre j post w1 -> H1.
      apply (Hstep (i :: pre) j post w1); [done | done].
    + exists w'. split; [|done]. simpl. by rewrite (run_bind _ _ _ _ _ Hb).
Qed.

Lemma pool_at_slot w sp s ma m slots ds i a :
  pool_at w sp s ma m slots ds → slots !! i = Some a →
  ∃ d, ds !! i = Some d ∧ heap w !! a = Some (BData d).
Proof.
  intros Hp Hi. destruct (Forall2_lookup_l _ _ _ _ _ (pool_slots _ _ _ _ _ _ _ Hp) Hi) as (d & ? & ?).
  eauto.
Qed.

Lemma pool_at_length w sp s ma m slots ds :
  pool_at w sp s ma m slots ds → length ds = length slots.
Proof. intros Hp. symmetry. eapply Forall2_length, pool_slots, Hp. Qed.

(** Overwriting the state of slot [i] keeps the pool in shape. *)
Lemma pool_at_update w sp s ma m slots ds i a d' :
  pool_at w sp s ma m slots ds → slots !! i = Some a →
  pool_at (MkWorld (<[a:=BData d']> (heap w)) (script w)) sp s ma m slots (<[i:=d']> ds).
Proof.
  intros Hp Hi. destruct (pool_at_slot _ _ _ _ _ _ _ _ _ Hp Hi) as (d & Hd & Ha).
  destruct Hp as [Hs Hr Hm (da & Hda & Hpt) Hn Hint Hnd Hsl].
  split; simpl; try done.
  - rewrite lookup_insert_ne; [done | congruence].
  - rewrite lookup_insert_ne; [done | congruence].
  - exists da. split; [done|]. rewrite lookup_insert_ne; [done | congruence].
  - apply Forall2_same_length_lookup. split.
    + rewrite length_insert. by eapply Forall2_length.
    + intros j x y Hx Hy. destruct (decide (j = i)) as [->|Hne].
      * rewrite Hi in Hx. injection Hx as <-.
        rewrite list_lookup_insert_eq in Hy
          by (rewrite <- (Forall2_length _ _ _ Hsl); by eapply lookup_lt_Some).
        injection Hy as <-. by rewrite lookup_insert_eq.
      * rewrite list_lookup_insert_ne in Hy by done.
        rewrite lookup_insert_ne.
        -- exact (Forall2_lookup_lr _ _ _ _ _ _ Hsl Hx Hy).
        -- intros <-. apply Hne. by eapply NoDup_lookup.
Qed.

Lemma same_outside_refl touched w : same_outside touched w w.
Proof. by split. Qed.

Lemma same_outside_trans touched w1 w2 w3 :
  same_outside touched w1 w2 → same_outside touched w2 w3 →
  same_outside touched w1 w3.
Proof.
  intros [Hs1 Hh1] [Hs2 Hh2]. split; [congruence|].
  intros a Ha. rewrite Hh2, Hh1; done.
Qed.

Lemma same_outside_insert touched w a (b : Block) :
  a ∈ touched →
  same_outside touched w (MkWorld (<[a:=b]> (heap w)) (script w)).
Proof.
  intros Ha. split; [done|]. intros a' Ha'. simpl.
  rewrite lookup_insert_ne; [done | set_solver].
Qed.

(** Two worlds that hold the same pool states and agree with a common
    world elsewhere are equal. *)
Lemma pool_worlds_eq w w1 w2 sp s ma m slots ds :
  pool_at w1 sp s ma m slots ds → pool_at w2 sp s ma m slots ds →
  same_outside slots w w1 → same_outside slots w w2 → w1 = w2.
Proof.
  intros H1 H2 [Hs1 Hf1] [Hs2 Hf2].
  destruct w1 as [h1 s1], w2 as [h2 s2]. simpl in *. f_equal; [|congruence].
  apply map_eq. intros a. destruct (decide (a ∈ slots)) as [Hin|Hout].
  - apply list_elem_of_lookup in Hin as [i Hi].
    destruct (pool_at_slot _ _ _ _ _ _ _ _ _ H1 Hi) as (d1 & Hd1 & Ha1).
    destruct (pool_at_slot _ _ _ _ _ _ _ _ _ H2 Hi) as (d2 & Hd2 & Ha2).
    simpl in *. congruence.
  - rewrite Hf1, Hf2; done.
Qed.

(** *** The batched step *)

Lemma step_task_ok w sp s ma m slots ds cb i a d :
  pool_at w sp s ma m slots ds → model_ok m →
  slots !! i = Some a → ds !! i = Some d → data_ok m d →
  (i + 1) * Z.to_nat (nu m) ≤ length cb →
  step_task advanceOneStep (Some sp) (Some ma) (nu m) cb i w
  = Ok tt (MkWorld (<[a:=BData (advanceOneStep m
                                 (set_ctrl (env_slice (Z.to_nat (nu m)) i cb) d))]>
                      (heap w)) (script w)).
Proof.
  intros Hp (_ & _ & Hnu & _) Hi Hd [Hc _] Hlen.
  destruct (pool_at_slot _ _ _ _ _ _ _ _ _ Hp Hi) as (d0 & Hd0 & Ha).
  assert (d0 = d) as -> by congruence.
  assert (i < length slots) as Hlt by (by eapply lookup_lt_Some).
  pose proof (pool_num_envs_int _ _ _ _ _ _ _ Hp) as Hint.
  unfold step_task.
  rewrite (run_bind _ _ _ _ _ (datas_at_ok _ _ _ _ _ _ _ _ _ Hp Hi)).
  rewrite (run_bind _ _ _ _ _ (load_data_ok _ _ _ Ha)).
  assert (Z.to_nat (size_mul (Z.of_nat i) (size_t_of (nu m))) = i * Z.to_nat (nu m)) as ->.
  { unfold INT_MAX in *. rewrite size_t_of_small by lia. unfold size_mul.
    rewrite Z.mod_small by nia. lia. }
  rewrite double_count_small by lia.
  rewrite memcpy_whole by lia. simpl. rewrite run_ret.
  rewrite (run_bind _ _ _ _ _ (store_ok _ _ _ _ Ha)).
  unfold mj_step.
  erewrite run_bind; cycle 1.
  { apply load_model_ok. simpl. rewrite lookup_insert_ne; [apply Hp | ].
    pose proof (pool_model _ _ _ _ _ _ _ Hp). congruence. }
  erewrite run_bind; cycle 1.
  { apply load_data_ok. simpl. apply lookup_insert_eq. }
  erewrite store_ok by (simpl; apply lookup_insert_eq). simpl.
  by rewrite insert_insert_eq.
Qed.

Lemma updated_on_nil (g : nat → Data → Data) ds : updated_on g [] ds = ds.
Proof.
  unfold updated_on. apply list_eq. intros i.
  rewrite list_lookup_imap. destruct (ds !! i); [|done].
  cbn [fmap option_fmap option_map]. rewrite decide_False; [done|].
  apply not_elem_of_nil.
Qed.

Lemma updated_on_lookup_out (g : nat → Data → Data) done ds i :
  i ∉ done → updated_on g done ds !! i = ds !! i.
Proof.
  intros Hi. unfold updated_on. rewrite list_lookup_imap.
  destruct (ds !! i); simpl; [|done]. by rewrite decide_False.
Qed.

Lemma updated_on_snoc (g : nat → Data → Data) done ds i d :
  ds !! i = Some d →
  <[i:=g i d]> (updated_on g done ds) = updated_on g (done ++ [i]) ds.
Proof.
  intros Hd. apply list_eq. intros j. unfold updated_on.
  destruct (decide (j = i)) as [->|Hne].
  - rewrite list_lookup_insert_eq
      by (rewrite length_imap; by eapply lookup_lt_Some).
    rewrite list_lookup_imap, Hd. simpl.
    rewrite decide_True; [done|]. apply elem_of_app. right. apply list_elem_of_singleton. done.
  - rewrite list_lookup_insert_ne by done.
    rewrite !list_lookup_imap. destruct (ds !! j); simpl; [|done].
    destruct (decide (j ∈ done)) as [Hin|Hout].
    + rewrite decide_True; [done|]. apply elem_of_app. by left.
    + rewrite decide_False; [done|].
      intros [?|?%list_elem_of_singleton]%elem_of_app; done.
Qed.

Lemma updated_on_all (g : nat → Data → Data) done ds :
  (∀ i, i < length ds → i ∈ done) → updated_on g done ds = imap g ds.
Proof.
  intros Hall. apply list_eq. intros i. unfold updated_on.
  rewrite !list_lookup_imap. destruct (ds !! i) eqn:Hi; simpl; [|done].
  rewrite decide_True; [done|]. apply Hall. by eapply lookup_lt_Some.
Qed.

Lemma world_insert_id w a (b : Block) :
  heap w !! a = Some b → MkWorld (<[a:=b]> (heap w)) (script w) = w.
Proof. intros H. destruct w as [h sc]. simpl in *. by rewrite insert_id. Qed.

(** A loop whose body rewrites the state of the slot it is run for. *)
Lemma slot_loop (g : nat → Data → Data) body w sp s ma m slots ds l :
  pool_at w sp s ma m slots ds →
  NoDup l → (∀ i, i ∈ l → i < length slots) →
  (∀ w1 ds1 i a d,
     pool_at w1 sp s ma m slots ds1 → slots !! i = Some a →
     ds1 !! i = Some d → ds !! i = Some d →
     body i w1 = Ok tt (MkWorld (<[a:=BData (g i d)]> (heap w1)) (script w1))) →
  ∃ w', for_each l body w = Ok tt w' ∧
        pool_at w' sp s ma m slots (updated_on g l ds) ∧
        same_outside slots w w'.
Proof.
  intros Hp Hnd Hrange Hbody.
  apply (for_each_invariant
           (λ pre w', pool_at w' sp s ma m slots (updated_on g pre ds) ∧
                      same_outside slots w w')).
  - rewrite updated_on_nil. split; [done | apply same_outside_refl].
  - intros pre i post w1 -> [Hp1 Hf1].
    apply NoDup_app in Hnd as (_ & Hdisj & _).
    assert (i ∉ pre) as Hnot.
    { intros Hin. apply (Hdisj i Hin). by left. }
    assert (i < length slots) as Hlt.
    { apply Hrange, elem_of_app. right. by left. }
    destruct (lookup_lt_is_Some_2 slots i Hlt) as [a Hi].
    destruct (pool_at_slot _ _ _ _ _ _ _ _ _ Hp Hi) as (d & Hd & _).
    assert (updated_on g pre ds !! i = Some d) as Hd1
      by (by rewrite updated_on_lookup_out).
    eexists. split; [by eapply Hbody|]. split.
    + rewrite <- (updated_on_snoc _ _ _ _ _ Hd). by apply pool_at_update.
    + eapply same_outside_trans; [done|].
      apply same_outside_insert. by eapply list_elem_of_lookup_2.
Qed.

Lemma batched_step_with_ok sched w sp s ma m slots ds cb :
  (∀ n, Permutation (sched n) (seq 0 n)) →
  pool_at w sp s ma m slots ds → dims_ok m ds →
  length cb = length slots * Z.to_nat (nu m) →
  ∃ w', mjaccess_batched_step_with advanceOneStep sched (Some sp) (Some cb) w
        = Ok tt w' ∧
        pool_at w' sp s ma m slots (imap (step_env advanceOneStep m cb) ds) ∧
        same_outside slots w w'.
Proof.
  intros Hsched Hp Hdims Hlen.
  pose proof (pool_num_envs_int _ _ _ _ _ _ _ Hp) as Hint.
  unfold mjaccess_batched_step_with.
  rewrite (run_bind _ _ _ _ _ (load_sim_ok _ _ _ (pool_sim _ _ _ _ _ _ _ Hp))).
  rewrite (pool_model_ref _ _ _ _ _ _ _ Hp).
  rewrite (run_bind _ _ _ _ _ (load_model_ok _ _ _ (pool_model _ _ _ _ _ _ _ Hp))).
  rewrite (pool_num_envs _ _ _ _ _ _ _ Hp).
  rewrite size_t_of_small by (unfold INT_MAX in *; lia).
  rewrite Nat2Z.id. unfold dispatch_apply.
  destruct Hdims as [Hm Hds].
  destruct (slot_loop (step_env advanceOneStep m cb)
              (step_task advanceOneStep (Some sp) (Some ma) (nu m) cb)
              w sp s ma m slots ds (sched (length slots)))
    as (w' & Hrun & Hp' & Hf); try done.
  - rewrite (Hsched (length slots)). apply NoDup_seq.
  - intros i. rewrite (Hsched (length slots)), elem_of_seq. lia.
  - intros w1 ds1 i a d Hp1 Hi Hd1 Hd.
    assert (i < length slots) by (by eapply lookup_lt_Some).
    unfold step_env. eapply step_task_ok; eauto.
    + eapply Forall_lookup_1; eauto.
    + nia.
  - exists w'. split; [done|]. split; [|done].
    rewrite <- (updated_on_all _ (sched (length slots))); [done|].
    intros i Hi. rewrite (Hsched (length slots)), elem_of_seq.
    rewrite (pool_at_length _ _ _ _ _ _ _ Hp) in Hi. lia.
Qed.

Lemma load_access_model_ok w a h :
  heap w !! a = Some (BAccessModel h) → load_access_model (Some a) w = Ok h w.
Proof. intros H. unfold load_access_model, bind, load. by rewrite H. Qed.

Lemma load_access_data_ok w a h :
  heap w !! a = Some (BAccessData h) → load_access_data (Some a) w = Ok h w.
Proof. intros H. unfold load_access_data, bind, load. by rewrite H. Qed.

Lemma mj_step_ok w pm pd m d :
  heap w !! pm = Some (BModel m) → heap w !! pd = Some (BData d) →
  mj_step advanceOneStep (Some pm) (Some pd) w
  = Ok tt (MkWorld (<[pd:=BData (advanceOneStep m d)]> (heap w)) (script w)).
Proof.
  intros Hm Hd. unfold mj_step.
  rewrite (run_bind _ _ _ _ _ (load_model_ok _ _ _ Hm)).
  rewrite (run_bind _ _ _ _ _ (load_data_ok _ _ _ Hd)).
  by apply store_ok with (b0 := BData d).
Qed.

Lemma mjaccess_step_ok w hm hd pm pd r m d :
  heap w !! hm = Some (BAccessModel (MkAccessModel (Some pm))) →
  heap w !! hd = Some (BAccessData (MkAccessData (Some pd) r)) →
  heap w !! pm = Some (BModel m) → heap w !! pd = Some (BData d) →
  mjaccess_step advanceOneStep (Some hm) (Some hd) w
  = Ok tt (MkWorld (<[pd:=BData (advanceOneStep m d)]> (heap w)) (script w)).
Proof.
  intros Hhm Hhd Hm Hd. unfold mjaccess_step.
  rewrite (run_bind _ _ _ _ _ (load_access_model_ok _ _ _ Hhm)). simpl.
  rewrite (run_bind _ _ _ _ _ (load_access_data_ok _ _ _ Hhd)). simpl.
  by apply mj_step_ok.
Qed.

Lemma mjaccess_set_ctrl_ok w hd pd r d u n c :
  heap w !! hd = Some (BAccessData (MkAccessData (Some pd) r)) →
  heap w !! pd = Some (BData d) →
  (0 < n ≤ INT_MAX)%Z →
  memcpy (ctrl d) 0 u 0 (Z.to_nat n) = Some c →
  mjaccess_set_ctrl (Some hd) (Some u) n w
  = Ok tt (MkWorld (<[pd:=BData (set_ctrl c d)]> (heap w)) (script w)).
Proof.
  intros Hhd Hd Hn Hc. unfold mjaccess_set_ctrl.
  rewrite (run_bind _ _ _ _ _ (load_access_data_ok _ _ _ Hhd)). simpl.
  destruct (Z.leb_spec n 0) as [?|_]; [lia|].
  rewrite (run_bind _ _ _ _ _ (load_data_ok _ _ _ Hd)).
  rewrite double_count_small by lia. rewrite Hc. simpl. rewrite run_ret.
  by apply store_ok with (b0 := BData d).
Qed.

Lemma set_ctrl_same d : set_ctrl (ctrl d) d = d.
Proof. by destruct d. Qed.

Lemma set_ctrl_twice u v d : set_ctrl (mjDataExtra:=mjDataExtra) u (set_ctrl v d) = set_ctrl u d.
Proof. done. Qed.

(** One environment on its own, given its slice of the controls: the
    controls are replaced and the engine advances the state once. *)
Lemma single_env_step_ok m d u :
  model_ok m → data_ok m d → length u = Z.to_nat (nu m) →
  single_env_step advanceOneStep m d u = Some (advanceOneStep m (set_ctrl u d)).
Proof.
  intros (_ & _ & Hnu & _) [Hc _] Hu. unfold single_env_step.
  destruct (decide (nu m = 0%Z)) as [H0|Hpos].
  - assert (u = ctrl d) as ->.
    { rewrite H0 in *. destruct u, (ctrl d); done. }
    rewrite set_ctrl_same.
    unfold mjaccess_set_ctrl.
    erewrite run_bind; cycle 1.
    { erewrite run_bind by (by apply load_access_data_ok). simpl.
      rewrite H0. reflexivity. }
    erewrite mjaccess_step_ok; [|done..]. simpl.
    by rewrite lookup_insert_eq.
  - erewrite run_bind; cycle 1.
    { eapply mjaccess_set_ctrl_ok; [done | done | lia |].
      rewrite memcpy_whole by lia. rewrite drop_0, take_ge by lia. done. }
    erewrite mjaccess_step_ok; cycle 1.
    + simpl. rewrite lookup_insert_ne by done. reflexivity.
    + simpl. rewrite lookup_insert_ne by done. reflexivity.
    + simpl. rewrite lookup_insert_ne by done. reflexivity.
    + simpl. apply lookup_insert_eq.
    + simpl. by rewrite lookup_insert_eq.
Qed.

(** C1: on a pool of N environments and a control buffer of N * nu
    entries, the batched step succeeds; it leaves in slot i the state
    the engine reaches in one step from slot i's earlier state with the
    controls replaced by entries [i*nu, i*nu+nu) of the buffer, which is
    what the single-environment interface computes for that state and
    that slice on its own; nothing but the slots changes; and the outcome
    is the same whatever order the scheduler runs the environments in. *)
Theorem batched_step_is_independent_steps w sp s ma m slots ds cb :
  pool_at w sp s ma m slots ds → dims_ok m ds →
  length cb = length slots * Z.to_nat (nu m) →
  ∃ w', mjaccess_batched_step advanceOneStep (Some sp) (Some cb) w = Ok tt w' ∧
    (∀ i a d, slots !! i = Some a → ds !! i = Some d →
       let u := env_slice (Z.to_nat (nu m)) i cb in
       heap w' !! a = Some (BData (advanceOneStep m (set_ctrl u d))) ∧
       single_env_step advanceOneStep m d u
       = Some (advanceOneStep m (set_ctrl u d))) ∧
    same_outside slots w w' ∧
    (∀ sched, (∀ n, Permutation (sched n) (seq 0 n)) →
       mjaccess_batched_step_with advanceOneStep sched (Some sp) (Some cb) w
       = Ok tt w').
Proof.
  intros Hp Hdims Hlen.
  destruct (batched_step_with_ok (seq 0) w sp s ma m slots ds cb)
    as (w' & Hrun & Hp' & Hf); try done.
  exists w'. split; [done|]. split; [|split; [done|]].
  - intros i a d Hi Hd u. split.
    + destruct (pool_at_slot _ _ _ _ _ _ _ _ _ Hp' Hi) as (d' & Hd' & Ha).
      rewrite list_lookup_imap, Hd in Hd'. simpl in Hd'. by injection Hd' as <-.
    + destruct Hdims as [Hm Hds]. apply single_env_step_ok; [done | |].
      * eapply Forall_lookup_1; eauto.
      * unfold u, env_slice. rewrite length_take, length_drop.
        assert (i < length slots) by (by eapply lookup_lt_Some). nia.
  - intros sched Hsched.
    destruct (batched_step_with_ok sched w sp s ma m slots ds cb)
      as (w2 & Hrun2 & Hp2 & Hf2); try done.
    rewrite Hrun2. f_equal. by eapply pool_worlds_eq.
Qed.

(** *** The masked reset *)

Lemma mj_resetData_ok w pm pd m d :
  heap w !! pm = Some (BModel m) → heap w !! pd = Some (BData d) →
  mj_resetData resetToDefault (Some pm) (Some pd) w
  = Ok tt (MkWorld (<[pd:=BData (resetToDefault m d)]> (heap w)) (script w)).
Proof.
  intros Hm Hd. unfold mj_resetData.
  rewrite (run_bind _ _ _ _ _ (load_model_ok _ _ _ Hm)).
  rewrite (run_bind _ _ _ _ _ (load_data_ok _ _ _ Hd)).
  by apply store_ok with (b0 := BData d).
Qed.

Lemma batched_reset_ok w sp s ma m slots ds mask :
  pool_at w sp s ma m slots ds → length mask = length slots →
  ∃ w', mjaccess_batched_reset resetToDefault (Some sp) (Some mask) w = Ok tt w' ∧
        pool_at w' sp s ma m slots (imap (reset_env resetToDefault m mask) ds) ∧
        same_outside slots w w'.
Proof.
  intros Hp Hlen. unfold mjaccess_batched_reset.
  rewrite (run_bind _ _ _ _ _ (load_sim_ok _ _ _ (pool_sim _ _ _ _ _ _ _ Hp))).
  rewrite (pool_model_ref _ _ _ _ _ _ _ Hp), (pool_num_envs _ _ _ _ _ _ _ Hp).
  rewrite Nat2Z.id.
  destruct (slot_loop (reset_env resetToDefault m mask)
              (λ i, bind (lift (mask !! i)) (λ b,
                 if (b =? 0)%Z then ret tt
                 else bind (datas_at (Some sp) i) (λ p,
                        mj_resetData resetToDefault (Some ma) p)))
              w sp s ma m slots ds (seq 0 (length slots)))
    as (w' & Hrun & Hp' & Hf); try done.
  - apply NoDup_seq.
  - intros i. rewrite elem_of_seq. lia.
  - intros w1 ds1 i a d Hp1 Hi Hd1 Hd.
    assert (i < length mask) as Hlt
      by (rewrite Hlen; by eapply lookup_lt_Some).
    destruct (lookup_lt_is_Some_2 mask i Hlt) as [b Hb].
    destruct (pool_at_slot _ _ _ _ _ _ _ _ _ Hp1 Hi) as (d1 & Hd1' & Ha).
    assert (d1 = d) as -> by congruence.
    unfold reset_env. rewrite Hb. simpl. rewrite run_ret.
    destruct (b =? 0)%Z.
    + unfold ret. f_equal. symmetry. by apply world_insert_id.
    + rewrite (run_bind _ _ _ _ _ (datas_at_ok _ _ _ _ _ _ _ _ _ Hp1 Hi)).
      apply mj_resetData_ok; [apply Hp1 | done].
  - exists w'. split; [done|]. split; [|done].
    rewrite <- (updated_on_all _ (seq 0 (length slots))); [done|].
    intros i Hi. rewrite elem_of_seq.
    rewrite (pool_at_length _ _ _ _ _ _ _ Hp) in Hi. lia.
Qed.

(** C5: on a pool of N environments and a mask of N entries, the masked
    reset succeeds; slot i ends up holding the engine's reset of its
    earlier state when mask[i] is non-zero and its earlier state,
    untouched, when mask[i] is zero; no other block of memory changes;
    and with an all-zero mask the whole memory is left as it was. *)
Theorem batched_reset_masked w sp s ma m slots ds mask :
  pool_at w sp s ma m slots ds → length mask = length slots →
  ∃ w', mjaccess_batched_reset resetToDefault (Some sp) (Some mask) w = Ok tt w' ∧
    (∀ i a d b, slots !! i = Some a → ds !! i = Some d → mask !! i = Some b →
       heap w' !! a = Some (BData (if (b =? 0)%Z then d else resetToDefault m d)) ∧
       (b = 0%Z → heap w' !! a = heap w !! a)) ∧
    same_outside slots w w' ∧
    (Forall (λ b, b = 0%Z) mask → w' = w).
Proof.
  intros Hp Hlen.
  destruct (batched_reset_ok w sp s ma m slots ds mask Hp Hlen)
    as (w' & Hrun & Hp' & Hf).
  exists w'. split; [done|]. split; [|split; [done|]].
  - intros i a d b Hi Hd Hb.
    destruct (pool_at_slot _ _ _ _ _ _ _ _ _ Hp' Hi) as (d' & Hd' & Ha).
    rewrite list_lookup_imap, Hd in Hd'. simpl in Hd'. injection Hd' as <-.
    unfold reset_env in Ha. rewrite Hb in Ha. split; [done|].
    intros ->. simpl in Ha. rewrite Ha.
    destruct (pool_at_slot _ _ _ _ _ _ _ _ _ Hp Hi) as (d0 & Hd0 & Ha0).
    congruence.
  - intros Hall.
    assert (imap (reset_env resetToDefault m mask) ds = ds) as Hsame.
    { apply list_eq. intros i. rewrite list_lookup_imap.
      destruct (ds !! i) as [d|] eqn:Hd; [|done]. simpl. f_equal.
      unfold reset_env. destruct (mask !! i) as [b|] eqn:Hb; [|done].
      by rewrite (Forall_lookup_1 _ _ _ _ Hall Hb). }
    rewrite Hsame in Hp'.
    eapply pool_worlds_eq; eauto using same_outside_refl.
Qed.

(** *** The gather *)

Lemma per_env_exact f m :
  model_ok m → (field_dim f m ≤ INT_MAX)%Z →
  int_wrap (per_env_expr f m) = field_dim f m.
Proof.
  unfold model_ok, INT_MAX. intros Hm Hf.
  destruct f; simpl in *;
    rewrite ?int_mul_small by (unfold INT_MAX; lia);
    apply int_wrap_small; unfold INT_MAX; lia.
Qed.

Lemma field_dim_nonneg f m : model_ok m → (0 ≤ field_dim f m)%Z.
Proof. unfold model_ok. intros Hm. destruct f; simpl; lia. Qed.

Lemma pool_at_update_buf w sp s ma m slots ds b c c' :
  pool_at w sp s ma m slots ds → heap w !! b = Some (BBuf c) →
  pool_at (MkWorld (<[b:=BBuf c']> (heap w)) (script w)) sp s ma m slots ds.
Proof.
  intros [Hs Hr Hm (da & Hda & Hpt) Hn Hint Hnd Hsl] Hb.
  split; simpl; try done.
  - rewrite lookup_insert_ne; [done | congruence].
  - rewrite lookup_insert_ne; [done | congruence].
  - exists da. split; [done|]. rewrite lookup_insert_ne; [done | congruence].
  - eapply Forall2_impl; [exact Hsl|]. simpl. intros a d Ha.
    rewrite lookup_insert_ne; [done | congruence].
Qed.

Lemma gather_task_ok f w sp s ma m slots ds b cells i d :
  pool_at w sp s ma m slots ds → model_ok m →
  ds !! i = Some d → data_ok m d →
  heap w !! b = Some (BBuf cells) →
  (Z.of_nat (length slots) * field_dim f m ≤ INT_MAX)%Z →
  length cells = length slots * Z.to_nat (field_dim f m) →
  gather_task f (Some sp) (Some b) (field_dim f m) i w
  = Ok tt (MkWorld (<[b:=BBuf (take (i * Z.to_nat (field_dim f m)) cells
                               ++ (Some <$> field_of f d)
                               ++ drop ((i + 1) * Z.to_nat (field_dim f m)) cells)]>
                      (heap w)) (script w)).
Proof.
  intros Hp Hm Hd [_ Hok] Hb Hfit Hlen.
  pose proof (field_dim_nonneg f m Hm) as Hnn.
  assert (i < length slots) as Hlt.
  { rewrite <- (pool_at_length _ _ _ _ _ _ _ Hp). by eapply lookup_lt_Some. }
  destruct (lookup_lt_is_Some_2 slots i Hlt) as [a Hi].
  destruct (pool_at_slot _ _ _ _ _ _ _ _ _ Hp Hi) as (d0 & Hd0 & Ha).
  assert (d0 = d) as -> by congruence.
  unfold gather_task.
  rewrite (run_bind _ _ _ _ _ (datas_at_ok _ _ _ _ _ _ _ _ _ Hp Hi)).
  rewrite (run_bind _ _ _ _ _ (load_data_ok _ _ _ Ha)).
  rewrite (run_bind _ _ _ _ _ (load_buf_ok _ _ _ Hb)).
  rewrite int_mul_small by (unfold INT_MAX in *; nia).
  unfold displacement. destruct (Z.ltb_spec (Z.of_nat i * field_dim f m) 0); [nia|].
  simpl. rewrite run_ret.
  rewrite double_count_small by (unfold INT_MAX in *; nia).
  assert (Z.to_nat (Z.of_nat i * field_dim f m) = i * Z.to_nat (field_dim f m))
    as -> by nia.
  unfold memcpy. rewrite bool_decide_eq_true_2; cycle 1.
  { rewrite length_fmap, Hok, Hlen. nia. }
  simpl. rewrite run_ret. rewrite drop_0.
  rewrite (take_ge (Some <$> field_of f d)) by (rewrite length_fmap, Hok; lia).
  erewrite store_ok by done.
  replace (i * Z.to_nat (field_dim f m) + Z.to_nat (field_dim f m))
    with ((i + 1) * Z.to_nat (field_dim f m)) by lia.
  done.
Qed.

Lemma gather_loop f w sp s ma m slots ds b cells :
  pool_at w sp s ma m slots ds → dims_ok m ds →
  heap w !! b = Some (BBuf cells) →
  (Z.of_nat (length slots) * field_dim f m ≤ INT_MAX)%Z →
  length cells = length slots * Z.to_nat (field_dim f m) →
  for_each (seq 0 (length slots))
    (gather_task f (Some sp) (Some b) (field_dim f m)) w
  = Ok tt (MkWorld (<[b:=BBuf (Some <$> concat (field_of f <$> ds))]> (heap w))
                   (script w)).
Proof.
  intros Hp [Hm Hds] Hb Hfit Hlen.
  set (dim := Z.to_nat (field_dim f m)) in *.
  assert (Forall (λ x, length x = dim) (field_of f <$> ds)) as Huni.
  { apply Forall_fmap. eapply Forall_impl; [exact Hds|].
    intros d [_ Hd]. apply Hd. }
  destruct (for_each_invariant
    (λ pre w', w' = MkWorld
       (<[b:=BBuf ((Some <$> concat (field_of f <$> take (length pre) ds))
                   ++ drop (length pre * dim) cells)]> (heap w)) (script w))
    (gather_task f (Some sp) (Some b) (field_dim f m))
    (seq 0 (length slots)) w) as (w' & Hrun & ->).
  - simpl. rewrite ?take_0, ?drop_0. simpl. symmetry. by apply world_insert_id.
  - intros pre i post w1 Hsplit ->.
    apply seq_split_inv in Hsplit as [-> Hlt].
    rewrite <- (pool_at_length _ _ _ _ _ _ _ Hp) in Hlt.
    destruct (lookup_lt_is_Some_2 ds _ Hlt) as [d Hd].
    assert (length (concat (field_of f <$> take (length pre) ds)) = length pre * dim)
      as Hpre.
    { rewrite (concat_length_uniform dim).
      - rewrite length_fmap, length_take. lia.
      - rewrite fmap_take. by apply Forall_take. }
    eexists. split.
    + eapply (gather_task_ok f _ sp s ma m slots ds b _ (length pre) d).
      * by eapply pool_at_update_buf.
      * done.
      * done.
      * eapply Forall_lookup_1; eauto.
      * simpl. apply lookup_insert_eq.
      * done.
      * rewrite length_app, length_fmap, Hpre, length_drop. fold dim.
        rewrite (pool_at_length _ _ _ _ _ _ _ Hp) in Hlt. nia.
    + simpl. rewrite insert_insert_eq. do 3 f_equal.
      rewrite length_app. simpl. fold dim.
      replace (length pre + 1) with (S (length pre)) by lia.
      rewrite (take_S_r _ _ _ Hd), fmap_app, concat_app. simpl.
      rewrite app_nil_r, fmap_app, <- app_assoc.
      rewrite take_app_length' by (by rewrite length_fmap).
      do 2 f_equal.
      rewrite drop_app_ge by (rewrite length_fmap, Hpre; lia).
      rewrite length_fmap, Hpre, drop_drop. f_equal. lia.
  - rewrite Hrun. do 3 f_equal.
    rewrite length_seq.
    rewrite take_ge by (rewrite (pool_at_length _ _ _ _ _ _ _ Hp); lia).
    rewrite drop_ge by lia.
    by rewrite app_nil_r.
Qed.

Lemma batched_gather_ok f w sp s ma m slots ds n_out :
  pool_at w sp s ma m slots ds → dims_ok m ds →
  buffers_at w s m (length slots) →
  ∃ b, buf_field f s = Some b ∧
    BATCHED_GATHER f (Some sp) n_out w
    = Ok (Some b, write_out n_out (Z.of_nat (length slots) * field_dim f m))
         (MkWorld (<[b:=BBuf (Some <$> concat (field_of f <$> ds))]> (heap w))
                  (script w)).
Proof.
  intros Hp Hdims Hbufs.
  destruct (Hbufs f) as (Hfit & b & cells & Hbf & Hb & Hlen).
  exists b. split; [done|].
  pose proof (pool_num_envs_int _ _ _ _ _ _ _ Hp) as Hint.
  pose proof (field_dim_nonneg f m (proj1 Hdims)) as Hnn.
  unfold BATCHED_GATHER.
  rewrite (run_bind _ _ _ _ _ (load_sim_ok _ _ _ (pool_sim _ _ _ _ _ _ _ Hp))).
  rewrite (pool_model_ref _ _ _ _ _ _ _ Hp).
  rewrite (run_bind _ _ _ _ _ (load_model_ok _ _ _ (pool_model _ _ _ _ _ _ _ Hp))).
  rewrite (pool_num_envs _ _ _ _ _ _ _ Hp), Nat2Z.id, Hbf.
  destruct (decide (length slots = 0)) as [Hz|Hpos].
  - rewrite Hz. simpl. rewrite run_ret.
    assert (ds = []) as ->.
    { apply length_zero_iff_nil. by rewrite (pool_at_length _ _ _ _ _ _ _ Hp). }
    assert (cells = []) as -> by (apply length_zero_iff_nil; lia).
    unfold ret. simpl.
    rewrite (world_insert_id w b (BBuf [])) by done. done.
  - rewrite per_env_exact; [| apply Hdims | unfold INT_MAX in *; nia].
    rewrite (run_bind _ _ _ _ _ (gather_loop f w sp s ma m slots ds b cells
                                   Hp Hdims Hb Hfit Hlen)).
    unfold ret. do 3 f_equal. apply int_mul_small. unfold INT_MAX in *. nia.
Qed.

(** The gathered cells of a field, read back per environment. *)
Lemma gathered_length f m (ds : list Data) :
  Forall (data_ok m) ds →
  length (Some <$> concat (field_of f <$> ds))
  = length ds * Z.to_nat (field_dim f m).
Proof.
  intros Hds. rewrite length_fmap.
  rewrite (concat_length_uniform (Z.to_nat (field_dim f m))).
  - by rewrite length_fmap.
  - apply Forall_fmap. eapply Forall_impl; [exact Hds|].
    intros d [_ Hd]. apply Hd.
Qed.

Lemma gathered_slice f m (ds : list Data) i d :
  Forall (data_ok m) ds → ds !! i = Some d →
  env_slice (Z.to_nat (field_dim f m)) i (Some <$> concat (field_of f <$> ds))
  = Some <$> field_of f d.
Proof.
  intros Hds Hd. rewrite env_slice_fmap. f_equal.
  apply env_slice_concat.
  - apply Forall_fmap. eapply Forall_impl; [exact Hds|].
    intros d' [_ Hd']. apply Hd'.
  - by rewrite list_lookup_fmap, Hd.
Qed.

(** C2: on a pool of N environments, for each of the exported fields,
    the batched getter returns the pool's buffer of that field and
    reports N * perEnvDim as its length; afterwards the buffer holds
    N * perEnvDim cells, the cells [i*perEnvDim, (i+1)*perEnvDim) are
    the values slot i holds for the field at the time of the call, for
    every i, and no cell keeps what the buffer held before; nothing but
    that buffer changes. *)
Theorem batched_gather_layout f w sp s ma m slots ds n0 :
  pool_at w sp s ma m slots ds → dims_ok m ds →
  buffers_at w s m (length slots) →
  ∃ b cells w',
    BATCHED_GATHER f (Some sp) (Some n0) w
    = Ok (Some b, Some (Z.of_nat (length slots) * field_dim f m)%Z) w' ∧
    buf_field f s = Some b ∧
    heap w' !! b = Some (BBuf cells) ∧
    length cells = length slots * Z.to_nat (field_dim f m) ∧
    (∀ i d, ds !! i = Some d →
       env_slice (Z.to_nat (field_dim f m)) i cells = Some <$> field_of f d) ∧
    cells = Some <$> concat (field_of f <$> ds) ∧
    same_outside [b] w w'.
Proof.
  intros Hp Hdims Hbufs.
  destruct (batched_gather_ok f w sp s ma m slots ds (Some n0) Hp Hdims Hbufs)
    as (b & Hbf & Hrun).
  eexists b, _, _. split; [exact Hrun|]. split; [done|]. simpl.
  split; [apply lookup_insert_eq|]. split; [|split; [|split; [done|]]].
  - rewrite (gathered_length f m ds (proj2 Hdims)).
    by rewrite (pool_at_length _ _ _ _ _ _ _ Hp).
  - intros i d Hd. by apply gathered_slice; [apply Hdims|].
  - split; [done|]. intros a Ha. simpl.
    rewrite lookup_insert_ne; [done|]. intros <-. apply Ha. by left.
Qed.

(** C4, as the code has it: the batched actuator-force getter reports
    N * nv as the length of its buffer, nv being the length of the
    velocity vector, and environment i contributes the nv values of its
    [qfrc_actuator] array, in cells [i*nv, (i+1)*nv). *)
Theorem batched_qfrc_actuator_dim w sp s ma m slots ds n0 :
  pool_at w sp s ma m slots ds → dims_ok m ds →
  buffers_at w s m (length slots) →
  ∃ b cells w',
    mjaccess_batched_get_qfrc_actuator (Some sp) (Some n0) w
    = Ok (Some b, Some (Z.of_nat (length slots) * nv m)%Z) w' ∧
    heap w' !! b = Some (BBuf cells) ∧
    length cells = length slots * Z.to_nat (nv m) ∧
    (∀ i d, ds !! i = Some d →
       env_slice (Z.to_nat (nv m)) i cells = Some <$> qfrc_actuator d).
Proof.
  intros Hp Hdims Hbufs.
  destruct (batched_gather_ok Fqfrc_actuator w sp s ma m slots ds (Some n0)
              Hp Hdims Hbufs) as (b & Hbf & Hrun).
  eexists b, _, _. split; [exact Hrun|]. simpl.
  split; [apply lookup_insert_eq|]. split.
  - rewrite (gathered_length Fqfrc_actuator m ds (proj2 Hdims)).
    by rewrite (pool_at_length _ _ _ _ _ _ _ Hp).
  - intros i d Hd.
    exact (gathered_slice Fqfrc_actuator m ds i d (proj2 Hdims) Hd).
Qed.

(** *** Null arguments *)

(** C8, as the code has it: destroying the null pool handle returns
    normally and leaves memory exactly as it was.  The null handle is
    the only one the code recognises: destruction does not clear the
    caller's handle, and a handle that has been destroyed is not null. *)
Theorem batched_free_null w :
  mjaccess_batched_free None w = Ok tt w.
Proof. reflexivity. Qed.

(** C10: with a null pool or a null control buffer the batched step, and
    with a null pool or a null mask the batched reset, return normally
    and leave memory exactly as it was; every batched getter called on
    the null pool returns the null pointer, sets the int behind a
    non-null [n_out] to 0, and leaves memory as it was.  The per-slot
    scatters likewise do nothing for a null pool or a null values
    buffer. *)
Theorem batched_null_arguments w sched sim ctrl_in mask f n_out i vals n :
  mjaccess_batched_step_with advanceOneStep sched None ctrl_in w = Ok tt w ∧
  mjaccess_batched_step_with advanceOneStep sched sim None w = Ok tt w ∧
  mjaccess_batched_reset resetToDefault None mask w = Ok tt w ∧
  mjaccess_batched_reset resetToDefault sim None w = Ok tt w ∧
  BATCHED_GATHER f None n_out w = Ok (None, write_out n_out 0) w ∧
  (∀ n0, reported_length (BATCHED_GATHER f None (Some n0) w) = Some 0%Z) ∧
  mjaccess_batched_set_env_qpos None i vals n w = Ok tt w ∧
  mjaccess_batched_set_env_qpos sim i None n w = Ok tt w ∧
  mjaccess_batched_set_env_qvel None i vals n w = Ok tt w ∧
  mjaccess_batched_set_env_qvel sim i None n w = Ok tt w.
Proof.
  repeat split; try done; by destruct sim.
Qed.

(** *** The per-slot scatter *)

Lemma batched_set_env_qpos_outside w sp s vals n env_idx :
  heap w !! sp = Some (BSim s) →
  (env_idx < 0 ∨ num_envs s ≤ env_idx)%Z →
  mjaccess_batched_set_env_qpos (Some sp) env_idx vals n w = Ok tt w.
Proof.
  intros Hs Hout. unfold mjaccess_batched_set_env_qpos.
  destruct vals as [vals|]; [|done].
  destruct (Z.ltb_spec env_idx 0); [done|].
  rewrite (run_bind _ _ _ _ _ (load_sim_ok _ _ _ Hs)).
  destruct (Z.leb_spec (num_envs s) env_idx); [done | lia].
Qed.

Lemma batched_set_env_qvel_outside w sp s vals n env_idx :
  heap w !! sp = Some (BSim s) →
  (env_idx < 0 ∨ num_envs s ≤ env_idx)%Z →
  mjaccess_batched_set_env_qvel (Some sp) env_idx vals n w = Ok tt w.
Proof.
  intros Hs Hout. unfold mjaccess_batched_set_env_qvel.
  destruct vals as [vals|]; [|done].
  destruct (Z.ltb_spec env_idx 0); [done|].
  rewrite (run_bind _ _ _ _ _ (load_sim_ok _ _ _ Hs)).
  destruct (Z.leb_spec (num_envs s) env_idx); [done | lia].
Qed.

(** With a count that fits the target array, the scatter copies that
    many leading values and keeps the rest of the array. *)
Lemma batched_set_env_qpos_fits w sp s ma m slots ds i a d vals n :
  pool_at w sp s ma m slots ds →
  slots !! i = Some a → ds !! i = Some d →
  n ≤ length vals → n ≤ length (qpos d) → (Z.of_nat n ≤ INT_MAX)%Z →
  mjaccess_batched_set_env_qpos (Some sp) (Z.of_nat i) (Some vals) (Z.of_nat n) w
  = Ok tt (MkWorld (<[a:=BData (set_qpos (take n vals ++ drop n (qpos d)) d)]>
                      (heap w)) (script w)).
Proof.
  intros Hp Hi Hd Hv Hq Hn.
  destruct (pool_at_slot _ _ _ _ _ _ _ _ _ Hp Hi) as (d0 & Hd0 & Ha).
  assert (d0 = d) as -> by congruence.
  assert (i < length slots) as Hlt by (by eapply lookup_lt_Some).
  unfold mjaccess_batched_set_env_qpos.
  destruct (Z.ltb_spec (Z.of_nat i) 0); [lia|].
  rewrite (run_bind _ _ _ _ _ (load_sim_ok _ _ _ (pool_sim _ _ _ _ _ _ _ Hp))).
  rewrite (pool_num_envs _ _ _ _ _ _ _ Hp).
  destruct (Z.leb_spec (Z.of_nat (length slots)) (Z.of_nat i)); [lia|].
  rewrite Nat2Z.id.
  rewrite (run_bind _ _ _ _ _ (datas_at_ok _ _ _ _ _ _ _ _ _ Hp Hi)).
  rewrite (run_bind _ _ _ _ _ (load_data_ok _ _ _ Ha)).
  rewrite double_count_small, Nat2Z.id by lia.
  rewrite memcpy_prefix by done. simpl. rewrite run_ret.
  by apply store_ok with (b0 := BData d).
Qed.

Lemma batched_set_env_qvel_fits w sp s ma m slots ds i a d vals n :
  pool_at w sp s ma m slots ds →
  slots !! i = Some a → ds !! i = Some d →
  n ≤ length vals → n ≤ length (qvel d) → (Z.of_nat n ≤ INT_MAX)%Z →
  mjaccess_batched_set_env_qvel (Some sp) (Z.of_nat i) (Some vals) (Z.of_nat n) w
  = Ok tt (MkWorld (<[a:=BData (set_qvel (take n vals ++ drop n (qvel d)) d)]>
                      (heap w)) (script w)).
Proof.
  intros Hp Hi Hd Hv Hq Hn.
  destruct (pool_at_slot _ _ _ _ _ _ _ _ _ Hp Hi) as (d0 & Hd0 & Ha).
  assert (d0 = d) as -> by congruence.
  assert (i < length slots) as Hlt by (by eapply lookup_lt_Some).
  unfold mjaccess_batched_set_env_qvel.
  destruct (Z.ltb_spec (Z.of_nat i) 0); [lia|].
  rewrite (run_bind _ _ _ _ _ (load_sim_ok _ _ _ (pool_sim _ _ _ _ _ _ _ Hp))).
  rewrite (pool_num_envs _ _ _ _ _ _ _ Hp).
  destruct (Z.leb_spec (Z.of_nat (length slots)) (Z.of_nat i)); [lia|].
  rewrite Nat2Z.id.
  rewrite (run_bind _ _ _ _ _ (datas_at_ok _ _ _ _ _ _ _ _ _ Hp Hi)).
  rewrite (run_bind _ _ _ _ _ (load_data_ok _ _ _ Ha)).
  rewrite double_count_small, Nat2Z.id by lia.
  rewrite memcpy_prefix by done. simpl. rewrite run_ret.
  by apply store_ok with (b0 := BData d).
Qed.

(** With a count beyond the target array, the [memcpy] of the scatter
    writes past the end of the array. *)
Lemma batched_set_env_qpos_overrun w sp s ma m slots ds i a d vals n :
  pool_at w sp s ma m slots ds →
  slots !! i = Some a → ds !! i = Some d →
  length (qpos d) < n → (Z.of_nat n ≤ INT_MAX)%Z →
  mjaccess_batched_set_env_qpos (Some sp) (Z.of_nat i) (Some vals) (Z.of_nat n) w
  = Fault.
Proof.
  intros Hp Hi Hd Hq Hn.
  destruct (pool_at_slot _ _ _ _ _ _ _ _ _ Hp Hi) as (d0 & Hd0 & Ha).
  assert (d0 = d) as -> by congruence.
  assert (i < length slots) as Hlt by (by eapply lookup_lt_Some).
  unfold mjaccess_batched_set_env_qpos.
  destruct (Z.ltb_spec (Z.of_nat i) 0); [lia|].
  rewrite (run_bind _ _ _ _ _ (load_sim_ok _ _ _ (pool_sim _ _ _ _ _ _ _ Hp))).
  rewrite (pool_num_envs _ _ _ _ _ _ _ Hp).
  destruct (Z.leb_spec (Z.of_nat (length slots)) (Z.of_nat i)); [lia|].
  rewrite Nat2Z.id.
  rewrite (run_bind _ _ _ _ _ (datas_at_ok _ _ _ _ _ _ _ _ _ Hp Hi)).
  rewrite (run_bind _ _ _ _ _ (load_data_ok _ _ _ Ha)).
  rewrite double_count_small, Nat2Z.id by lia.
  by rewrite memcpy_overrun by lia.
Qed.

Lemma batched_set_env_qvel_overrun w sp s ma m slots ds i a d vals n :
  pool_at w sp s ma m slots ds →
  slots !! i = Some a → ds !! i = Some d →
  length (qvel d) < n → (Z.of_nat n ≤ INT_MAX)%Z →
  mjaccess_batched_set_env_qvel (Some sp) (Z.of_nat i) (Some vals) (Z.of_nat n) w
  = Fault.
Proof.
  intros Hp Hi Hd Hq Hn.
  destruct (pool_at_slot _ _ _ _ _ _ _ _ _ Hp Hi) as (d0 & Hd0 & Ha).
  assert (d0 = d) as -> by congruence.
  assert (i < length slots) as Hlt by (by eapply lookup_lt_Some).
  unfold mjaccess_batched_set_env_qvel.
  destruct (Z.ltb_spec (Z.of_nat i) 0); [lia|].
  rewrite (run_bind _ _ _ _ _ (load_sim_ok _ _ _ (pool_sim _ _ _ _ _ _ _ Hp))).
  rewrite (pool_num_envs _ _ _ _ _ _ _ Hp).
  destruct (Z.leb_spec (Z.of_nat (length slots)) (Z.of_nat i)); [lia|].
  rewrite Nat2Z.id.
  rewrite (run_bind _ _ _ _ _ (datas_at_ok _ _ _ _ _ _ _ _ _ Hp Hi)).
  rewrite (run_bind _ _ _ _ _ (load_data_ok _ _ _ Ha)).
  rewrite double_count_small, Nat2Z.id by lia.
  by rewrite memcpy_overrun by lia.
Qed.

(** *** Parity across environments *)

Lemma buffers_at_same_outside w w' sp s ma m slots ds :
  pool_at w sp s ma m slots ds → same_outside slots w w' →
  buffers_at w s m (length slots) → buffers_at w' s m (length slots).
Proof.
  intros Hp [_ Hf] Hb f. destruct (Hb f) as (Hfit & b & cells & Hbf & Hc & Hlen).
  split; [done|]. exists b, cells. split; [done|]. split; [|done].
  rewrite Hf; [done|]. intros Hin.
  apply list_elem_of_lookup in Hin as [i Hi].
  destruct (pool_at_slot _ _ _ _ _ _ _ _ _ Hp Hi) as (d & _ & Ha). congruence.
Qed.

Lemma data_ok_set_ctrl m d u :
  data_ok m d → length u = Z.to_nat (nu m) → data_ok m (set_ctrl u d).
Proof.
  intros [_ Hf] Hu. split; [done|]. intros f. specialize (Hf f). by destruct f.
Qed.

Lemma imap_replicate_const {A B} (g : nat → A → B) (h : A → B) n x :
  (∀ i, i < n → g i x = h x) → imap g (replicate n x) = replicate n (h x).
Proof.
  intros Hg. apply list_eq. intros i. rewrite list_lookup_imap.
  destruct (decide (i < n)) as [Hlt|Hge].
  - rewrite !lookup_replicate_2 by done. simpl. by rewrite Hg.
  - rewrite !(proj1 (lookup_replicate_None _ _ _)) by lia. done.
Qed.

Section Parity.

(** The engine keeps the sizes of the arrays of a state. *)
Hypothesis advance_keeps_sizes :
  ∀ m d, model_ok m → data_ok m d → data_ok m (advanceOneStep m d).

Lemma batched_steps_parity cbs : ∀ w sp s ma m slots d0,
  pool_at w sp s ma m slots (replicate (length slots) d0) →
  model_ok m → data_ok m d0 →
  buffers_at w s m (length slots) →
  Forall (λ cb, ∃ u, length u = Z.to_nat (nu m) ∧
                     cb = concat (replicate (length slots) u)) cbs →
  ∃ w' d', batched_steps advanceOneStep (Some sp) cbs w = Ok tt w' ∧
    pool_at w' sp s ma m slots (replicate (length slots) d') ∧
    data_ok m d' ∧ buffers_at w' s m (length slots).
Proof using advance_keeps_sizes.
  induction cbs as [|cb cbs IH]; intros w sp s ma m slots d0 Hp Hm Hd Hb Hcbs.
  - exists w, d0. split; [done|]. split; [done|]. by split.
  - apply Forall_cons in Hcbs as [(u & Hu & ->) Hcbs].
    assert (Forall (λ x, length x = Z.to_nat (nu m)) (replicate (length slots) u))
      as Huni by (by apply Forall_replicate).
    destruct (batched_step_with_ok (seq 0) w sp s ma m slots
                (replicate (length slots) d0) (concat (replicate (length slots) u)))
      as (w1 & Hrun & Hp1 & Hf1); try done.
    { split; [done|]. by apply Forall_replicate. }
    { by rewrite (concat_length_uniform _ _ Huni), length_replicate. }
    rewrite (imap_replicate_const _ (λ d, advanceOneStep m (set_ctrl u d))) in Hp1;
      cycle 1.
    { intros i Hi. unfold step_env. do 2 f_equal.
      apply env_slice_concat; [done|]. by apply lookup_replicate_2. }
    destruct (IH w1 sp s ma m slots _ Hp1 Hm) as (w' & d' & Hrun' & H').
    + apply advance_keeps_sizes; [done|]. by apply data_ok_set_ctrl.
    + exact (buffers_at_same_outside _ _ _ _ _ _ _ _ Hp Hf1 Hb).
    + done.
    + exists w', d'. split; [|done]. simpl.
      unfold mjaccess_batched_step. by rewrite (run_bind _ _ _ _ _ Hrun).
Qed.

(** C9: the engine being a function of the model and the state, start a
    pool of N environments with the same state in every slot and run any
    number of batched steps in which every environment gets the same
    control slice; a gather of any exported field then succeeds and the
    N per-environment ranges of the gathered buffer are equal to one
    another. *)
Theorem batched_parity f w sp s ma m slots d0 cbs :
  pool_at w sp s ma m slots (replicate (length slots) d0) →
  model_ok m → data_ok m d0 →
  buffers_at w s m (length slots) →
  Forall (λ cb, ∃ u, length u = Z.to_nat (nu m) ∧
                     cb = concat (replicate (length slots) u)) cbs →
  ∃ b cells n w',
    steps_then_gather advanceOneStep f (Some sp) cbs w = Ok (Some b, n) w' ∧
    heap w' !! b = Some (BBuf cells) ∧
    length cells = length slots * Z.to_nat (field_dim f m) ∧
    ∀ i j, i < length slots → j < length slots →
      env_slice (Z.to_nat (field_dim f m)) i cells
      = env_slice (Z.to_nat (field_dim f m)) j cells.
Proof using advance_keeps_sizes.
  intros Hp Hm Hd Hb Hcbs.
  destruct (batched_steps_parity cbs w sp s ma m slots d0)
    as (w1 & d1 & Hrun & Hp1 & Hd1 & Hb1); try done.
  assert (Forall (data_ok m) (replicate (length slots) d1)) as Hds
    by (by apply Forall_replicate).
  destruct (batched_gather_ok f w1 sp s ma m slots _ (Some 0%Z) Hp1
              (conj Hm Hds) Hb1) as (b & Hbf & Hg).
  eexists b, _, _, _. split; [|split; [|split]].
  - unfold steps_then_gather. rewrite (run_bind _ _ _ _ _ Hrun). exact Hg.
  - simpl. apply lookup_insert_eq.
  - by rewrite (gathered_length f m _ Hds), length_replicate.
  - intros i j Hi Hj.
    rewrite (gathered_slice f m _ i d1 Hds), (gathered_slice f m _ j d1 Hds);
      [done|..]; by apply lookup_replicate_2.
Qed.

End Parity.

(** *** Destroying a pool *)

Lemma lookup_remove_all L (h : gmap positive Block) a :
  remove_all L h !! a = if decide (a ∈ L) then None else h !! a.
Proof.
  revert h. induction L as [|x L IH]; intros h.
  - rewrite decide_False; [done | apply not_elem_of_nil].
  - change (remove_all (x :: L) h) with (remove_all L (delete x h)).
    rewrite IH. destruct (decide (a ∈ L)) as [Hin|Hout].
    + rewrite decide_True; [done | by right].
    + destruct (decide (a = x)) as [->|Hne].
      * rewrite decide_True by left. apply lookup_delete_eq.
      * rewrite decide_False; [by apply lookup_delete_ne|].
        by intros [?|?]%elem_of_cons.
Qed.

Lemma remove_all_app L1 L2 (h : gmap positive Block) :
  remove_all (L1 ++ L2) h = remove_all L2 (remove_all L1 h).
Proof. unfold remove_all. apply foldl_app. Qed.

Lemma remove_all_insert L (h : gmap positive Block) a x :
  a ∉ L → remove_all L (<[a:=x]> h) = <[a:=x]> (remove_all L h).
Proof.
  revert h. induction L as [|y L IH]; intros h Ha; simpl; [done|].
  apply not_elem_of_cons in Ha as [Hne Ha].
  rewrite delete_insert_ne by done. by apply IH.
Qed.

Lemma world_eta w : MkWorld (heap w) (script w) = w.
Proof. by destruct w. Qed.

Lemma free_ok w a (b : Block) :
  heap w !! a = Some b →
  free (Some a) w = Ok tt (MkWorld (delete a (heap w)) (script w)).
Proof. intros H. unfold free. by rewrite H. Qed.

Lemma mj_deleteData_ok w a d :
  heap w !! a = Some (BData d) →
  mj_deleteData (Some a) w = Ok tt (MkWorld (delete a (heap w)) (script w)).
Proof.
  intros H. unfold mj_deleteData.
  rewrite (run_bind _ _ _ _ _ (load_data_ok _ _ _ H)). by eapply free_ok.
Qed.

Lemma datas_at_raw w sp s da l i p :
  heap w !! sp = Some (BSim s) → datas s = Some da →
  heap w !! da = Some (BPtrs l) → l !! i = Some p →
  datas_at (Some sp) i w = Ok p w.
Proof.
  intros Hs Hda Hl Hi. unfold datas_at.
  rewrite (run_bind _ _ _ _ _ (load_sim_ok _ _ _ Hs)), Hda.
  rewrite (run_bind _ _ _ _ _ (load_ptrs_ok _ _ _ Hl)). by rewrite Hi.
Qed.

Lemma free_slots_loop l2 : ∀ l1 w sp s da,
  heap w !! sp = Some (BSim s) → datas s = Some da →
  heap w !! da = Some (BPtrs (l1 ++ l2)) →
  NoDup (omap id l2) →
  (∀ a, Some a ∈ l2 → ∃ d, heap w !! a = Some (BData d)) →
  for_each (seq (length l1) (length l2))
    (λ i, bind (datas_at (Some sp) i) (λ p,
            match p with Some _ => mj_deleteData p | None => ret tt end)) w
  = Ok tt (MkWorld (remove_all (omap id l2) (heap w)) (script w)).
Proof.
  induction l2 as [|p l2 IH]; intros l1 w sp s da Hs Hda Hl Hnd Hlive.
  - simpl. by rewrite world_eta.
  - simpl.
    assert (datas_at (Some sp) (length l1) w = Ok p w) as Hat.
    { eapply datas_at_raw; eauto. by apply list_lookup_middle. }
    replace (l1 ++ p :: l2) with ((l1 ++ [p]) ++ l2) in Hl
      by (by rewrite <- app_assoc).
    replace (S (length l1)) with (length (l1 ++ [p]))
      by (rewrite length_app; simpl; lia).
    destruct p as [a|]; simpl in *.
    + destruct (Hlive a) as [d Ha]; [by left|].
      apply NoDup_cons in Hnd as [Hnotin Hnd].
      erewrite run_bind; cycle 1.
      { rewrite (run_bind _ _ _ _ _ Hat). by apply (mj_deleteData_ok _ _ d). }
      rewrite (IH (l1 ++ [Some a]) _ sp s da); simpl; try done.
      * rewrite lookup_delete_ne; [done | congruence].
      * rewrite lookup_delete_ne; [done | congruence].
      * intros a' Ha'. destruct (Hlive a') as [d' Hd']; [by right|].
        exists d'. rewrite lookup_delete_ne; [done|].
        intros <-. apply Hnotin. apply list_elem_of_omap. by exists (Some a).
    + erewrite run_bind; cycle 1.
      { rewrite (run_bind _ _ _ _ _ Hat). reflexivity. }
      apply (IH (l1 ++ [None]) _ sp s da); try done.
      intros a' Ha'. apply Hlive. by right.
Qed.

Lemma modify_sim_ok w sp s g :
  heap w !! sp = Some (BSim s) →
  modify_sim (Some sp) g w
  = Ok tt (MkWorld (<[sp:=BSim (g s)]> (heap w)) (script w)).
Proof.
  intros Hs. unfold modify_sim.
  rewrite (run_bind _ _ _ _ _ (load_sim_ok _ _ _ Hs)).
  by apply store_ok with (b0 := BSim s).
Qed.

Lemma buf_field_set_ne f f' v s :
  f' ≠ f → buf_field f' (set_buf_field f v s) = buf_field f' s.
Proof. intros Hne. destruct f, f'; done. Qed.

Lemma free_buffers_loop fs : ∀ w sp s,
  heap w !! sp = Some (BSim s) → NoDup fs →
  NoDup (omap (λ f, buf_field f s) fs) →
  (∀ f b, f ∈ fs → buf_field f s = Some b → b ≠ sp ∧ is_Some (heap w !! b)) →
  ∃ s', for_each fs (λ f, bind (load_sim (Some sp)) (λ s0,
                       bind (free (buf_field f s0)) (λ _,
                         modify_sim (Some sp) (set_buf_field f None)))) w
        = Ok tt (MkWorld (<[sp:=BSim s']>
                   (remove_all (omap (λ f, buf_field f s) fs) (heap w)))
                   (script w)).
Proof.
  induction fs as [|f fs IH]; intros w sp s Hs Hfs Hnd Hlive.
  - exists s. simpl. unfold ret. f_equal. symmetry. by apply world_insert_id.
  - apply NoDup_cons in Hfs as [Hf Hfs].
    assert (omap (λ f', buf_field f' (set_buf_field f None s)) fs
            = omap (λ f', buf_field f' s) fs) as Hsame.
    { apply list_omap_ext. apply Forall2_same_length_lookup. split; [done|].
      intros i x y Hx Hy. assert (x = y) as -> by congruence.
      apply buf_field_set_ne. intros ->. apply Hf. by eapply list_elem_of_lookup_2. }
    set (body := λ f, bind (load_sim (Some sp)) (λ s0,
                       bind (free (buf_field f s0)) (λ _,
                         modify_sim (Some sp) (set_buf_field f None)))).
    change (for_each (f :: fs) body w)
      with (bind (body f) (λ _, for_each fs body) w).
    change (omap (λ f0, buf_field f0 s) (f :: fs))
      with (match buf_field f s with
            | Some y => y :: omap (λ f0, buf_field f0 s) fs
            | None => omap (λ f0, buf_field f0 s) fs
            end) in *.
    destruct (buf_field f s) as [b|] eqn:Hb.
    + destruct (Hlive f b) as [Hne [blk Hblk]]; [by left | done |].
      apply NoDup_cons in Hnd as [Hnotin Hnd].
      assert (body f w = Ok tt (MkWorld (<[sp:=BSim (set_buf_field f None s)]>
                                          (delete b (heap w))) (script w)))
        as Hbody.
      { unfold body. rewrite (run_bind _ _ _ _ _ (load_sim_ok _ _ _ Hs)), Hb.
        rewrite (run_bind _ _ _ _ _ (free_ok _ _ _ Hblk)).
        assert (heap (MkWorld (delete b (heap w)) (script w)) !! sp = Some (BSim s)) as Hs1.
        { simpl. rewrite lookup_delete_ne; [exact Hs | done]. }
        exact (modify_sim_ok _ sp s (set_buf_field f None) Hs1). }
      rewrite (run_bind _ _ _ _ _ Hbody).
      destruct (IH (MkWorld (<[sp:=BSim (set_buf_field f None s)]>
                               (delete b (heap w))) (script w))
                  sp (set_buf_field f None s)) as [s' Hrun]; simpl; try done.
      * apply lookup_insert_eq.
      * by rewrite Hsame.
      * intros f' b' Hf' Hb'.
        rewrite buf_field_set_ne in Hb' by (intros ->; done).
        destruct (Hlive f' b') as [Hne' Hl']; [by right | done |].
        split; [done|]. rewrite lookup_insert_ne by done.
        rewrite lookup_delete_ne; [done|].
        intros <-. apply Hnotin. apply list_elem_of_omap. by exists f'.
      * exists s'. fold body in Hrun. rewrite Hrun, Hsame. simpl. do 2 f_equal.
        rewrite remove_all_insert, insert_insert_eq; [done|].
        intros Hin. apply list_elem_of_omap in Hin as (f' & Hf' & Hb').
        destruct (Hlive f' sp); [by right | done | done].
    + assert (body f w = Ok tt (MkWorld (<[sp:=BSim (set_buf_field f None s)]>
                                          (heap w)) (script w)))
        as Hbody.
      { unfold body. rewrite (run_bind _ _ _ _ _ (load_sim_ok _ _ _ Hs)), Hb.
        rewrite (run_bind (free None) _ w tt w) by done.
        exact (modify_sim_ok w sp s (set_buf_field f None) Hs). }
      rewrite (run_bind _ _ _ _ _ Hbody).
      destruct (IH (MkWorld (<[sp:=BSim (set_buf_field f None s)]> (heap w))
                            (script w))
                  sp (set_buf_field f None s)) as [s' Hrun]; simpl; try done.
      * apply lookup_insert_eq.
      * by rewrite Hsame.
      * intros f' b' Hf' Hb'.
        rewrite buf_field_set_ne in Hb' by (intros ->; done).
        destruct (Hlive f' b') as [Hne' Hl']; [by right | done |].
        split; [done|]. by rewrite lookup_insert_ne.
      * exists s'. fold body in Hrun. rewrite Hrun, Hsame. simpl. do 2 f_equal.
        rewrite remove_all_insert, insert_insert_eq; [done|].
        intros Hin. apply list_elem_of_omap in Hin as (f' & Hf' & Hb').
        destruct (Hlive f' sp); [by right | done | done].
Qed.

Lemma all_fields_nodup : NoDup all_fields.
Proof. apply (bool_decide_unpack _). by vm_compute. Qed.

(** Destroying a pool releases the states its pointer array lists, the
    array, the gather buffers and the header, and touches nothing else.
    The array may have null entries, as it has while the pool is still
    being created. *)
Lemma batched_free_ok w sp s da l :
  heap w !! sp = Some (BSim s) → datas s = Some da →
  heap w !! da = Some (BPtrs l) →
  length l = Z.to_nat (num_envs s) →
  NoDup (omap id l) →
  (∀ a, Some a ∈ l → ∃ d, heap w !! a = Some (BData d)) →
  buffers_owned w s →
  mjaccess_batched_free (Some sp) w
  = Ok tt (MkWorld (remove_all (omap id l ++ da :: buffers_of s ++ [sp]) (heap w))
                   (script w)).
Proof.
  intros Hs Hda Hl Hlen Hnd Hlive [Hbnd Hbufs].
  assert (∀ a, a ∈ omap id l → ∃ d, heap w !! a = Some (BData d)) as Hlive'.
  { intros a (p & Hp & Hpa)%list_elem_of_omap. simpl in Hpa. subst p. by apply Hlive. }
  unfold mjaccess_batched_free.
  rewrite (run_bind _ _ _ _ _ (load_sim_ok _ _ _ Hs)), Hda.
  rewrite <- Hlen.
  pose proof (free_slots_loop l [] w sp s da Hs Hda Hl Hnd Hlive) as Hloop.
  simpl in Hloop.
  erewrite run_bind; cycle 1.
  { rewrite (run_bind _ _ _ _ _ Hloop).
    eapply free_ok. simpl. rewrite lookup_remove_all, decide_False; [exact Hl|].
    intros Hin. destruct (Hlive' _ Hin). congruence. }
  simpl. unfold batched_free_buffers.
  destruct (free_buffers_loop all_fields
              (MkWorld (delete da (remove_all (omap id l) (heap w))) (script w))
              sp s) as [s' Hfb]; simpl.
  - rewrite lookup_delete_ne by congruence.
    rewrite lookup_remove_all, decide_False; [exact Hs|].
    intros Hin. destruct (Hlive' _ Hin). congruence.
  - apply all_fields_nodup.
  - exact Hbnd.
  - intros f b _ Hb. destruct (Hbufs f b Hb) as [cells Hc].
    split; [congruence|]. exists (BBuf cells).
    rewrite lookup_delete_ne by congruence.
    rewrite lookup_remove_all, decide_False; [exact Hc|].
    intros Hin. destruct (Hlive' _ Hin). congruence.
  - rewrite (run_bind _ _ _ _ _ Hfb).
    erewrite free_ok by (simpl; apply lookup_insert_eq). simpl.
    rewrite delete_insert_eq. f_equal.
    rewrite remove_all_app. simpl. rewrite remove_all_app. done.
Qed.

(** *** Creating a pool *)

Lemma fresh_unused (h : gmap positive Block) : h !! fresh (dom h) = None.
Proof. apply not_elem_of_dom, is_fresh. Qed.

Lemma alloc_ok w (b : Block) sc :
  script w = true :: sc →
  alloc b w = Ok (Some (fresh (dom (heap w))))
                 (MkWorld (<[fresh (dom (heap w)):=b]> (heap w)) sc).
Proof. intros H. unfold alloc. by rewrite H. Qed.

Lemma alloc_refused w (b : Block) t :
  script w = t → (t = [] ∨ ∃ t', t = false :: t') →
  alloc b w = Ok None (MkWorld (heap w) (tail t)).
Proof.
  intros H [->|[t' ->]]; unfold alloc; rewrite H; simpl; [|done].
  by rewrite <- H, world_eta.
Qed.

Lemma set_datas_at_ok w sp s da l i p :
  heap w !! sp = Some (BSim s) → datas s = Some da →
  heap w !! da = Some (BPtrs l) → i < length l →
  set_datas_at (Some sp) i p w
  = Ok tt (MkWorld (<[da:=BPtrs (<[i:=p]> l)]> (heap w)) (script w)).
Proof.
  intros Hs Hda Hl Hi. unfold set_datas_at.
  rewrite (run_bind _ _ _ _ _ (load_sim_ok _ _ _ Hs)), Hda.
  rewrite (run_bind _ _ _ _ _ (load_ptrs_ok _ _ _ Hl)).
  rewrite bool_decide_eq_true_2 by done.
  by apply store_ok with (b0 := BPtrs l).
Qed.

Lemma ptrs_enter (made : list positive) r (p : option positive) :
  <[length made:=p]> ((Some <$> made) ++ replicate (S r) None)
  = (Some <$> made) ++ p :: replicate r None.
Proof.
  rewrite insert_app_r_alt by (by rewrite length_fmap).
  by rewrite length_fmap, Nat.sub_diag.
Qed.

Lemma set_datas_at_enter w sp ma ne da (made : list positive) r p :
  heap w !! sp = Some (BSim (fresh_sim ma ne da)) →
  heap w !! da = Some (BPtrs ((Some <$> made) ++ replicate (S r) None)) →
  set_datas_at (Some sp) (length made) p w
  = Ok tt (MkWorld (<[da:=BPtrs ((Some <$> made) ++ p :: replicate r None)]>
                      (heap w)) (script w)).
Proof.
  intros Hs Hp. rewrite <- ptrs_enter.
  apply (set_datas_at_ok w sp (fresh_sim ma ne da) da); try done.
  rewrite length_app, length_fmap, length_replicate. lia.
Qed.

Lemma building_at_script h0 w sp ma da m ne made r sc :
  building_at createDefaultState h0 w sp ma da m ne made r →
  building_at createDefaultState h0 (MkWorld (heap w) sc) sp ma da m ne made r.
Proof. by intros []. Qed.

(** One more slot made and entered. *)
Lemma building_at_enter h0 w sp ma da m ne made r sc :
  building_at createDefaultState h0 w sp ma da m ne made (S r) →
  let a := fresh (dom (heap w)) in
  building_at createDefaultState h0
    (MkWorld (<[da:=BPtrs ((Some <$> (made ++ [a])) ++ replicate r None)]>
                (<[a:=BData (createDefaultState m)]> (heap w))) sc)
    sp ma da m ne (made ++ [a]) r.
Proof.
  clear advanceOneStep resetToDefault.
  intros [Hs Hp Hm Hlen Hnd Hmade Hnew Hold] a.
  pose proof (fresh_unused (heap w)) as Hfresh. fold a in Hfresh.
  assert (a ≠ sp) by congruence. assert (a ≠ da) by congruence.
  assert (a ≠ ma) by congruence.
  assert (a ∉ made) as Hnotin.
  { intros Hin. rewrite (Hmade _ Hin) in Hfresh. done. }
  split; simpl.
  - rewrite !lookup_insert_ne by congruence. done.
  - apply lookup_insert_eq.
  - rewrite !lookup_insert_ne by congruence. done.
  - rewrite length_app. simpl. lia.
  - apply NoDup_app. split; [done|]. split; [|apply NoDup_singleton].
    intros x Hx ->%list_elem_of_singleton. done.
  - intros x [Hx| ->%list_elem_of_singleton]%elem_of_app.
    + rewrite lookup_insert_ne by (intros <-; specialize (Hmade _ Hx); congruence).
      rewrite lookup_insert_ne by (intros <-; done). by apply Hmade.
    + rewrite lookup_insert_ne by done. apply lookup_insert_eq.
  - intros x Hx.
    destruct (decide (x = a)) as [->|Hne].
    + rewrite <- Hold; [done|].
      intros [?|[?|?]%elem_of_cons]%elem_of_cons; done.
    + apply Hnew. rewrite !elem_of_cons in *. rewrite elem_of_app in Hx.
      rewrite list_elem_of_singleton in Hx. tauto.
  - intros x Hx.
    assert (x ≠ da ∧ x ≠ a ∧ x ∉ sp :: da :: made) as (? & ? & ?).
    { rewrite !elem_of_cons in *. rewrite elem_of_app in Hx.
      rewrite list_elem_of_singleton in Hx. tauto. }
    rewrite !lookup_insert_ne by done. by apply Hold.
Qed.

Lemma omap_id_building (made : list positive) r :
  omap id ((Some <$> made) ++ replicate r None) = made.
Proof.
  rewrite omap_app.
  assert (omap id (replicate r (@None positive)) = []) as ->
    by (induction r; done).
  rewrite app_nil_r. induction made; simpl; [done | by f_equal].
Qed.

(** Destroying the pool that is being created gives back the memory the
    creation started from. *)
Lemma building_at_free h0 w sp ma da m ne made r :
  building_at createDefaultState h0 w sp ma da m ne made r →
  mjaccess_batched_free (Some sp) w = Ok tt (MkWorld h0 (script w)).
Proof.
  clear advanceOneStep resetToDefault.
  intros [Hs Hp Hm Hlen Hnd Hmade Hnew Hold].
  rewrite (batched_free_ok w sp (fresh_sim ma ne da) da
             ((Some <$> made) ++ replicate r None)).
  - f_equal. f_equal. apply map_eq. intros x.
    rewrite lookup_remove_all, omap_id_building.
    change (buffers_of (fresh_sim ma ne da)) with (@nil positive). simpl.
    assert (x ∈ made ++ [da; sp] ↔ x ∈ sp :: da :: made) as Hiff.
    { rewrite elem_of_app, !elem_of_cons, elem_of_nil. tauto. }
    case_decide as Hx.
    + symmetry. by apply Hnew, Hiff.
    + apply Hold. by rewrite <- Hiff.
  - done.
  - done.
  - done.
  - rewrite length_app, length_fmap, length_replicate. done.
  - by rewrite omap_id_building.
  - intros a Ha. exists (createDefaultState m). apply Hmade.
    rewrite <- (omap_id_building made r). apply list_elem_of_omap. by exists (Some a).
  - split; [apply NoDup_nil_2|]. intros f b Hb. by destruct f.
Qed.

Lemma mj_makeData_ok w ma m sc :
  heap w !! ma = Some (BModel m) → script w = true :: sc →
  mj_makeData createDefaultState (Some ma) w
  = Ok (Some (fresh (dom (heap w))))
       (MkWorld (<[fresh (dom (heap w)):=BData (createDefaultState m)]> (heap w)) sc).
Proof.
  intros Hm Hsc. unfold mj_makeData.
  rewrite (run_bind _ _ _ _ _ (load_model_ok _ _ _ Hm)). by apply alloc_ok.
Qed.

Lemma mj_makeData_refused w ma m t :
  heap w !! ma = Some (BModel m) → script w = t →
  (t = [] ∨ ∃ t', t = false :: t') →
  mj_makeData createDefaultState (Some ma) w = Ok None (MkWorld (heap w) (tail t)).
Proof.
  intros Hm Hsc Ht. unfold mj_makeData.
  rewrite (run_bind _ _ _ _ _ (load_model_ok _ _ _ Hm)). by apply alloc_refused.
Qed.

(** The slot loop when the engine refuses the [k]+1-th of the states
    still to be made: the pool is released and the loop reports the
    failure. *)
Lemma create_envs_fails n : ∀ h0 w sp ma da m ne made k t,
  building_at createDefaultState h0 w sp ma da m ne made n →
  k < n → script w = replicate k true ++ t →
  (t = [] ∨ ∃ t', t = false :: t') →
  create_envs createDefaultState (Some sp) (Some ma) (length made) n w
  = Ok false (MkWorld h0 (tail t)).
Proof.
  induction n as [|n IH]; intros h0 w sp ma da m ne made k t Hb Hk Hsc Ht; [lia|].
  pose proof Hb as [Hs Hp Hm Hlen Hnd Hmade Hnew Hold].
  pose proof (fresh_unused (heap w)) as Hfresh.
  cbn [create_envs]. destruct k as [|k]; simpl in Hsc.
  - rewrite (run_bind _ _ _ _ _ (mj_makeData_refused _ _ _ _ Hm Hsc Ht)).
    rewrite (run_bind _ _ _ _ _
      (set_datas_at_enter (MkWorld (heap w) (tail t)) sp ma ne da made n None Hs Hp)).
    cbn [heap script].
    change (None :: replicate n None) with (replicate (S n) (@None positive)).
    rewrite insert_id by done.
    erewrite run_bind; cycle 1.
    { eapply building_at_free. by apply building_at_script. }
    done.
  - rewrite (run_bind _ _ _ _ _ (mj_makeData_ok _ _ _ _ Hm Hsc)).
    erewrite run_bind; cycle 1.
    { apply (set_datas_at_enter _ sp ma ne da made n); cbn [heap].
      - rewrite lookup_insert_ne; [exact Hs | congruence].
      - rewrite lookup_insert_ne; [exact Hp | congruence]. }
    cbn [heap script].
    replace (S (length made)) with (length (made ++ [fresh (dom (heap w))]))
      by (rewrite length_app; simpl; lia).
    eapply (IH h0 _ sp ma da m ne _ k t); [|lia|done|done].
    replace ((Some <$> made) ++ Some (fresh (dom (heap w))) :: replicate n None)
      with ((Some <$> made ++ [fresh (dom (heap w))]) ++ replicate n None)
      by (by rewrite fmap_app, <- app_assoc).
    by apply building_at_enter.
Qed.

(** The slot loop when the engine makes every state asked for. *)
Lemma create_envs_succeeds n : ∀ h0 w sp ma da m ne made rest,
  building_at createDefaultState h0 w sp ma da m ne made n →
  script w = replicate n true ++ rest →
  ∃ w' made',
    create_envs createDefaultState (Some sp) (Some ma) (length made) n w
    = Ok true w' ∧
    building_at createDefaultState h0 w' sp ma da m ne made' 0 ∧
    script w' = rest.
Proof.
  induction n as [|n IH]; intros h0 w sp ma da m ne made rest Hb Hsc.
  - exists w, made. split; [done|]. by split.
  - pose proof Hb as [Hs Hp Hm Hlen Hnd Hmade Hnew Hold].
    pose proof (fresh_unused (heap w)) as Hfresh.
    cbn [create_envs]. simpl in Hsc.
    rewrite (run_bind _ _ _ _ _ (mj_makeData_ok _ _ _ _ Hm Hsc)).
    erewrite run_bind; cycle 1.
    { apply (set_datas_at_enter _ sp ma ne da made n); cbn [heap].
      - rewrite lookup_insert_ne; [exact Hs | congruence].
      - rewrite lookup_insert_ne; [exact Hp | congruence]. }
    cbn [heap script].
    replace (S (length made)) with (length (made ++ [fresh (dom (heap w))]))
      by (rewrite length_app; simpl; lia).
    eapply (IH h0 _ sp ma da m ne _ rest); [|done].
    replace ((Some <$> made) ++ Some (fresh (dom (heap w))) :: replicate n None)
      with ((Some <$> made ++ [fresh (dom (heap w))]) ++ replicate n None)
      by (by rewrite fmap_app, <- app_assoc).
    by apply building_at_enter.
Qed.

(** With a valid model handle, a positive number of environments and
    the two bookkeeping allocations served, creation reaches the slot
    loop with the header and the pointer array in place. *)
Lemma create_prologue w hm ma m cfg rest :
  heap w !! hm = Some (BAccessModel (MkAccessModel (Some ma))) →
  heap w !! ma = Some (BModel m) →
  (0 < cfg_num_envs cfg ≤ INT_MAX)%Z →
  script w = true :: true :: rest →
  ∃ sp da w3,
    mjaccess_batched_create createDefaultState (Some hm) (Some cfg) w
    = create_rest createDefaultState sp ma cfg w3 ∧
    building_at createDefaultState (heap w) w3 sp ma da m (cfg_num_envs cfg) []
      (Z.to_nat (cfg_num_envs cfg)) ∧
    script w3 = rest.
Proof.
  clear advanceOneStep resetToDefault.
  intros Hhm Hm Hne Hsc.
  pose proof (fresh_unused (heap w)) as Hfresh.
  set (sp := fresh (dom (heap w))) in *.
  eexists sp, _, _. split.
  - unfold mjaccess_batched_create.
    rewrite (run_bind _ _ _ _ _ (load_access_model_ok _ _ _ Hhm)). cbn [am_mj].
    destruct (Z.leb_spec (cfg_num_envs cfg) 0) as [?|_]; [lia|].
    rewrite (run_bind _ _ _ _ _ (alloc_ok _ _ _ Hsc)). fold sp.
    erewrite run_bind; cycle 1.
    { refine (modify_sim_ok _ sp _ _ _). cbn [heap]. apply lookup_insert_eq. }
    cbn [heap script]. rewrite insert_insert_eq.
    erewrite run_bind; cycle 1.
    { refine (modify_sim_ok _ sp _ _ _). cbn [heap]. apply lookup_insert_eq. }
    cbn [heap script]. rewrite insert_insert_eq.
    erewrite run_bind; cycle 1.
    { refine (alloc_ok _ _ _ _). cbn [script]. reflexivity. }
    cbn [heap script].
    erewrite run_bind; cycle 1.
    { refine (modify_sim_ok _ sp _ _ _). cbn [heap].
      rewrite lookup_insert_ne; [apply lookup_insert_eq|].
      intros Heq.
      pose proof (fresh_unused
        (<[sp:=BSim (set_num_envs (cfg_num_envs cfg)
                       (set_model_ref (Some ma) zero_sim))]> (heap w))) as Hf.
      rewrite Heq, lookup_insert_eq in Hf. done. }
    cbn [heap script]. reflexivity.
  - set (h3 := <[sp:=BSim (set_num_envs (cfg_num_envs cfg)
                            (set_model_ref (Some ma) zero_sim))]> (heap w)).
    pose proof (fresh_unused h3) as Hf.
    set (da := fresh (dom h3)) in *.
    assert (da ≠ sp) as Hdasp.
    { intros Heq. unfold h3 in Hf. rewrite Heq, lookup_insert_eq in Hf. done. }
    assert (heap w !! da = None) as Hda0.
    { unfold h3 in Hf. by rewrite lookup_insert_ne in Hf. }
    split; [split|]; cbn [heap script].
    + apply lookup_insert_eq.
    + rewrite lookup_insert_ne by done. rewrite lookup_insert_eq.
      rewrite size_t_of_small by (unfold INT_MAX in *; lia). done.
    + unfold h3. rewrite !lookup_insert_ne by congruence. done.
    + simpl. lia.
    + apply NoDup_nil_2.
    + intros a Ha. by apply elem_of_nil in Ha.
    + intros a Ha. rewrite !elem_of_cons, elem_of_nil in Ha.
      destruct Ha as [->|[->|[]]]; done.
    + intros a Ha. rewrite !elem_of_cons, elem_of_nil in Ha.
      assert (sp ≠ a ∧ da ≠ a) as [? ?] by (split; intros <-; tauto).
      unfold h3. rewrite !lookup_insert_ne by done. done.
    + done.
Qed.

(** C6: whenever the model handle is null or holds no model, or the
    number of environments asked for is not positive, or the engine
    refuses one of the per-slot states, pool creation returns the null
    pool; it then leaves in memory exactly the blocks that were there
    before the call, so that the states made before a refusal, the
    pointer array and the header have all been released and no part of
    a pool is left. *)
Theorem batched_create_fails_cleanly w model cfg :
  failure_cause w model cfg →
  ∃ w', mjaccess_batched_create createDefaultState model (Some cfg) w
        = Ok None w' ∧
        heap w' = heap w.
Proof.
  intros [cfg0 | hm cfg0 Hhm | hm am cfg0 Hhm Hne
          | hm ma m cfg0 k t Hhm Hm Hne Hk Hsc Ht].
  - by exists w.
  - exists w. split; [|done]. unfold mjaccess_batched_create.
    by rewrite (run_bind _ _ _ _ _ (load_access_model_ok _ _ _ Hhm)).
  - exists w. split; [|done]. unfold mjaccess_batched_create.
    rewrite (run_bind _ _ _ _ _ (load_access_model_ok _ _ _ Hhm)).
    destruct (am_mj am); [|done].
    by destruct (Z.leb_spec (cfg_num_envs cfg0) 0); [|lia].
  - destruct (create_prologue w hm ma m cfg0 _ Hhm Hm Hne Hsc)
      as (sp & da & w3 & Hrun & Hb & Hsc3).
    exists (MkWorld (heap w) (tail t)). split; [|done].
    rewrite Hrun. unfold create_rest.
    by rewrite (run_bind _ _ _ _ _
      (create_envs_fails _ _ _ _ _ _ _ _ [] k t Hb Hk Hsc3 Ht)).
Qed.

(** *** The shared model under the batched operations *)

Lemma bind_inv {A B} (c : M mjtNum mjModelExtra mjDataExtra A)
    (k : A → M mjtNum mjModelExtra mjDataExtra B) w x w' :
  bind c k w = Ok x w' → ∃ y w1, c w = Ok y w1 ∧ k y w1 = Ok x w'.
Proof. unfold bind. destruct (c w) as [y w1|]; [|done]. eauto. Qed.

Lemma ret_inv {A} (x y : A) w w' :
  ret (mjtNum:=mjtNum) (mjModelExtra:=mjModelExtra) (mjDataExtra:=mjDataExtra)
    x w = Ok y w' → y = x ∧ w' = w.
Proof. by intros [= -> ->]. Qed.

Lemma lift_inv {A} (o : option A) w x w' :
  lift (mjtNum:=mjtNum) (mjModelExtra:=mjModelExtra) (mjDataExtra:=mjDataExtra)
    o w = Ok x w' → o = Some x ∧ w' = w.
Proof. destruct o; [|done]. by intros [= -> ->]. Qed.

Lemma load_inv p w (b : Block) w' :
  load p w = Ok b w' → w' = w ∧ ∃ a, p = Some a ∧ heap w !! a = Some b.
Proof.
  unfold load. destruct p as [a|]; [|done].
  destruct (heap w !! a) eqn:Ha; [|done]. intros [= -> ->]. eauto.
Qed.

Lemma load_data_inv p w d w' :
  load_data p w = Ok d w' →
  w' = w ∧ ∃ a, p = Some a ∧ heap w !! a = Some (BData d).
Proof.
  unfold load_data. intros (b & w1 & (-> & a & -> & Ha)%load_inv & Hk)%bind_inv.
  destruct b; try done. apply ret_inv in Hk as [-> ->]. eauto.
Qed.

Lemma load_model_inv p w m w' :
  load_model p w = Ok m w' →
  w' = w ∧ ∃ a, p = Some a ∧ heap w !! a = Some (BModel m).
Proof.
  unfold load_model. intros (b & w1 & (-> & a & -> & Ha)%load_inv & Hk)%bind_inv.
  destruct b; try done. apply ret_inv in Hk as [-> ->]. eauto.
Qed.

Lemma load_sim_inv p w s w' :
  load_sim p w = Ok s w' →
  w' = w ∧ ∃ a, p = Some a ∧ heap w !! a = Some (BSim s).
Proof.
  unfold load_sim. intros (b & w1 & (-> & a & -> & Ha)%load_inv & Hk)%bind_inv.
  destruct b; try done. apply ret_inv in Hk as [-> ->]. eauto.
Qed.

Lemma load_ptrs_inv p w l w' :
  load_ptrs p w = Ok l w' →
  w' = w ∧ ∃ a, p = Some a ∧ heap w !! a = Some (BPtrs l).
Proof.
  unfold load_ptrs. intros (b & w1 & (-> & a & -> & Ha)%load_inv & Hk)%bind_inv.
  destruct b; try done. apply ret_inv in Hk as [-> ->]. eauto.
Qed.

Lemma load_buf_inv p w l w' :
  load_buf p w = Ok l w' →
  w' = w ∧ ∃ a, p = Some a ∧ heap w !! a = Some (BBuf l).
Proof.
  unfold load_buf. intros (b & w1 & (-> & a & -> & Ha)%load_inv & Hk)%bind_inv.
  destruct b; try done. apply ret_inv in Hk as [-> ->]. eauto.
Qed.

Lemma store_inv p (b : Block) w u w' :
  store p b w = Ok u w' →
  ∃ a b0, p = Some a ∧ heap w !! a = Some b0 ∧
          w' = MkWorld (<[a:=b]> (heap w)) (script w).
Proof.
  unfold store. destruct p as [a|]; [|done].
  destruct (heap w !! a) as [b0|] eqn:Ha; [|done]. intros [= _ <-]. eauto.
Qed.

Lemma datas_at_inv sim i w p w' : datas_at sim i w = Ok p w' → w' = w.
Proof.
  unfold datas_at.
  intros (s & w1 & [-> _]%load_sim_inv & (l & w2 & [-> _]%load_ptrs_inv
            & [_ ->]%lift_inv)%bind_inv)%bind_inv.
  done.
Qed.

Lemma models_kept_refl w : models_kept w w.
Proof. by intros a m. Qed.

Lemma models_kept_trans w1 w2 w3 :
  models_kept w1 w2 → models_kept w2 w3 → models_kept w1 w3.
Proof. intros H1 H2 a m Ha. by apply H2, H1. Qed.

(** Overwriting a block that is not a model keeps the models. *)
Lemma models_kept_store w a (b b0 : Block) sc :
  heap w !! a = Some b0 → (∀ m, b0 ≠ BModel m) →
  models_kept w (MkWorld (<[a:=b]> (heap w)) sc).
Proof.
  intros Ha Hb x m Hx. simpl.
  rewrite lookup_insert_ne; [done|]. intros <-. apply (Hb m). congruence.
Qed.

Lemma models_kept_alloc w (b : Block) p w' :
  alloc b w = Ok p w' → models_kept w w'.
Proof.
  unfold alloc. destruct (script w) as [|[] sc]; intros [= <- <-].
  - apply models_kept_refl.
  - intros a m Ha. cbn [heap]. rewrite lookup_insert_ne; [done|].
    intros <-. by rewrite fresh_unused in Ha.
  - by intros a m Ha.
Qed.

Lemma for_each_keeps {X} (body : X → M mjtNum mjModelExtra mjDataExtra unit) l :
  (∀ i w u w', body i w = Ok u w' → models_kept w w') →
  ∀ w u w', for_each l body w = Ok u w' → models_kept w w'.
Proof.
  intros Hbody. induction l as [|i l IH]; intros w u w' Hrun; simpl in Hrun.
  - apply ret_inv in Hrun as [_ ->]. apply models_kept_refl.
  - apply bind_inv in Hrun as (u1 & w1 & H1 & H2).
    eapply models_kept_trans; eauto.
Qed.

Lemma mj_step_keeps pm pd w u w' :
  mj_step advanceOneStep pm pd w = Ok u w' → models_kept w w'.
Proof.
  unfold mj_step.
  intros (m & ? & [-> _]%load_model_inv
          & (d & ? & (-> & a & -> & Ha)%load_data_inv & Hst)%bind_inv)%bind_inv.
  apply store_inv in Hst as (a' & b0 & [= <-] & _ & ->).
  by eapply models_kept_store.
Qed.

Lemma mj_resetData_keeps pm pd w u w' :
  mj_resetData resetToDefault pm pd w = Ok u w' → models_kept w w'.
Proof.
  unfold mj_resetData.
  intros (m & ? & [-> _]%load_model_inv
          & (d & ? & (-> & a & -> & Ha)%load_data_inv & Hst)%bind_inv)%bind_inv.
  apply store_inv in Hst as (a' & b0 & [= <-] & _ & ->).
  by eapply models_kept_store.
Qed.

Lemma step_task_keeps sim pm nu_ cb i w u w' :
  step_task advanceOneStep sim pm nu_ cb i w = Ok u w' → models_kept w w'.
Proof.
  unfold step_task.
  intros (p & ? & ->%datas_at_inv
          & (d & ? & (-> & a & -> & Ha)%load_data_inv
          & (c & ? & [_ ->]%lift_inv
          & (? & w1 & Hst & Hstep)%bind_inv)%bind_inv)%bind_inv)%bind_inv.
  apply store_inv in Hst as (a' & b0 & [= <-] & _ & ->).
  eapply models_kept_trans; [by eapply models_kept_store|].
  by eapply mj_step_keeps.
Qed.

Lemma batched_step_keeps sched sim ctrl_in w u w' :
  mjaccess_batched_step_with advanceOneStep sched sim ctrl_in w = Ok u w' →
  models_kept w w'.
Proof.
  unfold mjaccess_batched_step_with.
  destruct sim as [sp|]; [|intros [_ ->]%ret_inv; apply models_kept_refl].
  destruct ctrl_in as [cb|]; [|intros [_ ->]%ret_inv; apply models_kept_refl].
  intros (s & ? & [-> _]%load_sim_inv
          & (m & ? & [-> _]%load_model_inv & Hloop)%bind_inv)%bind_inv.
  unfold dispatch_apply in Hloop.
  eapply for_each_keeps; [|exact Hloop].
  intros i w0 u0 w0'. apply step_task_keeps.
Qed.

Lemma batched_reset_keeps sim mask w u w' :
  mjaccess_batched_reset resetToDefault sim mask w = Ok u w' →
  models_kept w w'.
Proof.
  unfold mjaccess_batched_reset.
  destruct sim as [sp|]; [|intros [_ ->]%ret_inv; apply models_kept_refl].
  destruct mask as [mask|]; [|intros [_ ->]%ret_inv; apply models_kept_refl].
  intros (s & ? & [-> _]%load_sim_inv & Hloop)%bind_inv.
  eapply for_each_keeps; [|exact Hloop].
  intros i w0 u0 w0' (b & ? & [_ ->]%lift_inv & Hk)%bind_inv.
  destruct (b =? 0)%Z.
  - apply ret_inv in Hk as [_ ->]. apply models_kept_refl.
  - apply bind_inv in Hk as (p & ? & ->%datas_at_inv & Hr).
    by eapply mj_resetData_keeps.
Qed.

Lemma gather_task_keeps f sim buf per_env i w u w' :
  gather_task f sim buf per_env i w = Ok u w' → models_kept w w'.
Proof.
  unfold gather_task.
  intros (p & ? & ->%datas_at_inv
          & (d & ? & [-> _]%load_data_inv
          & (cells & ? & (-> & a & -> & Ha)%load_buf_inv
          & (off & ? & [_ ->]%lift_inv
          & (c & ? & [_ ->]%lift_inv & Hst)%bind_inv)%bind_inv)%bind_inv)%bind_inv)%bind_inv.
  apply store_inv in Hst as (a' & b0 & [= <-] & _ & ->).
  by eapply models_kept_store.
Qed.

Lemma batched_gather_keeps f sim n_out w r w' :
  BATCHED_GATHER f sim n_out w = Ok r w' → models_kept w w'.
Proof.
  unfold BATCHED_GATHER.
  destruct sim as [sp|]; [|intros [_ ->]%ret_inv; apply models_kept_refl].
  intros (s & ? & [-> _]%load_sim_inv
          & (m & ? & [-> _]%load_model_inv
          & (? & w1 & Hloop & [_ ->]%ret_inv)%bind_inv)%bind_inv)%bind_inv.
  eapply for_each_keeps; [|exact Hloop].
  intros i w0 u0 w0'. apply gather_task_keeps.
Qed.

Lemma batched_set_env_qpos_keeps sim i vals n w u w' :
  mjaccess_batched_set_env_qpos sim i vals n w = Ok u w' → models_kept w w'.
Proof.
  unfold mjaccess_batched_set_env_qpos.
  destruct sim as [sp|]; [|intros [_ ->]%ret_inv; apply models_kept_refl].
  destruct vals as [vals|]; [|intros [_ ->]%ret_inv; apply models_kept_refl].
  destruct (i <? 0)%Z; [intros [_ ->]%ret_inv; apply models_kept_refl|].
  intros (s & ? & [-> _]%load_sim_inv & Hk)%bind_inv.
  destruct (num_envs s <=? i)%Z;
    [apply ret_inv in Hk as [_ ->]; apply models_kept_refl|].
  apply bind_inv in Hk as (p & ? & ->%datas_at_inv
          & (d & ? & (-> & a & -> & Ha)%load_data_inv
          & (c & ? & [_ ->]%lift_inv & Hst)%bind_inv)%bind_inv).
  apply store_inv in Hst as (a' & b0 & [= <-] & _ & ->).
  by eapply models_kept_store.
Qed.

Lemma batched_set_env_qvel_keeps sim i vals n w u w' :
  mjaccess_batched_set_env_qvel sim i vals n w = Ok u w' → models_kept w w'.
Proof.
  unfold mjaccess_batched_set_env_qvel.
  destruct sim as [sp|]; [|intros [_ ->]%ret_inv; apply models_kept_refl].
  destruct vals as [vals|]; [|intros [_ ->]%ret_inv; apply models_kept_refl].
  destruct (i <? 0)%Z; [intros [_ ->]%ret_inv; apply models_kept_refl|].
  intros (s & ? & [-> _]%load_sim_inv & Hk)%bind_inv.
  destruct (num_envs s <=? i)%Z;
    [apply ret_inv in Hk as [_ ->]; apply models_kept_refl|].
  apply bind_inv in Hk as (p & ? & ->%datas_at_inv
          & (d & ? & (-> & a & -> & Ha)%load_data_inv
          & (c & ? & [_ ->]%lift_inv & Hst)%bind_inv)%bind_inv).
  apply store_inv in Hst as (a' & b0 & [= <-] & _ & ->).
  by eapply models_kept_store.
Qed.

Lemma omap_id_some (l : list positive) : omap id (Some <$> l) = l.
Proof. induction l; simpl; [done | by f_equal]. Qed.

(** Destroying a well-formed pool succeeds and releases exactly the
    states of the slots, the pointer array, the gather buffers and the
    header. *)
Lemma batched_free_pool w sp s ma m slots ds :
  pool_at w sp s ma m slots ds → buffers_owned w s →
  ∃ da, datas s = Some da ∧
    mjaccess_batched_free (Some sp) w
    = Ok tt (MkWorld (remove_all (slots ++ da :: buffers_of s ++ [sp]) (heap w))
                     (script w)).
Proof.
  intros Hp Hb. destruct (pool_ptrs _ _ _ _ _ _ _ Hp) as (da & Hda & Hl).
  exists da. split; [done|].
  rewrite (batched_free_ok w sp s da (Some <$> slots)); try done.
  - by rewrite omap_id_some.
  - apply Hp.
  - rewrite length_fmap, (pool_num_envs _ _ _ _ _ _ _ Hp). lia.
  - rewrite omap_id_some. apply Hp.
  - intros a Ha. apply list_elem_of_fmap in Ha as (a' & [= <-] & Ha').
    apply list_elem_of_lookup in Ha' as [i Hi].
    destruct (pool_at_slot _ _ _ _ _ _ _ _ _ Hp Hi) as (d & _ & Hd). eauto.
Qed.

Lemma batched_free_keeps w sp s ma m slots ds u w' :
  pool_at w sp s ma m slots ds → buffers_owned w s →
  mjaccess_batched_free (Some sp) w = Ok u w' → models_kept w w'.
Proof.
  intros Hp Hb Hrun.
  destruct (batched_free_pool w sp s ma m slots ds Hp Hb) as (da & Hda & Hfree).
  rewrite Hfree in Hrun. injection Hrun as _ <-.
  intros a m0 Ha. simpl. rewrite lookup_remove_all, decide_False; [done|].
  rewrite elem_of_app, elem_of_cons, elem_of_app, list_elem_of_singleton.
  intros [Hin|[->|[Hin| ->]]].
  - apply list_elem_of_lookup in Hin as [i Hi].
    destruct (pool_at_slot _ _ _ _ _ _ _ _ _ Hp Hi) as (d & _ & Hd). congruence.
  - destruct (pool_ptrs _ _ _ _ _ _ _ Hp) as (da' & Hda' & Hl). congruence.
  - apply list_elem_of_omap in Hin as (f & _ & Hf).
    destruct (proj2 Hb f a Hf). congruence.
  - pose proof (pool_sim _ _ _ _ _ _ _ Hp). congruence.
Qed.

Lemma script_cases (sc : list bool) n :
  (∃ rest, sc = replicate n true ++ rest) ∨
  (∃ k t, k < n ∧ sc = replicate k true ++ t ∧ (t = [] ∨ ∃ t', t = false :: t')).
Proof.
  revert sc. induction n as [|n IH]; intros sc.
  - left. by exists sc.
  - destruct sc as [|[] sc].
    + right. exists 0, []. split; [lia|]. split; [done | by left].
    + destruct (IH sc) as [[rest ->]|(k & t & Hk & -> & Ht)].
      * left. by exists rest.
      * right. exists (S k), t. split; [lia|]. by split.
    + right. exists 0, (false :: sc). split; [lia|]. split; [done|]. right. eauto.
Qed.

Lemma alloc_keeps_blocks w (b : Block) p w' :
  alloc b w = Ok p w' → ∀ a x, heap w !! a = Some x → heap w' !! a = Some x.
Proof.
  unfold alloc. destruct (script w) as [|[] sc]; intros [= <- <-] a x Ha; try done.
  cbn [heap]. rewrite lookup_insert_ne; [done|].
  intros <-. by rewrite fresh_unused in Ha.
Qed.

(** Without a pool header the very first store of creation goes through
    the null pointer. *)
Lemma create_header_refused w hm ma cfg t :
  heap w !! hm = Some (BAccessModel (MkAccessModel (Some ma))) →
  (0 < cfg_num_envs cfg)%Z →
  script w = t → (t = [] ∨ ∃ t', t = false :: t') →
  mjaccess_batched_create createDefaultState (Some hm) (Some cfg) w = Fault.
Proof.
  intros Hhm Hne Hsc Ht. unfold mjaccess_batched_create.
  rewrite (run_bind _ _ _ _ _ (load_access_model_ok _ _ _ Hhm)). cbn [am_mj].
  destruct (Z.leb_spec (cfg_num_envs cfg) 0) as [?|_]; [lia|].
  by rewrite (run_bind _ _ _ _ _ (alloc_refused _ _ _ Hsc Ht)).
Qed.

(** Without a pointer array the first entry of a slot goes through the
    null pointer. *)
Lemma create_array_refused w hm ma m cfg t :
  heap w !! hm = Some (BAccessModel (MkAccessModel (Some ma))) →
  heap w !! ma = Some (BModel m) →
  (0 < cfg_num_envs cfg)%Z →
  script w = true :: t → (t = [] ∨ ∃ t', t = false :: t') →
  mjaccess_batched_create createDefaultState (Some hm) (Some cfg) w = Fault.
Proof.
  intros Hhm Hm Hne Hsc Ht.
  pose proof (fresh_unused (heap w)) as Hfresh.
  set (sp := fresh (dom (heap w))) in *.
  unfold mjaccess_batched_create.
  rewrite (run_bind _ _ _ _ _ (load_access_model_ok _ _ _ Hhm)). cbn [am_mj].
  destruct (Z.leb_spec (cfg_num_envs cfg) 0) as [?|_]; [lia|].
  rewrite (run_bind _ _ _ _ _ (alloc_ok _ _ _ Hsc)). fold sp.
  erewrite run_bind; cycle 1.
  { refine (modify_sim_ok _ sp _ _ _). cbn [heap]. apply lookup_insert_eq. }
  cbn [heap script]. rewrite insert_insert_eq.
  erewrite run_bind; cycle 1.
  { refine (modify_sim_ok _ sp _ _ _). cbn [heap]. apply lookup_insert_eq. }
  cbn [heap script]. rewrite insert_insert_eq.
  erewrite run_bind; cycle 1.
  { refine (alloc_refused _ _ _ _ Ht). cbn [script]. reflexivity. }
  cbn [heap script].
  erewrite run_bind; cycle 1.
  { refine (modify_sim_ok _ sp _ _ _). cbn [heap]. apply lookup_insert_eq. }
  cbn [heap script]. rewrite insert_insert_eq.
  destruct (Z.to_nat (cfg_num_envs cfg)) as [|n] eqn:Hn; [lia|].
  apply run_bind_fault. cbn [create_envs].
  unfold bind at 1.
  destruct (mj_makeData _ _ _) as [d w4|] eqn:Hmk; [|done].
  apply run_bind_fault.
  unfold mj_makeData in Hmk.
  apply bind_inv in Hmk as (mm & ? & [-> _]%load_model_inv & Hal).
  pose proof (alloc_keeps_blocks _ _ _ _ Hal sp _ (lookup_insert_eq _ _ _)) as Hsp.
  unfold set_datas_at.
  by rewrite (run_bind _ _ _ _ _ (load_sim_ok _ _ _ Hsp)).
Qed.

Lemma alloc_gather_buffers_keeps sim mj ne w u w' :
  alloc_gather_buffers sim mj ne w = Ok u w' → models_kept w w'.
Proof.
  unfold alloc_gather_buffers. apply for_each_keeps.
  intros f w0 u0 w0' (mm & ? & [-> _]%load_model_inv
     & (b & w1 & Hal & Hmod)%bind_inv)%bind_inv.
  eapply models_kept_trans; [by eapply models_kept_alloc|].
  unfold modify_sim in Hmod.
  apply bind_inv in Hmod as (s & ? & (-> & a & -> & Ha)%load_sim_inv & Hst).
  apply store_inv in Hst as (a' & b0 & [= <-] & _ & ->).
  by eapply models_kept_store.
Qed.

(** What is left of creation once every slot is made: the override of
    the solver iterations, when asked for, is the one write to the
    model. *)
Lemma create_tail_keeps sp ma m cfg w r w' :
  heap w !! ma = Some (BModel m) →
  bind (if (0 <? solver_iterations cfg)%Z
        then bind (load_model (Some ma)) (λ mm,
               store (Some ma)
                 (BModel (set_opt_iterations (solver_iterations cfg) mm)))
        else ret tt)
    (λ _, bind (alloc_gather_buffers (Some sp) (Some ma) (cfg_num_envs cfg))
            (λ _, ret (Some sp))) w = Ok r w' →
  r = Some sp ∧
  (∀ a m', a ≠ ma → heap w !! a = Some (BModel m') →
           heap w' !! a = Some (BModel m')) ∧
  heap w' !! ma
  = Some (BModel (if (0 <? solver_iterations cfg)%Z
                  then set_opt_iterations (solver_iterations cfg) m else m)).
Proof.
  intros Hm (? & w1 & Hov & (? & w2 & Hbufs & [-> ->]%ret_inv)%bind_inv)%bind_inv.
  apply alloc_gather_buffers_keeps in Hbufs.
  split; [done|].
  destruct (0 <? solver_iterations cfg)%Z.
  - apply bind_inv in Hov as (mm & ? & (-> & a & [= <-] & Ha)%load_model_inv & Hst).
    assert (mm = m) as -> by congruence.
    apply store_inv in Hst as (a' & b0 & [= <-] & _ & ->).
    split.
    + intros a m' Hne Ha'. apply Hbufs. cbn [heap]. by rewrite lookup_insert_ne.
    + apply Hbufs. cbn [heap]. apply lookup_insert_eq.
  - apply ret_inv in Hov as [_ ->]. split; [|by apply Hbufs].
    intros a m' _ Ha'. by apply Hbufs.
Qed.

(** Creation writes to the shared model only to override the solver
    iterations, and only when it returns a pool. *)
Lemma batched_create_keeps w hm ma m cfg r w' :
  heap w !! hm = Some (BAccessModel (MkAccessModel (Some ma))) →
  heap w !! ma = Some (BModel m) →
  (cfg_num_envs cfg ≤ INT_MAX)%Z →
  mjaccess_batched_create createDefaultState (Some hm) (Some cfg) w = Ok r w' →
  (∀ a m', a ≠ ma → heap w !! a = Some (BModel m') →
           heap w' !! a = Some (BModel m')) ∧
  heap w' !! ma
  = Some (BModel (if bool_decide (r ≠ None) && (0 <? solver_iterations cfg)%Z
                  then set_opt_iterations (solver_iterations cfg) m else m)).
Proof.
  intros Hhm Hm Hint Hrun.
  destruct (Z.leb_spec (cfg_num_envs cfg) 0) as [Hle|Hpos].
  { unfold mjaccess_batched_create in Hrun.
    rewrite (run_bind _ _ _ _ _ (load_access_model_ok _ _ _ Hhm)) in Hrun.
    cbn [am_mj] in Hrun.
    destruct (Z.leb_spec (cfg_num_envs cfg) 0) as [_|?]; [|lia].
    apply ret_inv in Hrun as [-> ->]. by split. }
  destruct (script w) as [|[] [|[] rest]] eqn:Hsc.
  - rewrite (create_header_refused w hm ma cfg _ Hhm Hpos Hsc) in Hrun;
      [done | by left].
  - rewrite (create_array_refused w hm ma m cfg _ Hhm Hm Hpos Hsc) in Hrun;
      [done | by left].
  - destruct (create_prologue w hm ma m cfg rest Hhm Hm) as
      (sp & da & w3 & Hpro & Hb & Hsc3); [lia | done |].
    rewrite Hpro in Hrun. unfold create_rest in Hrun.
    destruct (script_cases rest (Z.to_nat (cfg_num_envs cfg)))
      as [[rest' ->]|(k & t & Hk & -> & Ht)].
    + destruct (create_envs_succeeds _ _ _ _ _ _ _ _ [] _ Hb Hsc3)
        as (w4 & made' & Hloop & Hb4 & Hsc4).
      rewrite (run_bind _ _ _ _ _ Hloop) in Hrun.
      destruct Hb4 as [Hs4 Hp4 Hm4 _ _ _ Hnew4 Hold4].
      assert (∀ a m', heap w !! a = Some (BModel m') →
                      heap w4 !! a = Some (BModel m')) as Hkept.
      { intros a m' Ha. rewrite Hold4; [done|]. intros Hin.
        rewrite (Hnew4 _ Hin) in Ha. done. }
      destruct (create_tail_keeps sp ma m cfg w4 r w' Hm4 Hrun)
        as (-> & Hothers & Hma).
      split.
      * intros a m' Hne Ha. by apply Hothers, Hkept.
      * rewrite Hma. by rewrite bool_decide_eq_true_2.
    + rewrite (run_bind _ _ _ _ _
        (create_envs_fails _ _ _ _ _ _ _ _ [] k t Hb Hk Hsc3 Ht)) in Hrun.
      apply ret_inv in Hrun as [-> ->]. by split.
  - rewrite (create_array_refused w hm ma m cfg _ Hhm Hm Hpos Hsc) in Hrun;
      [done | right; eauto].
  - rewrite (create_header_refused w hm ma cfg _ Hhm Hpos Hsc) in Hrun;
      [done | right; eauto].
- rewrite (create_header_refused w hm ma cfg _ Hhm Hpos Hsc) in Hrun;
      [done | right; eauto].
  - rewrite (create_header_refused w hm ma cfg _ Hhm Hpos Hsc) in Hrun;
      [done | right; eauto].
Qed.

(** *** What creation sets up *)

Lemma all_fields_full f : f ∈ all_fields.
Proof. destruct f; apply (bool_decide_unpack _); by vm_compute. Qed.

Lemma buf_field_set_eq f v s : buf_field f (set_buf_field f v s) = v.
Proof. by destruct f. Qed.

Lemma int_mul_exact (x y : Z) :
  (0 ≤ x)%Z → (0 ≤ y)%Z → (x * y ≤ INT_MAX)%Z → int_mul x y = (x * y)%Z.
Proof. intros Ha Hb Hab. apply int_mul_small. split; [nia | done]. Qed.

Lemma int_mul3_exact (x y z : Z) :
  (0 ≤ x)%Z → (0 ≤ y)%Z → (0 < z)%Z → (x * (y * z) ≤ INT_MAX)%Z →
  int_mul (int_mul x y) z = (x * (y * z))%Z.
Proof.
  intros Ha Hb Hc Habc.
  rewrite (int_mul_exact x y) by nia.
  rewrite int_mul_exact by nia. ring.
Qed.

Lemma buf_alloc_exact f ne m :
  model_ok m → (0 ≤ ne)%Z → (ne * field_dim f m ≤ INT_MAX)%Z →
  double_count (buf_alloc_expr f ne m) = Z.to_nat ne * Z.to_nat (field_dim f m).
Proof.
  intros (Hq & Hv & Hu & Hb) Hne Hfit.
  assert (0 ≤ field_dim f m)%Z as Hdim by (destruct f; simpl; lia).
  assert (buf_alloc_expr f ne m = ne * field_dim f m)%Z as ->.
  { destruct f; cbn [buf_alloc_expr field_dim] in *;
      first [ apply int_mul_exact; lia | apply int_mul3_exact; lia ]. }
  rewrite double_count_small by nia. nia.
Qed.

Lemma data_ok_iterations v m d : data_ok m d → data_ok (set_opt_iterations v m) d.
Proof. intros [Hc Hf]. split; [done|]. intros f. specialize (Hf f). by destruct f. Qed.

(** The loop that allocates the gather buffers, all requests served. *)
Lemma alloc_gather_buffers_ok w sp s0 ma m ne rest :
  heap w !! sp = Some (BSim s0) → (∀ f, buf_field f s0 = None) →
  heap w !! ma = Some (BModel m) →
  script w = replicate (length all_fields) true ++ rest →
  ∃ w' s,
    alloc_gather_buffers (Some sp) (Some ma) ne w = Ok tt w' ∧
    script w' = rest ∧
    heap w' !! sp = Some (BSim s) ∧
    model_ref s = model_ref s0 ∧ num_envs s = num_envs s0 ∧ datas s = datas s0 ∧
    NoDup (buffers_of s) ∧
    (∀ f, ∃ b, buf_field f s = Some b ∧
               heap w' !! b
               = Some (BBuf (replicate (double_count (buf_alloc_expr f ne m)) None))) ∧
    (∀ b, b ∈ buffers_of s → heap w !! b = None) ∧
    (∀ a, a ≠ sp → a ∉ buffers_of s → heap w' !! a = heap w !! a).
Proof.
  clear advanceOneStep resetToDefault createDefaultState.
  intros Hs Hnone Hm Hsc.
  assert (sp ≠ ma) as Hspma by congruence.
  destruct (for_each_invariant
    (λ pre w',
       script w' = replicate (length all_fields - length pre) true ++ rest ∧
       ∃ s, heap w' !! sp = Some (BSim s) ∧
            model_ref s = model_ref s0 ∧ num_envs s = num_envs s0 ∧
            datas s = datas s0 ∧
            NoDup (omap (λ f, buf_field f s) pre) ∧
            (∀ f, f ∉ pre → buf_field f s = None) ∧
            (∀ f, f ∈ pre → ∃ b, buf_field f s = Some b ∧
               heap w' !! b
               = Some (BBuf (replicate (double_count (buf_alloc_expr f ne m)) None))) ∧
            (∀ b, b ∈ omap (λ f, buf_field f s) pre → heap w !! b = None) ∧
            (∀ a, a ≠ sp → a ∉ omap (λ f, buf_field f s) pre →
                  heap w' !! a = heap w !! a))
    (λ f, bind (load_model (Some ma)) (λ mm,
            bind (alloc (BBuf (replicate (double_count (buf_alloc_expr f ne mm)) None)))
              (λ b, modify_sim (Some sp) (set_buf_field f b))))
    all_fields w)
    as (w' & Hrun & Hsc' & s & Hs' & Hr & Hn & Hd & Hnd & _ & Hb & Hnew & Hfr).
  - split; [by rewrite Nat.sub_0_r|]. exists s0. repeat split; try done.
    + apply NoDup_nil_2.
    + intros f Hf. by apply elem_of_nil in Hf.
    + intros b Hb. by apply elem_of_nil in Hb.
  - intros pre f post w1 Hsplit
      (Hsc1 & s & Hs1 & Hr & Hn & Hd & Hnd & Hout & Hin & Hnew & Hfr).
    assert (NoDup (pre ++ f :: post)) as Hfields
      by (rewrite <- Hsplit; apply all_fields_nodup).
    apply NoDup_app in Hfields as (_ & Hdisj & [Hfpost _]%NoDup_cons).
    assert (f ∉ pre) as Hfpre by (intros Hf; apply (Hdisj f Hf); by left).
    assert (length all_fields - length pre
            = S (length all_fields - length (pre ++ [f]))) as Hcount.
    { rewrite Hsplit, !length_app. simpl. lia. }
    rewrite Hcount in Hsc1. simpl in Hsc1.
    pose proof (fresh_unused (heap w1)) as Hfresh.
    set (b := fresh (dom (heap w1))) in *.
    assert (b ≠ sp) as Hbsp by congruence.
    assert (b ∉ omap (λ f0, buf_field f0 s) pre) as Hbpre.
    { intros Hx. apply list_elem_of_omap in Hx as (f' & Hf' & Hbf').
      destruct (Hin f' Hf') as (b' & Hb' & Hc'). congruence. }
    assert (heap w !! b = None) as Hbw by (by rewrite <- Hfr).
    assert (heap w1 !! ma = Some (BModel m)) as Hm1.
    { rewrite Hfr; [done | congruence |].
      intros Hx. apply Hnew in Hx. congruence. }
    assert (omap (λ f0, buf_field f0 (set_buf_field f (Some b) s)) pre
            = omap (λ f0, buf_field f0 s) pre) as Hsame.
    { apply list_omap_ext. apply Forall2_same_length_lookup. split; [done|].
      intros i x y Hx Hy. assert (x = y) as -> by congruence.
      apply buf_field_set_ne. intros ->. apply Hfpre.
      by eapply list_elem_of_lookup_2. }
    assert (omap (λ f0, buf_field f0 (set_buf_field f (Some b) s)) (pre ++ [f])
            = omap (λ f0, buf_field f0 s) pre ++ [b]) as Hall.
    { rewrite omap_app, Hsame. simpl. by rewrite buf_field_set_eq. }
    eexists. split.
    { rewrite (run_bind _ _ _ _ _ (load_model_ok _ _ _ Hm1)).
      rewrite (run_bind _ _ _ _ _ (alloc_ok _ _ _ Hsc1)). fold b.
      refine (modify_sim_ok _ sp s _ _). cbn [heap].
      by rewrite lookup_insert_ne. }
    cbn [heap script]. split; [done|].
    exists (set_buf_field f (Some b) s).
    split; [apply lookup_insert_eq|].
    split; [done|]. split; [done|]. split; [done|].
    rewrite Hall. split; [|split; [|split; [|split]]].
    + apply NoDup_app. split; [done|]. split; [|apply NoDup_singleton].
      by intros x Hx ->%list_elem_of_singleton.
    + intros f' Hf'. rewrite buf_field_set_ne; [apply Hout|].
      * intros Hin'. apply Hf', elem_of_app. by left.
      * intros ->. apply Hf', elem_of_app. right. by left.
    + intros f' [Hf'| ->%list_elem_of_singleton]%elem_of_app.
      * destruct (Hin f' Hf') as (b' & Hb' & Hc').
        exists b'. rewrite buf_field_set_ne by (intros ->; done).
        split; [done|].
        rewrite lookup_insert_ne by (intros <-; congruence).
        rewrite lookup_insert_ne by (intros <-; congruence). done.
      * exists b. rewrite buf_field_set_eq. split; [done|].
        rewrite lookup_insert_ne by done. apply lookup_insert_eq.
    + intros x [Hx| ->%list_elem_of_singleton]%elem_of_app; [by apply Hnew | done].
    + intros a Ha Hnot. rewrite lookup_insert_ne by done.
      rewrite lookup_insert_ne.
      * apply Hfr; [done|]. intros Hx. apply Hnot, elem_of_app. by left.
      * intros <-. apply Hnot, elem_of_app. right. by left.
  - exists w', s. unfold alloc_gather_buffers. split; [exact Hrun|].
    rewrite Nat.sub_diag in Hsc'. split; [done|].
    split; [done|]. split; [done|]. split; [done|]. split; [done|].
    split; [exact Hnd|]. split; [|split; [exact Hnew | exact Hfr]].
    intros f. apply Hb, all_fields_full.
Qed.

Lemma elem_of_pool_blocks a (slots : list positive) da bufs sp :
  a ∈ slots ++ da :: bufs ++ [sp] ↔ a ∈ slots ∨ a = da ∨ a ∈ bufs ∨ a = sp.
Proof.
  rewrite elem_of_app, elem_of_cons, elem_of_app, list_elem_of_singleton. tauto.
Qed.

Section Reachability.

(** The engine makes states of the sizes the model gives. *)
Hypothesis default_has_sizes :
  ∀ m, model_ok m → data_ok m (createDefaultState m).

(** With every allocation served, creation returns a pool of the shape
    the other operations work on: the states are the engine's default
    ones, the model carries the override, the gather buffers are in
    place. *)
Lemma batched_create_makes_pool w hm ma m cfg rest :
  heap w !! hm = Some (BAccessModel (MkAccessModel (Some ma))) →
  heap w !! ma = Some (BModel m) → model_ok m →
  (0 < cfg_num_envs cfg ≤ INT_MAX)%Z →
  (∀ f, cfg_num_envs cfg * field_dim f m ≤ INT_MAX)%Z →
  script w = true :: true ::
             replicate (Z.to_nat (cfg_num_envs cfg)) true ++
             replicate (length all_fields) true ++ rest →
  let m' := if (0 <? solver_iterations cfg)%Z
            then set_opt_iterations (solver_iterations cfg) m else m in
  let ds := replicate (Z.to_nat (cfg_num_envs cfg)) (createDefaultState m) in
  ∃ sp s da slots w',
    mjaccess_batched_create createDefaultState (Some hm) (Some cfg) w
    = Ok (Some sp) w' ∧
    script w' = rest ∧
    pool_at w' sp s ma m' slots ds ∧ dims_ok m' ds ∧
    buffers_at w' s m' (length slots) ∧ buffers_owned w' s ∧
    datas s = Some da ∧
    (∀ a, a ∈ slots ++ da :: buffers_of s ++ [sp] → heap w !! a = None) ∧
    (∀ a, a ∉ slots ++ da :: buffers_of s ++ [sp] → a ≠ ma →
          heap w' !! a = heap w !! a).
Proof using default_has_sizes.
  clear advanceOneStep resetToDefault.
  intros Hhm Hm Hmok Hne Hfit Hsc m' ds.
  destruct (create_prologue w hm ma m cfg _ Hhm Hm Hne Hsc)
    as (sp & da & w3 & Hpro & Hb3 & Hsc3).
  destruct (create_envs_succeeds _ _ _ _ _ _ _ _ [] _ Hb3 Hsc3)
    as (w4 & slots & Hloop & Hb4 & Hsc4).
  destruct Hb4 as [Hs4 Hp4 Hm4 Hlen4 Hnd4 Hmade4 Hnew4 Hold4].
  rewrite app_nil_r in Hp4. rewrite Nat.add_0_r in Hlen4.
  assert (sp ≠ ma ∧ da ≠ ma ∧ sp ≠ da) as (Hspma & Hdama & Hspda)
    by (repeat split; congruence).
  assert (ma ∉ slots) as Hmaslots.
  { intros Hin. specialize (Hmade4 _ Hin). congruence. }
  (* the override *)
  assert (∃ w5, (if (0 <? solver_iterations cfg)%Z
                 then bind (load_model (Some ma)) (λ mm,
                        store (Some ma)
                          (BModel (set_opt_iterations (solver_iterations cfg) mm)))
                 else ret tt) w4 = Ok tt w5 ∧
                script w5 = script w4 ∧
                heap w5 !! ma = Some (BModel m') ∧
                ∀ a, a ≠ ma → heap w5 !! a = heap w4 !! a)
    as (w5 & Hov & Hsc5 & Hm5 & Hfr5).
  { unfold m'. destruct (0 <? solver_iterations cfg)%Z.
    - eexists. split.
      + rewrite (run_bind _ _ _ _ _ (load_model_ok _ _ _ Hm4)).
        by apply store_ok with (b0 := BModel m).
      + cbn [heap script]. split; [done|]. split; [apply lookup_insert_eq|].
        intros a Ha. by rewrite lookup_insert_ne.
    - exists w4. by repeat split. }
  destruct (alloc_gather_buffers_ok w5 sp (fresh_sim ma (cfg_num_envs cfg) da)
              ma m' (cfg_num_envs cfg) rest)
    as (w' & s & Hbufs & Hsc' & Hs' & Hr' & Hn' & Hd' & Hnd' & Hb' & Hnew' & Hfr').
  { by rewrite Hfr5. }
  { by intros []. }
  { done. }
  { by rewrite Hsc5, Hsc4. }
  assert (∀ b, b ∈ buffers_of s → b ≠ sp ∧ b ≠ da ∧ b ≠ ma ∧ b ∉ slots) as Hbuf.
  { intros b Hb. specialize (Hnew' b Hb).
    split; [intros ->; rewrite Hfr5 in Hnew' by done; congruence|].
    split; [intros ->; rewrite Hfr5 in Hnew' by done; congruence|].
    split; [intros ->; congruence|].
    intros Hin. rewrite Hfr5, (Hmade4 _ Hin) in Hnew'; [done|].
    intros ->. done. }
  assert (∀ a, a ≠ sp → a ≠ ma → a ∉ buffers_of s →
               heap w' !! a = heap w4 !! a) as Hfr.
  { intros a Hsp Hma Hnot. rewrite Hfr' by done. by apply Hfr5. }
  assert (model_ok m') as Hmok'.
  { unfold m'. by destruct (0 <? solver_iterations cfg)%Z. }
  assert (∀ f, field_dim f m' = field_dim f m) as Hdim.
  { intros f. unfold m'. by destruct (0 <? solver_iterations cfg)%Z, f. }
  exists sp, s, da, slots, w'.
  split; [|split; [done|split; [|split; [|split; [|split; [|split; [|split]]]]]]].
  - rewrite Hpro. unfold create_rest.
    rewrite (run_bind _ _ _ _ _ Hloop).
    rewrite (run_bind _ _ _ _ _ Hov).
    by rewrite (run_bind _ _ _ _ _ Hbufs).
  - split.
    + done.
    + by rewrite Hr'.
    + rewrite Hfr'; [done | congruence |].
      intros Hx. apply Hbuf in Hx. tauto.
    + exists da. split; [by rewrite Hd'|].
      rewrite Hfr; [done | congruence | congruence |].
      intros Hx. apply Hbuf in Hx. tauto.
    + rewrite Hn'. simpl. lia.
    + lia.
    + done.
    + apply Forall2_same_length_lookup. split.
      { unfold ds. rewrite length_replicate. lia. }
      intros i a d Ha Hd. apply lookup_replicate in Hd as [-> _].
      assert (a ∈ slots) as Hin by (by eapply list_elem_of_lookup_2).
      rewrite Hfr; [by apply Hmade4 | | |].
      * intros ->. specialize (Hmade4 _ Hin). congruence.
      * intros ->. done.
      * intros Hx. apply Hbuf in Hx. tauto.
  - split; [done|]. unfold ds. apply Forall_replicate.
    unfold m'. destruct (0 <? solver_iterations cfg)%Z;
      [apply data_ok_iterations|]; by apply default_has_sizes.
  - intros f. rewrite Hdim. split; [rewrite Hlen4; rewrite Z2Nat.id by lia; apply Hfit|].
    destruct (Hb' f) as (b & Hbf & Hc). eexists b, _. split; [done|].
    split; [exact Hc|]. rewrite length_replicate.
    rewrite buf_alloc_exact; [by rewrite Hdim, Hlen4 | done | lia |].
    rewrite Hdim. apply Hfit.
  - split; [done|]. intros f b Hbf. destruct (Hb' f) as (b' & Hbf' & Hc).
    eexists. assert (b = b') as -> by congruence. exact Hc.
  - by rewrite Hd'.
  - intros a Ha. apply elem_of_pool_blocks in Ha.
    assert (a ∈ sp :: da :: slots ∨ a ∈ buffers_of s) as [Hx|Hx].
    { rewrite !elem_of_cons. tauto. }
    + by apply Hnew4.
    + specialize (Hnew' a Hx). destruct (Hbuf a Hx) as (? & ? & ? & ?).
      rewrite <- (Hold4 a); [by rewrite <- (Hfr5 a)|].
      rewrite !elem_of_cons. tauto.
  - intros a Ha Hma. rewrite elem_of_pool_blocks in Ha.
    rewrite Hfr; [|tauto..]. apply Hold4. rewrite !elem_of_cons. tauto.
Qed.

(** With every allocation served, pool creation returns a pool that is
    ready for use: as many environments as asked for, each one in the
    default state the engine gives for the model as it was when the call
    was made, the solver iteration count of the model replaced when the
    configured one is positive, all gather buffers in place.  The blocks
    that were live before, the model apart, are as they were. *)
Theorem batched_create_builds_pool w hm ma m cfg rest :
  heap w !! hm = Some (BAccessModel (MkAccessModel (Some ma))) →
  heap w !! ma = Some (BModel m) → model_ok m →
  (0 < cfg_num_envs cfg ≤ INT_MAX)%Z →
  (∀ f, cfg_num_envs cfg * field_dim f m ≤ INT_MAX)%Z →
  script w = true :: true ::
             replicate (Z.to_nat (cfg_num_envs cfg)) true ++
             replicate (length all_fields) true ++ rest →
  let m' := if (0 <? solver_iterations cfg)%Z
            then set_opt_iterations (solver_iterations cfg) m else m in
  let n := Z.to_nat (cfg_num_envs cfg) in
  ∃ sp w',
    mjaccess_batched_create createDefaultState (Some hm) (Some cfg) w
    = Ok (Some sp) w' ∧
    script w' = rest ∧
    pool_ready w' sp ma m' n ∧
    (∃ s slots, pool_at w' sp s ma m' slots
                  (replicate n (createDefaultState m))) ∧
    (∀ a b, a ≠ ma → heap w !! a = Some b → heap w' !! a = Some b).
Proof using default_has_sizes.
  intros Hhm Hm Hmok Hne Hfit Hsc m' n.
  destruct (batched_create_makes_pool w hm ma m cfg rest Hhm Hm Hmok Hne Hfit Hsc)
    as (sp & s & da & slots & w' & Hrun & Hsc' & Hp & Hd & Hb & Ho & Hda & Hnew & Hold).
  assert (length slots = n) as Hlen.
  { rewrite <- (pool_at_length _ _ _ _ _ _ _ Hp). apply length_replicate. }
  exists sp, w'. split; [done|]. split; [done|]. split; [|split].
  - exists s, slots, (replicate n (createDefaultState m)).
    split; [exact Hp|]. split; [exact Hlen|]. split; [exact Hd|].
    split; [by rewrite <- Hlen | exact Ho].
  - by exists s, slots.
  - intros a b Ha Hab. rewrite Hold; [done| |done].
    intros Hin. apply Hnew in Hin. congruence.
Qed.

(** A pool that has just been created and is destroyed at once leaves
    memory as it was before the creation, apart from the solver
    iteration count of the model when the configured one is positive:
    every block the creation obtained is given back. *)
Theorem batched_create_then_free w hm ma m cfg rest :
  heap w !! hm = Some (BAccessModel (MkAccessModel (Some ma))) →
  heap w !! ma = Some (BModel m) → model_ok m →
  (0 < cfg_num_envs cfg ≤ INT_MAX)%Z →
  (∀ f, cfg_num_envs cfg * field_dim f m ≤ INT_MAX)%Z →
  script w = true :: true ::
             replicate (Z.to_nat (cfg_num_envs cfg)) true ++
             replicate (length all_fields) true ++ rest →
  let m' := if (0 <? solver_iterations cfg)%Z
            then set_opt_iterations (solver_iterations cfg) m else m in
  ∃ sp w' w'',
    mjaccess_batched_create createDefaultState (Some hm) (Some cfg) w
    = Ok (Some sp) w' ∧
    mjaccess_batched_free (Some sp) w' = Ok tt w'' ∧
    heap w'' = <[ma:=BModel m']> (heap w) ∧
    ((solver_iterations cfg ≤ 0)%Z → heap w'' = heap w).
Proof using default_has_sizes.
  intros Hhm Hm Hmok Hne Hfit Hsc m'.
  destruct (batched_create_makes_pool w hm ma m cfg rest Hhm Hm Hmok Hne Hfit Hsc)
    as (sp & s & da & slots & w' & Hrun & Hsc' & Hp & Hd & Hb & Ho & Hda & Hnew & Hold).
  destruct (batched_free_pool _ _ _ _ _ _ _ Hp Ho) as (da' & Hda' & Hfree).
  assert (da' = da) as -> by congruence.
  assert (heap (MkWorld (remove_all (slots ++ da :: buffers_of s ++ [sp]) (heap w'))
                        (script w'))
          = <[ma:=BModel m']> (heap w)) as Heq.
  { cbn [heap]. apply map_eq. intros a. rewrite lookup_remove_all.
    destruct (decide (a ∈ slots ++ da :: buffers_of s ++ [sp])) as [Hin|Hnot].
    - rewrite lookup_insert_ne; [by rewrite (Hnew a Hin)|].
      intros <-. apply Hnew in Hin. congruence.
    - destruct (decide (a = ma)) as [->|Hne'].
      + rewrite lookup_insert_eq. apply Hp.
      + rewrite lookup_insert_ne by done. by apply Hold. }
  eexists sp, w', _. split; [done|]. split; [exact Hfree|]. split; [exact Heq|].
  intros Hle. rewrite Heq. apply insert_id. unfold m'.
  by destruct (Z.ltb_spec 0 (solver_iterations cfg)); [lia|].
Qed.

End Reachability.

(** C7: the batched engine writes to the shared model in one place
    only.  Pool creation, when it returns, has left every model of the
    memory as it was, except that the model it was given has its solver
    iteration count replaced by the configured one when that one is
    positive and a pool is returned.  Every other batched operation on a
    pool (step, reset, any gather, either per-slot scatter, destroy),
    whatever its arguments, when it returns has left every model of the
    memory, the shared model of the pool among them, as it was. *)
Theorem batched_ops_keep_shared_model :
  (∀ w hm ma m cfg r w',
     heap w !! hm = Some (BAccessModel (MkAccessModel (Some ma))) →
     heap w !! ma = Some (BModel m) →
     (cfg_num_envs cfg ≤ INT_MAX)%Z →
     mjaccess_batched_create createDefaultState (Some hm) (Some cfg) w = Ok r w' →
     (∀ a m', a ≠ ma → heap w !! a = Some (BModel m') →
              heap w' !! a = Some (BModel m')) ∧
     heap w' !! ma
     = Some (BModel (if bool_decide (r ≠ None) && (0 <? solver_iterations cfg)%Z
                     then set_opt_iterations (solver_iterations cfg) m else m))) ∧
  (∀ w sp s ma m slots ds op u w',
     pool_at w sp s ma m slots ds → buffers_owned w s →
     run_op advanceOneStep resetToDefault (Some sp) op w = Ok u w' →
     models_kept w w' ∧ heap w' !! ma = Some (BModel m)).
Proof.
  split.
  - intros w hm ma m cfg r w'. apply batched_create_keeps.
  - intros w sp s ma m slots ds op u w' Hp Hb Hrun.
    assert (models_kept w w') as Hkept.
    { destruct op; cbn [run_op] in Hrun.
      - exact (batched_step_keeps _ _ _ _ _ _ Hrun).
      - exact (batched_reset_keeps _ _ _ _ _ Hrun).
      - apply bind_inv in Hrun as (r & w1 & Hg & [_ ->]%ret_inv).
        exact (batched_gather_keeps _ _ _ _ _ _ Hg).
      - exact (batched_set_env_qpos_keeps _ _ _ _ _ _ _ Hrun).
      - exact (batched_set_env_qvel_keeps _ _ _ _ _ _ _ Hrun).
      - exact (batched_free_keeps _ _ _ _ _ _ _ _ _ Hp Hb Hrun). }
    split; [done|]. apply Hkept, Hp.
Qed.

(** *** Further properties of the batched engine *)

Lemma load_sim_gone w sp : heap w !! sp = None → load_sim (Some sp) w = Fault.
Proof. intros H. unfold load_sim, bind, load. by rewrite H. Qed.

Lemma buffers_of_live w s b :
  buffers_owned w s → b ∈ buffers_of s → ∃ cells, heap w !! b = Some (BBuf cells).
Proof.
  intros [_ Hb] (f & _ & Hf)%list_elem_of_omap. eauto.
Qed.

(** Destroying a pool releases its states, its pointer array, its gather
    buffers and its header, and nothing else: every other block, the
    shared model among them, is as it was. *)
Theorem batched_free_releases_pool w sp s ma m slots ds :
  pool_at w sp s ma m slots ds → buffers_owned w s →
  ∃ da w',
    datas s = Some da ∧
    mjaccess_batched_free (Some sp) w = Ok tt w' ∧
    script w' = script w ∧
    (∀ a, a ∈ slots ++ da :: buffers_of s ++ [sp] → heap w' !! a = None) ∧
    (∀ a, a ∉ slots ++ da :: buffers_of s ++ [sp] → heap w' !! a = heap w !! a) ∧
    heap w' !! ma = Some (BModel m).
Proof.
  intros Hp Ho. destruct (batched_free_pool _ _ _ _ _ _ _ Hp Ho) as (da & Hda & Hfree).
  eexists da, _. split; [done|]. split; [exact Hfree|]. cbn [heap script].
  split; [done|]. split; [|split].
  - intros a Ha. by rewrite lookup_remove_all, decide_True.
  - intros a Ha. by rewrite lookup_remove_all, decide_False.
  - rewrite lookup_remove_all, decide_False; [apply Hp|].
    rewrite elem_of_pool_blocks. intros [Hin|[->|[Hin| ->]]].
    + apply list_elem_of_lookup in Hin as [i Hi].
      destruct (pool_at_slot _ _ _ _ _ _ _ _ _ Hp Hi) as (d & _ & Hd).
      pose proof (pool_model _ _ _ _ _ _ _ Hp). congruence.
    + destruct (pool_ptrs _ _ _ _ _ _ _ Hp) as (da' & Hda' & Hl).
      pose proof (pool_model _ _ _ _ _ _ _ Hp). congruence.
    + destruct (buffers_of_live _ _ _ Ho Hin) as [cells Hc].
      pose proof (pool_model _ _ _ _ _ _ _ Hp). congruence.
    + pose proof (pool_model _ _ _ _ _ _ _ Hp).
      pose proof (pool_sim _ _ _ _ _ _ _ Hp). congruence.
Qed.

(** The handle of a destroyed pool is stale: destruction does not clear
    it, and every batched operation that gets past its null checks with
    it, a second destruction included, reads released memory. *)
Theorem batched_use_after_free w sp s ma m slots ds :
  pool_at w sp s ma m slots ds → buffers_owned w s →
  ∃ w',
    mjaccess_batched_free (Some sp) w = Ok tt w' ∧
    (∀ sched cb,
       mjaccess_batched_step_with advanceOneStep sched (Some sp) (Some cb) w'
       = Fault) ∧
    (∀ mask, mjaccess_batched_reset resetToDefault (Some sp) (Some mask) w' = Fault) ∧
    (∀ f n_out, BATCHED_GATHER f (Some sp) n_out w' = Fault) ∧
    (∀ i vals n, (0 ≤ i)%Z →
       mjaccess_batched_set_env_qpos (Some sp) i (Some vals) n w' = Fault ∧
       mjaccess_batched_set_env_qvel (Some sp) i (Some vals) n w' = Fault) ∧
    mjaccess_batched_free (Some sp) w' = Fault.
Proof.
  intros Hp Ho. destruct (batched_free_pool _ _ _ _ _ _ _ Hp Ho) as (da & Hda & Hfree).
  eexists. split; [exact Hfree|].
  match goal with |- context [mjaccess_batched_free _ ?w1] => set (w' := w1) end.
  assert (load_sim (Some sp) w' = Fault) as Hgone.
  { apply load_sim_gone. unfold w'. cbn [heap].
    rewrite lookup_remove_all, decide_True; [done|].
    apply elem_of_pool_blocks. by do 3 right. }
  split; [|split; [|split; [|split]]].
  - intros sched cb. unfold mjaccess_batched_step_with.
    by rewrite (run_bind_fault _ _ _ Hgone).
  - intros mask. unfold mjaccess_batched_reset.
    by rewrite (run_bind_fault _ _ _ Hgone).
  - intros f n_out. unfold BATCHED_GATHER.
    by rewrite (run_bind_fault _ _ _ Hgone).
  - intros i vals n Hi.
    unfold mjaccess_batched_set_env_qpos, mjaccess_batched_set_env_qvel.
    destruct (Z.ltb_spec i 0); [lia|].
    by rewrite !(run_bind_fault _ _ _ Hgone).
  - unfold mjaccess_batched_free. by rewrite (run_bind_fault _ _ _ Hgone).
Qed.

(** A per-slot scatter whose count is within the target array copies
    that many leading values into the array of the slot addressed and
    leaves the rest of the array, the other slots and the rest of memory
    as they were; a slot index outside the pool makes the call do
    nothing. *)
Theorem batched_scatter_within_bounds w sp s ma m slots ds :
  pool_at w sp s ma m slots ds →
  (∀ i a d vals n,
     slots !! i = Some a → ds !! i = Some d →
     n ≤ length vals → (Z.of_nat n ≤ INT_MAX)%Z →
     (n ≤ length (qpos d) →
      mjaccess_batched_set_env_qpos (Some sp) (Z.of_nat i) (Some vals) (Z.of_nat n) w
      = Ok tt (MkWorld (<[a:=BData (set_qpos (take n vals ++ drop n (qpos d)) d)]>
                          (heap w)) (script w))) ∧
     (n ≤ length (qvel d) →
      mjaccess_batched_set_env_qvel (Some sp) (Z.of_nat i) (Some vals) (Z.of_nat n) w
      = Ok tt (MkWorld (<[a:=BData (set_qvel (take n vals ++ drop n (qvel d)) d)]>
                          (heap w)) (script w)))) ∧
  (∀ env_idx vals n,
     (env_idx < 0 ∨ Z.of_nat (length slots) ≤ env_idx)%Z →
     mjaccess_batched_set_env_qpos (Some sp) env_idx vals n w = Ok tt w ∧
     mjaccess_batched_set_env_qvel (Some sp) env_idx vals n w = Ok tt w).
Proof.
  intros Hp. split.
  - intros i a d vals n Hi Hd Hv Hn. split; intros Hq.
    + by eapply batched_set_env_qpos_fits.
    + by eapply batched_set_env_qvel_fits.
  - intros env_idx vals n Hout.
    rewrite <- (pool_num_envs _ _ _ _ _ _ _ Hp) in Hout. split.
    + eapply batched_set_env_qpos_outside; [apply Hp | done].
    + eapply batched_set_env_qvel_outside; [apply Hp | done].
Qed.

Lemma data_ok_set_qpos m d q :
  data_ok m d → length q = length (qpos d) → data_ok m (set_qpos q d).
Proof.
  intros [Hc Hf] Hq. split; [done|]. intros f. specialize (Hf f).
  destruct f; simpl in *; congruence.
Qed.

Lemma data_ok_set_qvel m d q :
  data_ok m d → length q = length (qvel d) → data_ok m (set_qvel q d).
Proof.
  intros [Hc Hf] Hq. split; [done|]. intros f. specialize (Hf f).
  destruct f; simpl in *; congruence.
Qed.

Lemma omap_nodup_inj {X Y} (h : X → option Y) (l : list X) x y b :
  NoDup (omap h l) → x ∈ l → y ∈ l → h x = Some b → h y = Some b → x = y.
Proof.
  induction l as [|z l IH]; intros Hnd Hx Hy Hhx Hhy; [by apply elem_of_nil in Hx|].
  assert (∀ u, u ∈ l → h u = Some b → b ∈ omap h l) as Hin.
  { intros u Hu Hhu. apply list_elem_of_omap. eauto. }
  apply elem_of_cons in Hx as [->|Hx]; apply elem_of_cons in Hy as [->|Hy].
  - done.
  - simpl in Hnd. rewrite Hhx in Hnd. apply NoDup_cons in Hnd as [Hnot _].
    destruct Hnot. by eapply Hin.
  - simpl in Hnd. rewrite Hhy in Hnd. apply NoDup_cons in Hnd as [Hnot _].
    destruct Hnot. by eapply Hin.
  - apply IH; try done. simpl in Hnd.
    destruct (h z); [by apply NoDup_cons in Hnd as [_ ?] | done].
Qed.

Lemma buf_field_inj w s f g b :
  buffers_owned w s → buf_field f s = Some b → buf_field g s = Some b → f = g.
Proof.
  intros [Hnd _] Hf Hg.
  exact (omap_nodup_inj (λ f, buf_field f s) all_fields f g b Hnd
           (all_fields_full f) (all_fields_full g) Hf Hg).
Qed.

Lemma buffers_at_update_buf f w s m n b c sc :
  buffers_owned w s → buffers_at w s m n → buf_field f s = Some b →
  length c = n * Z.to_nat (field_dim f m) →
  buffers_at (MkWorld (<[b:=BBuf c]> (heap w)) sc) s m n.
Proof.
  intros Ho Hb Hf Hlen g. destruct (Hb g) as (Hfit & b' & cells & Hg & Hc & Hl).
  split; [done|]. destruct (decide (b' = b)) as [->|Hne].
  - assert (g = f) as -> by (by eapply buf_field_inj).
    exists b, c. split; [done|]. split; [apply lookup_insert_eq | done].
  - exists b', cells. split; [done|]. split; [|done].
    simpl. by rewrite lookup_insert_ne.
Qed.

Lemma buffers_owned_update_buf w s b c sc :
  buffers_owned w s → buffers_owned (MkWorld (<[b:=BBuf c]> (heap w)) sc) s.
Proof.
  intros [Hnd Hb]. split; [done|]. intros f b' Hf. simpl.
  destruct (decide (b' = b)) as [->|Hne].
  - rewrite lookup_insert_eq. eauto.
  - rewrite lookup_insert_ne by done. eauto.
Qed.

Lemma buffers_owned_same_outside w w' sp s ma m slots ds :
  pool_at w sp s ma m slots ds → same_outside slots w w' →
  buffers_owned w s → buffers_owned w' s.
Proof.
  intros Hp [_ Hf] [Hnd Hb]. split; [done|]. intros f b Hfb.
  destruct (Hb f b Hfb) as [cells Hc]. exists cells. rewrite Hf; [done|].
  intros Hin. apply list_elem_of_lookup in Hin as [i Hi].
  destruct (pool_at_slot _ _ _ _ _ _ _ _ _ Hp Hi) as (d & _ & Ha). congruence.
Qed.

Lemma env_slice_length {X} n i (l : list X) :
  (i + 1) * n ≤ length l → length (env_slice n i l) = n.
Proof. intros H. unfold env_slice. rewrite length_take, length_drop. nia. Qed.

Lemma gather_after_update f w sp s ma m slots ds i a d' n0 :
  pool_at w sp s ma m slots ds → dims_ok m ds →
  buffers_at w s m (length slots) →
  slots !! i = Some a → data_ok m d' →
  ∃ b cells w2,
    BATCHED_GATHER f (Some sp) (Some n0)
      (MkWorld (<[a:=BData d']> (heap w)) (script w))
    = Ok (Some b, Some (Z.of_nat (length slots) * field_dim f m)%Z) w2 ∧
    heap w2 !! b = Some (BBuf cells) ∧
    env_slice (Z.to_nat (field_dim f m)) i cells = Some <$> field_of f d' ∧
    ∀ j d, j ≠ i → ds !! j = Some d →
      env_slice (Z.to_nat (field_dim f m)) j cells = Some <$> field_of f d.
Proof.
  intros Hp [Hm Hds] Hb Hi Hd'.
  pose proof (pool_at_update _ _ _ _ _ _ _ _ _ d' Hp Hi) as Hp1.
  assert (Forall (data_ok m) (<[i:=d']> ds)) as Hds1 by (by apply Forall_insert).
  assert (i < length ds) as Hlt.
  { rewrite (pool_at_length _ _ _ _ _ _ _ Hp). by eapply lookup_lt_Some. }
  assert (buffers_at (MkWorld (<[a:=BData d']> (heap w)) (script w)) s m
            (length slots)) as Hb1.
  { eapply buffers_at_same_outside; [exact Hp| |exact Hb].
    apply same_outside_insert. by eapply list_elem_of_lookup_2. }
  destruct (batched_gather_ok f _ sp s ma m slots _ (Some n0) Hp1
              (conj Hm Hds1) Hb1) as (b & Hbf & Hg).
  eexists b, _, _. split; [exact Hg|]. split; [simpl; apply lookup_insert_eq|].
  split.
  - apply (gathered_slice f m _ i d' Hds1). by apply list_lookup_insert_eq.
  - intros j d Hj Hd. apply (gathered_slice f m _ j d Hds1).
    by rewrite list_lookup_insert_ne.
Qed.

(** Values scattered into a slot come back from the next gather: after
    a per-slot scatter of a full position (velocity) vector into slot
    [i], the range of slot [i] in the gathered position (velocity)
    buffer holds the values given, and the ranges of the other slots
    hold the positions (velocities) those slots had. *)
Theorem batched_scatter_gather_roundtrip w sp s ma m slots ds i
    (vq vv : list mjtNum) :
  pool_at w sp s ma m slots ds → dims_ok m ds →
  buffers_at w s m (length slots) → i < length slots →
  length vq = Z.to_nat (nq m) → length vv = Z.to_nat (nv m) →
  (∃ w1 b cells w2,
     mjaccess_batched_set_env_qpos (Some sp) (Z.of_nat i) (Some vq) (nq m) w
     = Ok tt w1 ∧
     mjaccess_batched_get_qpos (Some sp) (Some 0%Z) w1
     = Ok (Some b, Some (Z.of_nat (length slots) * nq m)%Z) w2 ∧
     heap w2 !! b = Some (BBuf cells) ∧
     env_slice (Z.to_nat (nq m)) i cells = Some <$> vq ∧
     ∀ j d, j ≠ i → ds !! j = Some d →
       env_slice (Z.to_nat (nq m)) j cells = Some <$> qpos d) ∧
  (∃ w1 b cells w2,
     mjaccess_batched_set_env_qvel (Some sp) (Z.of_nat i) (Some vv) (nv m) w
     = Ok tt w1 ∧
     mjaccess_batched_get_qvel (Some sp) (Some 0%Z) w1
     = Ok (Some b, Some (Z.of_nat (length slots) * nv m)%Z) w2 ∧
     heap w2 !! b = Some (BBuf cells) ∧
     env_slice (Z.to_nat (nv m)) i cells = Some <$> vv ∧
     ∀ j d, j ≠ i → ds !! j = Some d →
       env_slice (Z.to_nat (nv m)) j cells = Some <$> qvel d).
Proof.
  intros Hp Hdims Hb Hi Hvq Hvv.
  destruct (lookup_lt_is_Some_2 slots i Hi) as [a Ha].
  destruct (pool_at_slot _ _ _ _ _ _ _ _ _ Hp Ha) as (d & Hd & Hda).
  destruct Hdims as [Hm Hds].
  pose proof (Forall_lookup_1 _ _ _ _ Hds Hd) as [Hdc Hdf].
  pose proof (Hdf Fqpos) as Hlq. pose proof (Hdf Fqvel) as Hlv. simpl in Hlq, Hlv.
  destruct Hm as (Hnq & Hnv & Hrest).
  split.
  - pose proof (batched_set_env_qpos_fits w sp s ma m slots ds i a d vq
                  (Z.to_nat (nq m)) Hp Ha Hd) as Hset.
    rewrite Z2Nat.id in Hset by lia.
    rewrite firstn_all2, drop_ge, app_nil_r in Hset by lia.
    destruct (gather_after_update Fqpos w sp s ma m slots ds i a (set_qpos vq d) 0
                Hp (conj (conj Hnq (conj Hnv Hrest)) Hds) Hb Ha)
      as (b & cells & w2 & Hg & Hc & Hsi & Hsj).
    { apply data_ok_set_qpos; [by split | congruence]. }
    eexists _, b, cells, w2. split; [apply Hset; lia|]. split; [exact Hg|].
    split; [exact Hc|]. split; [exact Hsi | exact Hsj].
  - pose proof (batched_set_env_qvel_fits w sp s ma m slots ds i a d vv
                  (Z.to_nat (nv m)) Hp Ha Hd) as Hset.
    rewrite Z2Nat.id in Hset by lia.
    rewrite firstn_all2, drop_ge, app_nil_r in Hset by lia.
    destruct (gather_after_update Fqvel w sp s ma m slots ds i a (set_qvel vv d) 0
                Hp (conj (conj Hnq (conj Hnv Hrest)) Hds) Hb Ha)
      as (b & cells & w2 & Hg & Hc & Hsi & Hsj).
    { apply data_ok_set_qvel; [by split | congruence]. }
    eexists _, b, cells, w2. split; [apply Hset; lia|]. split; [exact Hg|].
    split; [exact Hc|]. split; [exact Hsi | exact Hsj].
Qed.

(** The gather buffers of a pool are distinct: gathering one field and
    then another returns two different buffers, and the second gather
    leaves what the first one wrote in place. *)
Theorem batched_gathers_independent f g w sp s ma m slots ds n1 n2 :
  pool_at w sp s ma m slots ds → dims_ok m ds →
  buffers_at w s m (length slots) → buffers_owned w s → f ≠ g →
  ∃ bf bg r1 r2 w1 w2,
    BATCHED_GATHER f (Some sp) n1 w = Ok (Some bf, r1) w1 ∧
    BATCHED_GATHER g (Some sp) n2 w1 = Ok (Some bg, r2) w2 ∧
    bf ≠ bg ∧
    heap w2 !! bf = Some (BBuf (Some <$> concat (field_of f <$> ds))) ∧
    heap w2 !! bg = Some (BBuf (Some <$> concat (field_of g <$> ds))).
Proof.
  intros Hp Hdims Hb Ho Hfg.
  destruct (batched_gather_ok f w sp s ma m slots ds n1 Hp Hdims Hb)
    as (bf & Hbf & Hgf).
  destruct (Hb f) as (_ & bf' & cf & Hbf' & Hcf & _).
  assert (bf' = bf) as -> by congruence.
  match type of Hgf with _ = Ok _ ?w1' => set (w1 := w1') in * end.
  assert (pool_at w1 sp s ma m slots ds) as Hp1
    by (by eapply pool_at_update_buf).
  assert (buffers_at w1 s m (length slots)) as Hb1.
  { eapply buffers_at_update_buf; [done..|].
    rewrite (gathered_length f m ds (proj2 Hdims)).
    by rewrite (pool_at_length _ _ _ _ _ _ _ Hp). }
  destruct (batched_gather_ok g w1 sp s ma m slots ds n2 Hp1 Hdims Hb1)
    as (bg & Hbg & Hgg).
  assert (bf ≠ bg) as Hne.
  { intros ->. apply Hfg. by eapply buf_field_inj. }
  eexists bf, bg, _, _, w1, _. split; [exact Hgf|]. split; [exact Hgg|].
  split; [done|]. cbn [heap]. split.
  - rewrite lookup_insert_ne by done. unfold w1. cbn [heap]. apply lookup_insert_eq.
  - apply lookup_insert_eq.
Qed.

(** Pool creation does not test what its two [calloc] calls return:
    when the request for the pool header or the one for the pointer
    array is refused, the call writes through the null pointer instead
    of reporting failure. *)
Theorem batched_create_unchecked_calloc w hm ma m cfg t :
  heap w !! hm = Some (BAccessModel (MkAccessModel (Some ma))) →
  heap w !! ma = Some (BModel m) →
  (0 < cfg_num_envs cfg)%Z →
  (t = [] ∨ ∃ t', t = false :: t') →
  (script w = t →
   mjaccess_batched_create createDefaultState (Some hm) (Some cfg) w = Fault) ∧
  (script w = true :: t →
   mjaccess_batched_create createDefaultState (Some hm) (Some cfg) w = Fault).
Proof.
  intros Hhm Hm Hne Ht. split; intros Hsc.
  - by eapply create_header_refused.
  - by eapply create_array_refused.
Qed.

Lemma memcpy_overread {X} (dst src : list X) doff soff n :
  length src < soff + n → memcpy dst doff src soff n = None.
Proof. intros H. unfold memcpy. rewrite bool_decide_eq_false_2; [done|]. lia. Qed.

(** A loop faults when one of its indices faults whatever the state,
    as long as the state it reaches is one the loop keeps. *)
Lemma for_each_faults {X} (I : World → Prop) (body : X → M _ _ _ unit) l :
  (∀ i w1, i ∈ l → I w1 →
     (∃ w2, body i w1 = Ok tt w2 ∧ I w2) ∨ body i w1 = Fault) →
  (∃ i, i ∈ l ∧ ∀ w1, I w1 → body i w1 = Fault) →
  ∀ w, I w → for_each l body w = Fault.
Proof.
  induction l as [|j l IH]; intros Hstep (i & Hi & Hbad) w Hw.
  - by apply elem_of_nil in Hi.
  - cbn [for_each].
    destruct (Hstep j w (list_elem_of_here _ _) Hw) as [(w2 & Hrun & Hw2)|Hf];
      [|by rewrite (run_bind_fault _ _ _ Hf)].
    rewrite (run_bind _ _ _ _ _ Hrun).
    apply elem_of_cons in Hi as [->|Hi].
    + rewrite (Hbad w Hw) in Hrun. discriminate.
    + apply IH; [|by eauto|done].
      intros i' w1 Hi' Hw1. apply Hstep; [by right | done].
Qed.

(** A masked reset reads one mask entry per environment, whatever the
    mask given: with a mask of fewer entries than the pool has
    environments it reads past the end of the mask. *)
Theorem batched_reset_short_mask w sp s ma m slots ds mask :
  pool_at w sp s ma m slots ds → length mask < length slots →
  mjaccess_batched_reset resetToDefault (Some sp) (Some mask) w = Fault.
Proof.
  intros Hp Hlen. unfold mjaccess_batched_reset.
  rewrite (run_bind _ _ _ _ _ (load_sim_ok _ _ _ (pool_sim _ _ _ _ _ _ _ Hp))).
  rewrite (pool_model_ref _ _ _ _ _ _ _ Hp), (pool_num_envs _ _ _ _ _ _ _ Hp).
  rewrite Nat2Z.id.
  apply (for_each_faults (λ w1, ∃ ds1, pool_at w1 sp s ma m slots ds1)).
  - intros i w1 Hi [ds1 Hp1]. apply elem_of_seq in Hi.
    destruct (mask !! i) as [b|] eqn:Hb; [|by right].
    left. cbn [lift]. rewrite run_ret.
    destruct (b =? 0)%Z; [exists w1; split; [done | by exists ds1]|].
    destruct (lookup_lt_is_Some_2 slots i) as [a Ha]; [lia|].
    destruct (pool_at_slot _ _ _ _ _ _ _ _ _ Hp1 Ha) as (d & Hd & Hda).
    rewrite (run_bind _ _ _ _ _ (datas_at_ok _ _ _ _ _ _ _ _ _ Hp1 Ha)).
    eexists. split; [apply mj_resetData_ok; [apply Hp1 | done]|].
    eexists. by eapply pool_at_update.
  - exists (length mask). split; [apply elem_of_seq; lia|].
    intros w1 _. by rewrite (proj2 (lookup_ge_None mask (length mask))).
  - by exists ds.
Qed.

Section Sequences.

(** The engine keeps the sizes of the arrays of a state. *)
Hypothesis advance_keeps_sizes :
  ∀ m d, model_ok m → data_ok m d → data_ok m (advanceOneStep m d).
Hypothesis reset_keeps_sizes :
  ∀ m d, model_ok m → data_ok m d → data_ok m (resetToDefault m d).

Lemma run_op_ready sp ma m n op w :
  pool_ready w sp ma m n → op_valid m n op →
  ∃ w', run_op advanceOneStep resetToDefault (Some sp) op w = Ok tt w' ∧
        pool_ready w' sp ma m n.
Proof using advance_keeps_sizes reset_keeps_sizes.
  clear createDefaultState.
  intros (s & slots & ds & Hp & Hlen & [Hm Hds] & Hb & Ho) Hop. subst n.
  pose proof (pool_at_length _ _ _ _ _ _ _ Hp) as Hdl.
  assert (∀ w', pool_at w sp s ma m slots ds → same_outside slots w w' →
                buffers_at w' s m (length slots) ∧ buffers_owned w' s) as Hframe.
  { intros w' _ Hf. split.
    - by eapply buffers_at_same_outside.
    - by eapply buffers_owned_same_outside. }
  destruct op as [sched [cb|]|[mask|]|f n_out|i [vals|] k|i [vals|] k|];
    cbn [run_op op_valid] in *;
    try (exists w; split; [done|]; by exists s, slots, ds).
  - (* step *)
    destruct Hop as [Hsched Hcb]. specialize (Hcb cb eq_refl).
    destruct (batched_step_with_ok sched w sp s ma m slots ds cb Hsched Hp
                (conj Hm Hds) Hcb) as (w' & Hrun & Hp' & Hf).
    exists w'. split; [done|]. destruct (Hframe w' Hp Hf) as [Hb' Ho'].
    eexists s, slots, _. split; [exact Hp'|]. split; [done|].
    split; [|by split]. split; [done|].
    apply Forall_lookup_2. intros j d' Hj.
    rewrite list_lookup_imap in Hj.
    destruct (ds !! j) as [d|] eqn:Hd; [|done]. simpl in Hj.
    injection Hj as <-. unfold step_env.
    apply advance_keeps_sizes; [done|].
    apply data_ok_set_ctrl; [by eapply Forall_lookup_1|].
    apply env_slice_length. apply lookup_lt_Some in Hd. nia.
  - (* reset *)
    specialize (Hop mask eq_refl).
    destruct (batched_reset_ok w sp s ma m slots ds mask Hp Hop)
      as (w' & Hrun & Hp' & Hf).
    exists w'. split; [done|]. destruct (Hframe w' Hp Hf) as [Hb' Ho'].
    eexists s, slots, _. split; [exact Hp'|]. split; [done|].
    split; [|by split]. split; [done|].
    apply Forall_lookup_2. intros j d' Hj.
    rewrite list_lookup_imap in Hj.
    destruct (ds !! j) as [d|] eqn:Hd; [|done]. simpl in Hj.
    injection Hj as <-. unfold reset_env.
    pose proof (Forall_lookup_1 _ _ _ _ Hds Hd) as Hdo.
    destruct (mask !! j) as [x|]; [|done].
    destruct (x =? 0)%Z; [done|]. by apply reset_keeps_sizes.
  - (* gather *)
    destruct (batched_gather_ok f w sp s ma m slots ds n_out Hp (conj Hm Hds) Hb)
      as (b & Hbf & Hg).
    destruct (Hb f) as (_ & b' & cells & Hbf' & Hc & _).
    assert (b' = b) as -> by congruence.
    eexists. split; [by rewrite (run_bind _ _ _ _ _ Hg)|].
    exists s, slots, ds. split; [by eapply pool_at_update_buf|].
    split; [done|]. split; [by split|]. split.
    + eapply buffers_at_update_buf; [done..|].
      rewrite (gathered_length f m ds Hds). by rewrite Hdl.
    + by apply buffers_owned_update_buf.
  - (* scatter of positions *)
    destruct (decide (0 ≤ i < Z.of_nat (length slots))%Z) as [Hin|Hout].
    + destruct (Hop vals eq_refl Hin) as [Hk Hv].
      destruct (lookup_lt_is_Some_2 slots (Z.to_nat i)) as [a Ha]; [lia|].
      destruct (pool_at_slot _ _ _ _ _ _ _ _ _ Hp Ha) as (d & Hd & Hda).
      pose proof (Forall_lookup_1 _ _ _ _ Hds Hd) as Hdo.
      pose proof (proj2 Hdo Fqpos) as Hlq. simpl in Hlq.
      destruct Hm as (Hnq & Hnv & Hrest).
      pose proof (batched_set_env_qpos_fits w sp s ma m slots ds (Z.to_nat i) a d
                    vals (Z.to_nat k) Hp Ha Hd Hv) as Hset.
      rewrite !Z2Nat.id in Hset by lia.
      eexists. split; [apply Hset; lia|].
      match goal with |- pool_ready ?w1 _ _ _ _ => set (w' := w1) end.
      assert (same_outside slots w w') as Hf.
      { apply same_outside_insert. by eapply list_elem_of_lookup_2. }
      destruct (Hframe w' Hp Hf) as [Hb' Ho'].
      eexists s, slots, _. split; [by eapply pool_at_update|].
      split; [done|]. split; [|by split].
      split; [exact (conj Hnq (conj Hnv Hrest))|].
      apply Forall_insert; [done|]. apply data_ok_set_qpos; [done|].
      rewrite length_app, length_take, length_drop. lia.
    + exists w. split; [|by exists s, slots, ds].
      eapply batched_set_env_qpos_outside; [apply Hp|].
      rewrite (pool_num_envs _ _ _ _ _ _ _ Hp). lia.
  - (* scatter of velocities *)
    destruct (decide (0 ≤ i < Z.of_nat (length slots))%Z) as [Hin|Hout].
    + destruct (Hop vals eq_refl Hin) as [Hk Hv].
      destruct (lookup_lt_is_Some_2 slots (Z.to_nat i)) as [a Ha]; [lia|].
      destruct (pool_at_slot _ _ _ _ _ _ _ _ _ Hp Ha) as (d & Hd & Hda).
      pose proof (Forall_lookup_1 _ _ _ _ Hds Hd) as Hdo.
      pose proof (proj2 Hdo Fqvel) as Hlq. simpl in Hlq.
      destruct Hm as (Hnq & Hnv & Hrest).
      pose proof (batched_set_env_qvel_fits w sp s ma m slots ds (Z.to_nat i) a d
                    vals (Z.to_nat k) Hp Ha Hd Hv) as Hset.
      rewrite !Z2Nat.id in Hset by lia.
      eexists. split; [apply Hset; lia|].
      match goal with |- pool_ready ?w1 _ _ _ _ => set (w' := w1) end.
      assert (same_outside slots w w') as Hf.
      { apply same_outside_insert. by eapply list_elem_of_lookup_2. }
      destruct (Hframe w' Hp Hf) as [Hb' Ho'].
      eexists s, slots, _. split; [by eapply pool_at_update|].
      split; [done|]. split; [|by split].
      split; [exact (conj Hnq (conj Hnv Hrest))|].
      apply Forall_insert; [done|]. apply data_ok_set_qvel; [done|].
      rewrite length_app, length_take, length_drop. lia.
    + exists w. split; [|by exists s, slots, ds].
      eapply batched_set_env_qvel_outside; [apply Hp|].
      rewrite (pool_num_envs _ _ _ _ _ _ _ Hp). lia.
Qed.

(** A pool stays ready for use through any sequence of steps, masked
    resets, gathers and per-slot scatters that are called with the
    arguments they are meant for: none of them faults, and after the
    last one the pool still has its environments, with arrays of the
    sizes of the model, and its gather buffers. *)
Theorem batched_ops_preserve_pool sp ma m n ops : ∀ w,
  pool_ready w sp ma m n → Forall (op_valid m n) ops →
  ∃ w', run_ops advanceOneStep resetToDefault (Some sp) ops w = Ok tt w' ∧
        pool_ready w' sp ma m n.
Proof using advance_keeps_sizes reset_keeps_sizes.
  induction ops as [|op ops IH]; intros w Hr Hops.
  - by exists w.
  - apply Forall_cons in Hops as [Hop Hops].
    destruct (run_op_ready sp ma m n op w Hr Hop) as (w1 & Hrun & Hr1).
    destruct (IH w1 Hr1 Hops) as (w' & Hrun' & Hr').
    exists w'. split; [|done]. cbn [run_ops].
    by rewrite (run_bind _ _ _ _ _ Hrun).
Qed.

(** A gather does not take a copy for the caller: it fills the buffer
    the pool owns and returns that buffer.  A step that follows leaves
    the buffer as the gather filled it, and the next gather of the same
    field returns the same buffer, now holding the values of the stepped
    states. *)
Theorem batched_gather_reuses_buffer f w sp s ma m slots ds cb :
  pool_at w sp s ma m slots ds → dims_ok m ds →
  buffers_at w s m (length slots) → buffers_owned w s →
  length cb = length slots * Z.to_nat (nu m) →
  ∃ b w1 w2 w3,
    BATCHED_GATHER f (Some sp) None w = Ok (Some b, None) w1 ∧
    heap w1 !! b = Some (BBuf (Some <$> concat (field_of f <$> ds))) ∧
    mjaccess_batched_step advanceOneStep (Some sp) (Some cb) w1 = Ok tt w2 ∧
    heap w2 !! b = heap w1 !! b ∧
    BATCHED_GATHER f (Some sp) None w2 = Ok (Some b, None) w3 ∧
    heap w3 !! b
    = Some (BBuf (Some <$> concat
                    (field_of f <$> imap (step_env advanceOneStep m cb) ds))).
Proof using advance_keeps_sizes.
  intros Hp [Hm Hds] Hb Ho Hcb.
  destruct (batched_gather_ok f w sp s ma m slots ds None Hp (conj Hm Hds) Hb)
    as (b & Hbf & Hg).
  destruct (Hb f) as (_ & b' & cells & Hbf' & Hc & _).
  assert (b' = b) as -> by congruence.
  match type of Hg with _ = Ok _ ?w1' => set (w1 := w1') in * end.
  assert (pool_at w1 sp s ma m slots ds) as Hp1 by (by eapply pool_at_update_buf).
  assert (buffers_at w1 s m (length slots)) as Hb1.
  { eapply buffers_at_update_buf; [done..|].
    rewrite (gathered_length f m ds Hds).
    by rewrite (pool_at_length _ _ _ _ _ _ _ Hp). }
  destruct (batched_step_with_ok (seq 0) w1 sp s ma m slots ds cb
              (λ n, Permutation_refl _) Hp1 (conj Hm Hds) Hcb)
    as (w2 & Hstep & Hp2 & Hf2).
  assert (b ∉ slots) as Hbs.
  { intros Hin. apply list_elem_of_lookup in Hin as [i Hi].
    destruct (pool_at_slot _ _ _ _ _ _ _ _ _ Hp Hi) as (d & _ & Ha). congruence. }
  assert (Forall (data_ok m) (imap (step_env advanceOneStep m cb) ds)) as Hds2.
  { apply Forall_lookup_2. intros j d' Hj.
    rewrite list_lookup_imap in Hj.
    destruct (ds !! j) as [d|] eqn:Hd; [|done]. simpl in Hj.
    injection Hj as <-. unfold step_env.
    apply advance_keeps_sizes; [done|].
    apply data_ok_set_ctrl; [by eapply Forall_lookup_1|].
    apply env_slice_length. apply lookup_lt_Some in Hd.
    rewrite (pool_at_length _ _ _ _ _ _ _ Hp) in Hd. nia. }
  assert (buffers_at w2 s m (length slots)) as Hb2
    by exact (buffers_at_same_outside _ _ _ _ _ _ _ _ Hp1 Hf2 Hb1).
  destruct (batched_gather_ok f w2 sp s ma m slots _ None Hp2 (conj Hm Hds2) Hb2)
    as (b2 & Hbf2 & Hg2).
  assert (b2 = b) as -> by congruence.
  eexists b, w1, w2, _. split; [exact Hg|]. split; [apply lookup_insert_eq|].
  split; [exact Hstep|]. split; [by apply Hf2|]. split; [exact Hg2|].
  apply lookup_insert_eq.
Qed.

Lemma step_task_overread w sp s ma m slots ds cb i a d :
  pool_at w sp s ma m slots ds → model_ok m →
  slots !! i = Some a → ds !! i = Some d → data_ok m d →
  length cb < (i + 1) * Z.to_nat (nu m) →
  step_task advanceOneStep (Some sp) (Some ma) (nu m) cb i w = Fault.
Proof.
  intros Hp (_ & _ & Hnu & _) Hi Hd [Hc _] Hlen.
  destruct (pool_at_slot _ _ _ _ _ _ _ _ _ Hp Hi) as (d0 & Hd0 & Ha).
  assert (d0 = d) as -> by congruence.
  assert (i < length slots) as Hlt by (by eapply lookup_lt_Some).
  pose proof (pool_num_envs_int _ _ _ _ _ _ _ Hp) as Hint.
  unfold step_task.
  rewrite (run_bind _ _ _ _ _ (datas_at_ok _ _ _ _ _ _ _ _ _ Hp Hi)).
  rewrite (run_bind _ _ _ _ _ (load_data_ok _ _ _ Ha)).
  assert (Z.to_nat (size_mul (Z.of_nat i) (size_t_of (nu m))) = i * Z.to_nat (nu m)) as ->.
  { unfold INT_MAX in *. rewrite size_t_of_small by lia. unfold size_mul.
    rewrite Z.mod_small by nia. lia. }
  rewrite double_count_small by lia.
  by rewrite memcpy_overread by lia.
Qed.

(** A batched step reads as many controls per environment as the model
    has, for every environment, whatever the buffer given: with a
    control buffer of fewer than [N * nu] entries it reads past the end
    of the buffer, in whatever order the environments are run. *)
Theorem batched_step_short_controls sched w sp s ma m slots ds cb :
  (∀ n, Permutation (sched n) (seq 0 n)) →
  pool_at w sp s ma m slots ds → dims_ok m ds →
  length cb < length slots * Z.to_nat (nu m) →
  mjaccess_batched_step_with advanceOneStep sched (Some sp) (Some cb) w = Fault.
Proof using advance_keeps_sizes.
  intros Hsched Hp [Hm Hds] Hlen.
  pose proof (pool_num_envs_int _ _ _ _ _ _ _ Hp) as Hint.
  unfold mjaccess_batched_step_with.
  rewrite (run_bind _ _ _ _ _ (load_sim_ok _ _ _ (pool_sim _ _ _ _ _ _ _ Hp))).
  rewrite (pool_model_ref _ _ _ _ _ _ _ Hp).
  rewrite (run_bind _ _ _ _ _ (load_model_ok _ _ _ (pool_model _ _ _ _ _ _ _ Hp))).
  rewrite (pool_num_envs _ _ _ _ _ _ _ Hp).
  rewrite size_t_of_small by (unfold INT_MAX in *; lia).
  rewrite Nat2Z.id. unfold dispatch_apply.
  apply (for_each_faults
           (λ w1, ∃ ds1, pool_at w1 sp s ma m slots ds1 ∧ Forall (data_ok m) ds1)).
  - intros i w1 Hi (ds1 & Hp1 & Hds1).
    rewrite (Hsched (length slots)), elem_of_seq in Hi.
    destruct (lookup_lt_is_Some_2 slots i) as [a Ha]; [lia|].
    destruct (pool_at_slot _ _ _ _ _ _ _ _ _ Hp1 Ha) as (d & Hd & Hda).
    pose proof (Forall_lookup_1 _ _ _ _ Hds1 Hd) as Hdo.
    destruct (decide ((i + 1) * Z.to_nat (nu m) ≤ length cb)) as [Hfit|Hshort].
    + left. eexists. split; [by eapply step_task_ok|].
      eexists. split; [by eapply pool_at_update|].
      apply Forall_insert; [done|]. apply advance_keeps_sizes; [done|].
      apply data_ok_set_ctrl; [done|]. by apply env_slice_length.
    + right. eapply step_task_overread; [done..|lia].
  - assert (0 < length slots) as Hpos by nia.
    exists (length slots - 1). split.
    { rewrite (Hsched (length slots)), elem_of_seq. lia. }
    intros w1 (ds1 & Hp1 & Hds1).
    destruct (lookup_lt_is_Some_2 slots (length slots - 1)) as [a Ha]; [lia|].
    destruct (pool_at_slot _ _ _ _ _ _ _ _ _ Hp1 Ha) as (d & Hd & Hda).
    pose proof (Forall_lookup_1 _ _ _ _ Hds1 Hd) as Hdo.
    eapply step_task_overread; [done..|].
    replace (length slots - 1 + 1) with (length slots) by lia. done.
  - by exists ds.
Qed.

End Sequences.

End ShimTheory.

(** ** The single-environment interface *)

Section AccessorTheory.
#[local] Set Default Proof Using "Type".
Context {mjtNum mjfloat : Type}.
Local Abbreviation Rest := (mjModelRest mjtNum mjfloat).
Local Abbreviation DRest := (mjDataRest mjtNum).
Local Abbreviation Model := (mjModel Rest).
Local Abbreviation Data := (mjData mjtNum DRest).
Local Abbreviation World := (world mjtNum Rest DRest).
Local Abbreviation Block := (block mjtNum Rest DRest).
Variable zero : mjtNum.
Variable createDefaultState : Model -> Data.

Implicit Types (w : World) (m : Model) (d : Data).

Lemma live_model_ok w hm mj :
  heap w !! hm = Some (BAccessModel (MkAccessModel mj)) →
  live_model (Some hm) w = Ok mj w.
Proof.
  intros H. unfold live_model.
  by rewrite (run_bind _ _ _ _ _ (load_access_model_ok _ _ _ H)).
Qed.

Lemma live_data_ok w hd pd r :
  heap w !! hd = Some (BAccessData (MkAccessData (Some pd) r)) →
  live_data (Some hd) w = Ok (Some (MkAccessData (Some pd) r)) w.
Proof.
  intros H. unfold live_data.
  by rewrite (run_bind _ _ _ _ _ (load_access_data_ok _ _ _ H)).
Qed.

Lemma load_model_gone w a :
  heap w !! a = None →
  load_model (mjtNum:=mjtNum) (mjDataExtra:=DRest) (Some a) w = Fault.
Proof. intros H. unfold load_model, bind, load. by rewrite H. Qed.

Lemma float_count_small n : (0 ≤ n ≤ INT_MAX)%Z → float_count n = Z.to_nat n.
Proof.
  unfold float_count, size_mul, size_t_of, sizeof_float, INT_MAX. intros H.
  rewrite (Z.mod_small n) by lia. rewrite Z.mod_small by lia.
  by rewrite Z.div_mul.
Qed.

Lemma array_set_in {X} (l : list X) i v :
  i < length l → array_set l i v = Some (<[i:=v]> l).
Proof. intros H. unfold array_set. by rewrite bool_decide_eq_true_2. Qed.

Lemma memcpy_at {X} (dst src : list X) off n :
  n ≤ length src → off + n ≤ length dst →
  memcpy dst off src 0 n = Some (take off dst ++ take n src ++ drop (off + n) dst).
Proof.
  intros Hs Hd. unfold memcpy. rewrite bool_decide_eq_true_2 by (simpl; lia). done.
Qed.

Lemma getter_size_exact g m :
  counts_ok m → int_wrap (getter_size_expr g m) = getter_dim g m.
Proof.
  intros [Hc Hd]. specialize (Hd g).
  assert (0 ≤ getter_dim g m)%Z as Hpos by (destruct g; simpl; lia).
  destruct g; cbn [getter_size_expr getter_dim] in *;
    rewrite ?int_mul_exact by lia;
    apply int_wrap_small; unfold INT_MAX in *; lia.
Qed.

(** *** Entry setters *)

Lemma entry_write_eq k w hd pd pm m d index value :
  data_at w hd pd pm m d →
  length (entry_array k d) = Z.to_nat (entry_bound k m) →
  (0 ≤ index < entry_bound k m)%Z →
  run_entry_setter k (Some hd) index value w
  = Ok tt (MkWorld (<[pd:=BData (entry_update k
                                   (<[Z.to_nat index:=value]> (entry_array k d))
                                   d)]> (heap w)) (script w)).
Proof.
  intros (Hh & Hd & Hm) Hlen Hin.
  destruct k; cbn [run_entry_setter entry_array entry_update entry_bound] in *.
  all: unfold mjaccess_set_qpos_at, mjaccess_set_qvel_at, mjaccess_set_ctrl_at;
    rewrite (run_bind _ _ _ _ _ (live_data_ok _ _ _ _ Hh));
    rewrite (proj2 (Z.ltb_ge index 0)) by lia;
    cbn [ad_model_ref ad_mj];
    rewrite (run_bind _ _ _ _ _ (load_model_ok _ _ _ Hm));
    rewrite (proj2 (Z.leb_gt _ index)) by lia;
    rewrite (run_bind _ _ _ _ _ (load_data_ok _ _ _ Hd));
    rewrite array_set_in by lia; cbn [lift]; rewrite run_ret;
    by apply store_ok with (b0 := BData d).
Qed.

(** The setters of one entry check the index against the size the model
    gives: with an index inside the array they write that entry and
    nothing else, with any other index, negative ones included, they do
    nothing. *)
Theorem entry_setters_checked k w hd pd pm m d index value :
  data_at w hd pd pm m d →
  length (entry_array k d) = Z.to_nat (entry_bound k m) →
  run_entry_setter k (Some hd) index value w
  = Ok tt (if bool_decide (0 ≤ index < entry_bound k m)%Z
           then MkWorld (<[pd:=BData (entry_update k
                                        (<[Z.to_nat index:=value]> (entry_array k d))
                                        d)]> (heap w)) (script w)
           else w).
Proof.
  intros Hat Hlen. case_bool_decide as Hin;
    [exact (entry_write_eq k w hd pd pm m d index value Hat Hlen Hin)|].
  destruct Hat as (Hh & Hd & Hm).
  destruct k; cbn [run_entry_setter entry_bound] in *.
  all: unfold mjaccess_set_qpos_at, mjaccess_set_qvel_at, mjaccess_set_ctrl_at;
    rewrite (run_bind _ _ _ _ _ (live_data_ok _ _ _ _ Hh));
    destruct (Z.ltb_spec index 0) as [Hneg|Hpos]; [done|];
    cbn [ad_model_ref ad_mj];
    rewrite (run_bind _ _ _ _ _ (load_model_ok _ _ _ Hm));
    by rewrite (proj2 (Z.leb_le _ index)) by lia.
Qed.

(** *** Bulk setters *)

Ltac bulk_setter_start Hh :=
  cbn [run_bulk_setter bulk_array bulk_update];
  unfold mjaccess_set_qpos, mjaccess_set_qvel, mjaccess_set_ctrl,
         mjaccess_set_mocap_pos, mjaccess_set_mocap_quat;
  first [ rewrite (run_bind _ _ _ _ _ (live_data_ok _ _ _ _ Hh))
        | rewrite (run_bind _ _ _ _ _ (load_access_data_ok _ _ _ Hh)) ];
  cbn [ad_mj].

(** The setters of a whole array copy the count they are given: a count
    that is zero or negative makes them do nothing; a positive count
    within the array overwrites that many leading entries and leaves the
    rest; a count beyond the array is not cut down, the copy runs past
    the end of the array. *)
Theorem bulk_setters_copy_count k w hd pd r d vals n :
  heap w !! hd = Some (BAccessData (MkAccessData (Some pd) r)) →
  heap w !! pd = Some (BData d) →
  ((n ≤ 0)%Z → run_bulk_setter k (Some hd) (Some vals) n w = Ok tt w) ∧
  ((0 < n ≤ INT_MAX)%Z → Z.to_nat n ≤ length vals →
   Z.to_nat n ≤ length (bulk_array k d) →
   run_bulk_setter k (Some hd) (Some vals) n w
   = Ok tt (MkWorld (<[pd:=BData (bulk_update k
                                    (take (Z.to_nat n) vals
                                     ++ drop (Z.to_nat n) (bulk_array k d)) d)]>
                       (heap w)) (script w))) ∧
  ((0 < n ≤ INT_MAX)%Z → length (bulk_array k d) < Z.to_nat n →
   run_bulk_setter k (Some hd) (Some vals) n w = Fault).
Proof.
  intros Hh Hd. split; [|split].
  - intros Hn. destruct k; bulk_setter_start Hh;
      by rewrite (proj2 (Z.leb_le n 0)) by lia.
  - intros Hn Hv Ha. destruct k; bulk_setter_start Hh;
      cbn [bulk_array] in Ha;
      rewrite (proj2 (Z.leb_gt n 0)) by lia;
      rewrite (run_bind _ _ _ _ _ (load_data_ok _ _ _ Hd));
      rewrite double_count_small by lia;
      rewrite memcpy_prefix by lia; cbn [lift]; rewrite run_ret;
      by apply store_ok with (b0 := BData d).
  - intros Hn Ha. destruct k; bulk_setter_start Hh;
      cbn [bulk_array] in Ha;
      rewrite (proj2 (Z.leb_gt n 0)) by lia;
      rewrite (run_bind _ _ _ _ _ (load_data_ok _ _ _ Hd));
      rewrite double_count_small by lia;
      by rewrite memcpy_overrun by (simpl; lia).
Qed.

(** The setter of the applied forces cuts the count down to the size of
    its array, six entries per body: it copies the smaller of the count
    given and that size, so that a count beyond the array still writes
    inside it, and leaves the entries after the copied ones as they
    were. *)
Theorem set_xfrc_applied_clamps w hd pd pm m d vals n :
  data_at w hd pd pm m d →
  (0 ≤ nbody m)%Z → (nbody m * 6 ≤ INT_MAX)%Z →
  length (xfrc_applied (d_other d)) = Z.to_nat (nbody m * 6) →
  (0 < n ≤ INT_MAX)%Z →
  let c := Z.to_nat (Z.min n (nbody m * 6)) in
  c ≤ length vals →
  mjaccess_set_xfrc_applied (Some hd) (Some vals) n w
  = Ok tt (MkWorld (<[pd:=BData (set_xfrc_applied
                                   (take c vals
                                    ++ drop c (xfrc_applied (d_other d))) d)]>
                      (heap w)) (script w)).
Proof.
  intros (Hh & Hd & Hm) Hb Hfit Hlen Hn c Hv.
  unfold mjaccess_set_xfrc_applied.
  rewrite (run_bind _ _ _ _ _ (live_data_ok _ _ _ _ Hh)).
  rewrite (proj2 (Z.leb_gt n 0)) by lia. cbn [ad_model_ref ad_mj].
  rewrite (run_bind _ _ _ _ _ (load_model_ok _ _ _ Hm)).
  rewrite (run_bind _ _ _ _ _ (load_data_ok _ _ _ Hd)).
  rewrite int_mul_exact by lia.
  assert ((if (n <? nbody m * 6)%Z then n else (nbody m * 6)%Z)
          = Z.min n (nbody m * 6)) as ->.
  { destruct (Z.ltb_spec n (nbody m * 6)); lia. }
  rewrite double_count_small by lia. fold c.
  rewrite memcpy_prefix by lia. cbn [lift]. rewrite run_ret.
  by apply store_ok with (b0 := BData d).
Qed.

(** *** Getters *)

Lemma getter_with_length g w hd pd pm m d n0 :
  heap w !! hd = Some (BAccessData (MkAccessData (Some pd) (Some pm))) →
  heap w !! pd = Some (BData d) → heap w !! pm = Some (BModel m) →
  GETTER g (Some hd) (Some n0) w
  = Ok (Some (pd, g), Some (int_wrap (getter_size_expr g m))) w.
Proof.
  intros Hh Hd Hm. unfold GETTER.
  rewrite (run_bind _ _ _ _ _ (live_data_ok _ _ _ _ Hh)). cbn [ad_model_ref ad_mj].
  erewrite run_bind;
    [|by rewrite (run_bind _ _ _ _ _ (load_model_ok _ _ _ Hm))].
  by rewrite (run_bind _ _ _ _ _ (load_data_ok _ _ _ Hd)).
Qed.

(** On a state whose arrays have the sizes of its model, each getter
    returns a pointer to the array it is named after, inside the state,
    and reports the length of that array; reading that many entries
    through the pointer stays inside the array.  Reporting nothing, with
    a null [n_out], it returns the same pointer. *)
Theorem getter_reports_length g w hd pd pm m d n0 :
  data_at w hd pd pm m d → counts_ok m → arrays_ok m d →
  GETTER g (Some hd) (Some n0) w
  = Ok (Some (pd, g), Some (Z.of_nat (length (getter_field g d)))) w ∧
  GETTER g (Some hd) None w = Ok (Some (pd, g), None) w ∧
  read_array (pd, g) w = Ok (getter_field g d) w.
Proof.
  intros (Hh & Hd & Hm) Hc Ha. split; [|split].
  - rewrite (getter_with_length g w hd pd pm m d n0 Hh Hd Hm).
    rewrite (getter_size_exact g m Hc), (Ha g).
    rewrite Z2Nat.id; [done|]. destruct Hc as [Hc _]. destruct g; simpl; lia.
  - unfold GETTER. rewrite (run_bind _ _ _ _ _ (live_data_ok _ _ _ _ Hh)).
    cbn [ad_model_ref ad_mj]. rewrite run_ret.
    by rewrite (run_bind _ _ _ _ _ (load_data_ok _ _ _ Hd)).
  - unfold read_array. cbn [fst snd].
    by rewrite (run_bind _ _ _ _ _ (load_data_ok _ _ _ Hd)).
Qed.

(** An entry written by an entry setter is what the getter of the same
    array then shows at that index; the other entries of the array are
    as before, and the reported length is the size the model gives. *)
Theorem entry_set_then_get k w hd pd pm m d index value :
  data_at w hd pd pm m d →
  length (entry_array k d) = Z.to_nat (entry_bound k m) →
  (0 ≤ index < entry_bound k m)%Z → (entry_bound k m ≤ INT_MAX)%Z →
  ∃ w1 arr,
    run_entry_setter k (Some hd) index value w = Ok tt w1 ∧
    GETTER (entry_getter k) (Some hd) (Some 0%Z) w1
    = Ok (Some (pd, entry_getter k), Some (entry_bound k m)) w1 ∧
    read_array (pd, entry_getter k) w1 = Ok arr w1 ∧
    arr !! Z.to_nat index = Some value ∧
    ∀ j, j ≠ Z.to_nat index → arr !! j = entry_array k d !! j.
Proof.
  intros Hat Hlen Hin Hfit.
  pose proof (entry_write_eq k w hd pd pm m d index value Hat Hlen Hin) as Hset.
  destruct Hat as (Hh & Hd & Hm).
  eexists _, (<[Z.to_nat index:=value]> (entry_array k d)).
  split; [exact Hset|].
  match goal with |- context [GETTER _ _ _ ?w1'] => set (w1 := w1') end.
  assert (heap w1 !! hd
          = Some (BAccessData (MkAccessData (Some pd) (Some pm)))) as Hh1.
  { unfold w1. cbn [heap]. rewrite lookup_insert_ne; [done | congruence]. }
  assert (heap w1 !! pm = Some (BModel m)) as Hm1.
  { unfold w1. cbn [heap]. rewrite lookup_insert_ne; [done | congruence]. }
  assert (heap w1 !! pd
          = Some (BData (entry_update k (<[Z.to_nat index:=value]> (entry_array k d))
                           d))) as Hd1.
  { unfold w1. cbn [heap]. apply lookup_insert_eq. }
  split; [|split; [|split]].
  - rewrite (getter_with_length _ w1 hd pd pm m _ 0 Hh1 Hd1 Hm1). do 3 f_equal.
    destruct k; cbn [entry_getter getter_size_expr entry_bound] in *;
      apply int_wrap_small; unfold INT_MAX in *; lia.
  - unfold read_array. cbn [fst snd].
    rewrite (run_bind _ _ _ _ _ (load_data_ok _ _ _ Hd1)).
    by destruct k.
  - apply list_lookup_insert_eq. lia.
  - intros j Hj. by rewrite list_lookup_insert_ne.
Qed.

(** *** The height field *)

Lemma hfield_write_eq w hm pm m vals offset n :
  model_at w hm pm m →
  (0 ≤ nhfielddata (m_other m) ≤ INT_MAX)%Z →
  length (hfield_data (m_other m)) = Z.to_nat (nhfielddata (m_other m)) →
  (0 < n ≤ INT_MAX)%Z → (0 ≤ offset < nhfielddata (m_other m))%Z →
  let c := Z.to_nat (Z.min n (nhfielddata (m_other m) - offset)) in
  let o := Z.to_nat offset in
  c ≤ length vals →
  mjaccess_model_set_hfield_data (Some hm) offset (Some vals) n w
  = Ok tt (MkWorld
             (<[pm:=BModel (set_hfield_data
                              (take o (hfield_data (m_other m))
                               ++ take c vals
                               ++ drop (o + c) (hfield_data (m_other m))) m)]>
                (heap w)) (script w)).
Proof.
  intros (Hh & Hm) Hnh Hlen Hn Ho c o Hv.
  unfold mjaccess_model_set_hfield_data.
  rewrite (run_bind _ _ _ _ _ (live_model_ok _ _ _ Hh)).
  rewrite (proj2 (Z.leb_gt n 0)) by lia.
  rewrite (proj2 (Z.ltb_ge offset 0)) by lia. cbn [orb].
  rewrite (run_bind _ _ _ _ _ (load_model_ok _ _ _ Hm)).
  rewrite (int_wrap_small (nhfielddata (m_other m)))
    by (unfold INT_MAX in *; lia).
  unfold int_sub. rewrite int_wrap_small by (unfold INT_MAX in *; lia).
  rewrite (proj2 (Z.leb_gt _ 0)) by lia.
  assert ((if (n <? nhfielddata (m_other m) - offset)%Z
           then n else (nhfielddata (m_other m) - offset)%Z)
          = Z.min n (nhfielddata (m_other m) - offset)) as ->.
  { destruct (Z.ltb_spec n (nhfielddata (m_other m) - offset)); lia. }
  unfold displacement. rewrite (proj2 (Z.ltb_ge offset 0)) by lia.
  cbn [lift]. rewrite run_ret.
  rewrite float_count_small by lia. fold c. fold o.
  rewrite memcpy_at by lia. cbn [lift]. rewrite run_ret.
  by apply store_ok with (b0 := BModel m).
Qed.

(** The setter of height-field samples writes inside the sample array
    only: it does nothing for a count that is not positive, a negative
    offset or an offset at or beyond the end of the array; otherwise it
    copies the smaller of the count given and the number of samples
    from the offset to the end of the array, starting at the offset, and
    leaves every other sample as it was. *)
Theorem set_hfield_data_clamps w hm pm m vals offset n :
  model_at w hm pm m →
  (0 ≤ nhfielddata (m_other m) ≤ INT_MAX)%Z →
  length (hfield_data (m_other m)) = Z.to_nat (nhfielddata (m_other m)) →
  (n ≤ INT_MAX)%Z → (offset ≤ INT_MAX)%Z →
  ((n ≤ 0 ∨ offset < 0 ∨ nhfielddata (m_other m) ≤ offset)%Z →
   mjaccess_model_set_hfield_data (Some hm) offset (Some vals) n w = Ok tt w) ∧
  ((0 < n)%Z → (0 ≤ offset < nhfielddata (m_other m))%Z →
   let c := Z.to_nat (Z.min n (nhfielddata (m_other m) - offset)) in
   let o := Z.to_nat offset in
   c ≤ length vals →
   mjaccess_model_set_hfield_data (Some hm) offset (Some vals) n w
   = Ok tt (MkWorld
              (<[pm:=BModel (set_hfield_data
                               (take o (hfield_data (m_other m))
                                ++ take c vals
                                ++ drop (o + c) (hfield_data (m_other m))) m)]>
                 (heap w)) (script w))).
Proof.
  intros Hat Hnh Hlen Hn Hoff. split.
  - intros Hcase. destruct Hat as (Hh & Hm).
    unfold mjaccess_model_set_hfield_data.
    rewrite (run_bind _ _ _ _ _ (live_model_ok _ _ _ Hh)).
    destruct (Z.leb_spec n 0) as [?|Hn0]; [done|].
    destruct (Z.ltb_spec offset 0) as [?|Ho0]; [done|]. cbn [orb].
    rewrite (run_bind _ _ _ _ _ (load_model_ok _ _ _ Hm)).
    rewrite (int_wrap_small (nhfielddata (m_other m)))
      by (unfold INT_MAX in *; lia).
    unfold int_sub. rewrite int_wrap_small by (unfold INT_MAX in *; lia).
    by rewrite (proj2 (Z.leb_le _ 0)) by lia.
  - intros Hn0 Ho c o Hv. by apply hfield_write_eq.
Qed.

(** Samples written by the height-field setter are what the height-field
    getter then shows from the offset on; the getter still reports the
    whole number of samples, and the samples before the offset are as
    they were. *)
Theorem hfield_set_then_get w hm pm m vals offset n :
  model_at w hm pm m →
  (0 ≤ nhfielddata (m_other m) ≤ INT_MAX)%Z →
  length (hfield_data (m_other m)) = Z.to_nat (nhfielddata (m_other m)) →
  nhfield (m_other m) ≠ 0%Z →
  (0 < n ≤ INT_MAX)%Z → (0 ≤ offset < nhfielddata (m_other m))%Z →
  let c := Z.to_nat (Z.min n (nhfielddata (m_other m) - offset)) in
  let o := Z.to_nat offset in
  c ≤ length vals →
  ∃ w1 m1,
    mjaccess_model_set_hfield_data (Some hm) offset (Some vals) n w = Ok tt w1 ∧
    mjaccess_model_hfield_data (Some hm) (Some 0%Z) w1
    = Ok (Some pm, Some (nhfielddata (m_other m))) w1 ∧
    heap w1 !! pm = Some (BModel m1) ∧
    length (hfield_data (m_other m1)) = length (hfield_data (m_other m)) ∧
    take c (drop o (hfield_data (m_other m1))) = take c vals ∧
    take o (hfield_data (m_other m1)) = take o (hfield_data (m_other m)) ∧
    drop (o + c) (hfield_data (m_other m1))
    = drop (o + c) (hfield_data (m_other m)).
Proof.
  intros Hat Hnh Hlen Hnz Hn Ho c o Hv.
  pose proof (hfield_write_eq w hm pm m vals offset n Hat Hnh Hlen) as Hset.
  cbv zeta in Hset. fold c o in Hset. specialize (Hset Hn Ho Hv).
  destruct Hat as (Hh & Hm).
  set (h := hfield_data (m_other m)) in *.
  set (h1 := take o h ++ take c vals ++ drop (o + c) h) in *.
  assert (o + c ≤ length h) as Hfit by lia.
  eexists _, (set_hfield_data h1 m). split; [exact Hset|].
  split; [|split; [apply lookup_insert_eq|]].
  - unfold mjaccess_model_hfield_data.
    erewrite run_bind; cycle 1.
    { apply live_model_ok. cbn [heap].
      rewrite lookup_insert_ne; [exact Hh | congruence]. }
    cbv beta iota.
    erewrite run_bind; cycle 1.
    { apply load_model_ok. cbn [heap]. apply lookup_insert_eq. }
    cbn [set_hfield_data set_m_other m_other nhfield nhfielddata].
    destruct (Z.eqb_spec (nhfield (m_other m)) 0) as [?|_]; [done|].
    cbn [write_out]. rewrite int_wrap_small by (unfold INT_MAX in *; lia). done.
  - cbn [set_hfield_data set_m_other m_other hfield_data]. unfold h1.
    split; [|split; [|split]].
    + rewrite !length_app, !length_take, length_drop. lia.
    + rewrite drop_app_length'; [|rewrite length_take; lia].
      rewrite take_app_length'; [done|rewrite length_take; lia].
    + rewrite take_app_length'; [done|rewrite length_take; lia].
    + rewrite app_assoc. rewrite drop_app_length'; [done|].
      rewrite length_app, !length_take. lia.
Qed.

(** *** Checked accessors of the model *)

Ltac accessor_start Hh :=
  cbn [run_int_accessor run_num_accessor int_accessor_array int_accessor_count
       num_accessor_array num_accessor_count] in *;
  unfold mjaccess_model_jnt_qposadr, mjaccess_model_jnt_dofadr,
         mjaccess_model_jnt_type, mjaccess_model_geom_type,
         mjaccess_model_sensor_adr, mjaccess_model_body_mocapid,
         mjaccess_model_hfield_adr, mjaccess_model_body_mass,
         mjaccess_model_tendon_width;
  rewrite (run_bind _ _ _ _ _ (live_model_ok _ _ _ Hh)).

(** The accessors of one entry of a model array check the index against
    the count of the model: on a model whose arrays have the lengths of
    its counts they return the entry for an index inside the array and
    the fixed value -1, or 0.0 for the two arrays of numbers, for any
    other index; they never read outside the array and change nothing. *)
Theorem model_accessors_checked w hm pm m id :
  model_at w hm pm m → model_arrays_ok m →
  (∀ k,
     ((0 ≤ id < int_accessor_count k m)%Z →
      ∃ v, int_accessor_array k m !! Z.to_nat id = Some v ∧
           run_int_accessor k (Some hm) id w = Ok v w) ∧
     (¬ (0 ≤ id < int_accessor_count k m)%Z →
      run_int_accessor k (Some hm) id w = Ok (-1)%Z w)) ∧
  (∀ k,
     ((0 ≤ id < num_accessor_count k m)%Z →
      ∃ v, num_accessor_array k m !! Z.to_nat id = Some v ∧
           run_num_accessor zero k (Some hm) id w = Ok v w) ∧
     (¬ (0 ≤ id < num_accessor_count k m)%Z →
      run_num_accessor zero k (Some hm) id w = Ok zero w)).
Proof.
  intros (Hh & Hm) (Hint & Hnum & _). split; intros k.
  - specialize (Hint k). split.
    + intros Hin.
      destruct (lookup_lt_is_Some_2 (int_accessor_array k m) (Z.to_nat id))
        as [v Hv]; [lia|].
      exists v. split; [done|].
      destruct k; accessor_start Hh;
        rewrite (proj2 (Z.ltb_ge id 0)) by lia;
        rewrite (run_bind _ _ _ _ _ (load_model_ok _ _ _ Hm));
        rewrite (proj2 (Z.leb_gt _ id)) by lia;
        by rewrite Hv.
    + intros Hout.
      destruct k; accessor_start Hh;
        (destruct (Z.ltb_spec id 0); [done|]);
        rewrite (run_bind _ _ _ _ _ (load_model_ok _ _ _ Hm));
        by rewrite (proj2 (Z.leb_le _ id)) by lia.
  - specialize (Hnum k). split.
    + intros Hin.
      destruct (lookup_lt_is_Some_2 (num_accessor_array k m) (Z.to_nat id))
        as [v Hv]; [lia|].
      exists v. split; [done|].
      destruct k; accessor_start Hh;
        rewrite (proj2 (Z.ltb_ge id 0)) by lia;
        rewrite (run_bind _ _ _ _ _ (load_model_ok _ _ _ Hm));
        rewrite (proj2 (Z.leb_gt _ id)) by lia;
        by rewrite Hv.
    + intros Hout.
      destruct k; accessor_start Hh;
        (destruct (Z.ltb_spec id 0); [done|]);
        rewrite (run_bind _ _ _ _ _ (load_model_ok _ _ _ Hm));
        by rewrite (proj2 (Z.leb_le _ id)) by lia.
Qed.

(** A time step written through the handle is the one read back through
    it, and the write changes nothing else in memory; through a null
    handle the read gives 0.0 and the write does nothing. *)
Theorem opt_timestep_set_then_get w hm pm m dt :
  model_at w hm pm m →
  mjaccess_model_opt_timestep zero (Some hm) w
  = Ok (opt_timestep (m_other m)) w ∧
  (∃ w1,
     mjaccess_model_set_opt_timestep (Some hm) dt w = Ok tt w1 ∧
     mjaccess_model_opt_timestep zero (Some hm) w1 = Ok dt w1 ∧
     heap w1 = <[pm:=BModel (set_opt_timestep dt m)]> (heap w) ∧
     script w1 = script w) ∧
  mjaccess_model_opt_timestep zero None w = Ok zero w ∧
  mjaccess_model_set_opt_timestep None dt w = Ok tt w.
Proof.
  intros (Hh & Hm). split; [|split; [|done]].
  - unfold mjaccess_model_opt_timestep.
    rewrite (run_bind _ _ _ _ _ (live_model_ok _ _ _ Hh)).
    by rewrite (run_bind _ _ _ _ _ (load_model_ok _ _ _ Hm)).
  - eexists. split.
    { unfold mjaccess_model_set_opt_timestep.
      rewrite (run_bind _ _ _ _ _ (live_model_ok _ _ _ Hh)).
      rewrite (run_bind _ _ _ _ _ (load_model_ok _ _ _ Hm)).
      by apply store_ok with (b0 := BModel m). }
    split; [|done].
    unfold mjaccess_model_opt_timestep.
    erewrite run_bind; cycle 1.
    { apply live_model_ok. cbn [heap].
      rewrite lookup_insert_ne; [exact Hh | congruence]. }
    cbv beta iota.
    erewrite run_bind; cycle 1.
    { apply load_model_ok. cbn [heap]. apply lookup_insert_eq. }
    done.
Qed.

(** *** Life cycle of the handles *)

Lemma modify_access_data_ok w hd h f :
  heap w !! hd = Some (BAccessData h) →
  modify_access_data (Some hd) f w
  = Ok tt (MkWorld (<[hd:=BAccessData (f h)]> (heap w)) (script w)).
Proof.
  intros H. unfold modify_access_data.
  rewrite (run_bind _ _ _ _ _ (load_access_data_ok _ _ _ H)).
  by apply store_ok with (b0 := BAccessData h).
Qed.

Lemma free_model_ok w hm pm m :
  model_at w hm pm m →
  mjaccess_free_model (Some hm) w
  = Ok tt (MkWorld (delete hm (delete pm (heap w))) (script w)).
Proof.
  intros (Hh & Hm). unfold mjaccess_free_model.
  rewrite (run_bind _ _ _ _ _ (load_access_model_ok _ _ _ Hh)). cbn [am_mj].
  erewrite run_bind; cycle 1.
  { unfold mj_deleteModel.
    rewrite (run_bind _ _ _ _ _ (load_model_ok _ _ _ Hm)).
    exact (free_ok _ _ _ Hm). }
  refine (free_ok (MkWorld _ _) _ (BAccessModel (MkAccessModel (Some pm))) _).
  cbn [heap]. rewrite lookup_delete_ne; [done | congruence].
Qed.

Lemma free_data_ok w hd pd r d :
  heap w !! hd = Some (BAccessData (MkAccessData (Some pd) r)) →
  heap w !! pd = Some (BData d) →
  mjaccess_free_data (Some hd) w
  = Ok tt (MkWorld (delete hd (delete pd (heap w))) (script w)).
Proof.
  intros Hh Hd. unfold mjaccess_free_data.
  rewrite (run_bind _ _ _ _ _ (load_access_data_ok _ _ _ Hh)). cbn [ad_mj].
  rewrite (run_bind _ _ _ _ _ (mj_deleteData_ok _ _ _ Hd)).
  refine (free_ok (MkWorld _ _) _ (BAccessData (MkAccessData (Some pd) r)) _).
  cbn [heap]. rewrite lookup_delete_ne; [done | congruence].
Qed.

Lemma make_data_ok w hm pm m rest :
  model_at w hm pm m → script w = true :: true :: rest →
  let pd := fresh (dom (heap w)) in
  let h1 := <[pd:=BData (createDefaultState m)]> (heap w) in
  let hd := fresh (dom h1) in
  mjaccess_make_data createDefaultState (Some hm) w
  = Ok (Some hd)
       (MkWorld (<[hd:=BAccessData (MkAccessData (Some pd) (Some pm))]> h1) rest).
Proof.
  intros (Hh & Hm) Hsc pd h1 hd. unfold mjaccess_make_data.
  rewrite (run_bind _ _ _ _ _ (live_model_ok _ _ _ Hh)).
  rewrite (run_bind _ _ _ _ _ (mj_makeData_ok createDefaultState _ _ _ _ Hm Hsc)).
  fold pd. fold h1.
  erewrite run_bind; [|by apply alloc_ok]. cbn [heap]. fold hd.
  pose proof (fresh_unused (heap w)) as Hpd. fold pd in Hpd.
  pose proof (fresh_unused h1) as Hhd. fold hd in Hhd.
  assert (hd ≠ hm) as Hne.
  { intros Heq. rewrite Heq in Hhd. unfold h1 in Hhd.
    rewrite lookup_insert_ne in Hhd by congruence. congruence. }
  erewrite run_bind; cycle 1.
  { apply modify_access_data_ok. cbn [heap]. apply lookup_insert_eq. }
  cbn [heap script set_ad_mj ad_model_ref].
  erewrite run_bind; cycle 1.
  { apply load_access_model_ok. cbn [heap]. rewrite insert_insert_eq.
    rewrite lookup_insert_ne by done. unfold h1.
    rewrite lookup_insert_ne by congruence. exact Hh. }
  cbn [am_mj].
  erewrite run_bind; cycle 1.
  { apply modify_access_data_ok. cbn [heap]. apply lookup_insert_eq. }
  cbn [heap script set_ad_model_ref ad_mj]. unfold ret.
  by rewrite !insert_insert_eq.
Qed.

(** Making a state for a model gives a handle to a new state that holds
    the default state of the engine for that model and refers to the
    model; the blocks that were live are as they were.  Freeing the
    handle gives both new blocks back: memory is as before the state was
    made. *)
Theorem make_data_then_free w hm pm m rest :
  model_at w hm pm m → script w = true :: true :: rest →
  ∃ hd pd w' w'',
    mjaccess_make_data createDefaultState (Some hm) w = Ok (Some hd) w' ∧
    data_at w' hd pd pm m (createDefaultState m) ∧
    (∀ a b, heap w !! a = Some b → heap w' !! a = Some b) ∧
    mjaccess_free_data (Some hd) w' = Ok tt w'' ∧
    heap w'' = heap w.
Proof.
  intros Hat Hsc. pose proof (make_data_ok w hm pm m rest Hat Hsc) as Hmk.
  cbv zeta in Hmk. destruct Hat as (Hh & Hm).
  set (pd := fresh (dom (heap w))) in *.
  set (h1 := <[pd:=BData (createDefaultState m)]> (heap w)) in *.
  set (hd := fresh (dom h1)) in *.
  pose proof (fresh_unused (heap w)) as Hpd. fold pd in Hpd.
  pose proof (fresh_unused h1) as Hhd. fold hd in Hhd.
  assert (hd ≠ pd) as Hne.
  { intros Heq. rewrite Heq in Hhd. unfold h1 in Hhd.
    by rewrite lookup_insert_eq in Hhd. }
  assert (heap w !! hd = None) as Hhd0.
  { unfold h1 in Hhd. by rewrite lookup_insert_ne in Hhd. }
  eexists hd, pd, _, _. split; [exact Hmk|]. unfold data_at. cbn [heap].
  assert (∀ a b, heap w !! a = Some b →
            (<[hd:=BAccessData (MkAccessData (Some pd) (Some pm))]> h1) !! a
            = Some b) as Hkeep.
  { intros a b Ha. rewrite lookup_insert_ne by congruence. unfold h1.
    by rewrite lookup_insert_ne by congruence. }
  split; [|split; [exact Hkeep|split]].
  - split; [apply lookup_insert_eq|]. split; [|by apply Hkeep].
    rewrite lookup_insert_ne by done. apply lookup_insert_eq.
  - apply free_data_ok with (r := Some pm) (d := createDefaultState m);
      cbn [heap].
    + apply lookup_insert_eq.
    + rewrite lookup_insert_ne by done. apply lookup_insert_eq.
  - cbn [heap]. apply map_eq. intros a.
    destruct (decide (a = hd)) as [->|?]; [by rewrite lookup_delete_eq|].
    rewrite lookup_delete_ne by done.
    destruct (decide (a = pd)) as [->|?]; [by rewrite lookup_delete_eq|].
    rewrite lookup_delete_ne by done. rewrite lookup_insert_ne by done.
    unfold h1. by rewrite lookup_insert_ne.
Qed.

(** Making a state fails cleanly when the model handle is null or holds
    no model, or when the engine refuses the state: the call returns the
    null handle and memory is as before. *)
Theorem make_data_fails_cleanly w model :
  (model = None ∨
   (∃ hm, model = Some hm ∧
          heap w !! hm = Some (BAccessModel (MkAccessModel None))) ∨
   (∃ hm pm m, model = Some hm ∧ model_at w hm pm m ∧
               (script w = [] ∨ ∃ t, script w = false :: t))) →
  ∃ w', mjaccess_make_data createDefaultState model w = Ok None w' ∧
        heap w' = heap w.
Proof.
  intros [->|[(hm & -> & Hh)|(hm & pm & m & -> & (Hh & Hm) & Hsc)]].
  - by exists w.
  - exists w. split; [|done]. unfold mjaccess_make_data.
    by rewrite (run_bind _ _ _ _ _ (live_model_ok _ _ _ Hh)).
  - eexists. split.
    + unfold mjaccess_make_data.
      rewrite (run_bind _ _ _ _ _ (live_model_ok _ _ _ Hh)).
      by rewrite (run_bind _ _ _ _ _
                    (mj_makeData_refused createDefaultState _ _ _ _ Hm eq_refl Hsc)).
    + done.
Qed.

(** Making a state does not test what [calloc] returns for the handle:
    when the engine has made the state and the request for the handle is
    refused, the call writes through the null pointer. *)
Theorem make_data_unchecked_calloc w hm pm m t :
  model_at w hm pm m → script w = true :: t →
  (t = [] ∨ ∃ t', t = false :: t') →
  mjaccess_make_data createDefaultState (Some hm) w = Fault.
Proof.
  intros (Hh & Hm) Hsc Ht. unfold mjaccess_make_data.
  rewrite (run_bind _ _ _ _ _ (live_model_ok _ _ _ Hh)).
  rewrite (run_bind _ _ _ _ _ (mj_makeData_ok createDefaultState _ _ _ _ Hm Hsc)).
  erewrite run_bind; [|by apply alloc_refused with (t := t)].
  done.
Qed.

(** A model and a state made from it can be freed in either order: both
    orders succeed and leave the same memory, in which the two handles,
    the model and the state are gone and every other block is as it
    was. *)
Theorem free_model_and_data_commute w hm hd pm pd m d :
  model_at w hm pm m → data_at w hd pd pm m d →
  ∃ w1 w2 w',
    mjaccess_free_model (Some hm) w = Ok tt w1 ∧
    mjaccess_free_data (Some hd) w1 = Ok tt w' ∧
    mjaccess_free_data (Some hd) w = Ok tt w2 ∧
    mjaccess_free_model (Some hm) w2 = Ok tt w' ∧
    script w' = script w ∧
    ∀ a, heap w' !! a
         = if bool_decide (a = hm ∨ a = pm ∨ a = hd ∨ a = pd)
           then None else heap w !! a.
Proof.
  clear zero createDefaultState.
  intros Hmat (Hh & Hd & Hm). pose proof Hmat as (Hhm & _).
  assert (hm ≠ pm ∧ hm ≠ hd ∧ hm ≠ pd ∧ pm ≠ hd ∧ pm ≠ pd ∧ hd ≠ pd)
    as (? & ? & ? & ? & ? & ?) by (repeat split; congruence).
  eexists _, _, _. split; [exact (free_model_ok _ _ _ _ Hmat)|].
  assert (delete hd (delete pd (delete hm (delete pm (heap w))))
          = delete hm (delete pm (delete hd (delete pd (heap w))))) as Heq.
  { apply map_eq. intros a. rewrite !lookup_delete.
    repeat case_decide; done. }
  split; [|split; [|split; [|split]]].
  - apply free_data_ok with (r := Some pm) (d := d); cbn [heap].
    + by rewrite !lookup_delete_ne.
    + by rewrite !lookup_delete_ne.
  - exact (free_data_ok _ _ _ _ _ Hh Hd).
  - rewrite (free_model_ok _ hm pm m); cbn [heap script].
    + by rewrite Heq.
    + split; cbn [heap]; by rewrite !lookup_delete_ne.
  - done.
  - intros a. cbn [heap]. case_bool_decide as Hin.
    + destruct (decide (a = hd)) as [->|?]; [by rewrite lookup_delete_eq|].
      rewrite lookup_delete_ne by done.
      destruct (decide (a = pd)) as [->|?]; [by rewrite lookup_delete_eq|].
      rewrite lookup_delete_ne by done.
      destruct (decide (a = hm)) as [->|?]; [by rewrite lookup_delete_eq|].
      rewrite lookup_delete_ne by done.
      destruct (decide (a = pm)) as [->|?]; [by rewrite lookup_delete_eq|].
      tauto.
    + rewrite !lookup_delete_ne; [done|intros ->; tauto..].
Qed.

(** The state handle refers to the model without owning it.  Once the
    model has been freed, whatever reads a size through the handle reads
    freed memory: the entry setters, the setter of the applied forces
    and every getter asked for a length.  What does not look at the
    model still works: a getter with a null [n_out] returns its pointer,
    and the state can be freed. *)
Theorem model_ref_not_owned w hm hd pm pd m d :
  model_at w hm pm m → data_at w hd pd pm m d →
  ∃ w1,
    mjaccess_free_model (Some hm) w = Ok tt w1 ∧
    (∀ k index value, (0 ≤ index)%Z →
       run_entry_setter k (Some hd) index value w1 = Fault) ∧
    (∀ vals n, (0 < n)%Z →
       mjaccess_set_xfrc_applied (Some hd) (Some vals) n w1 = Fault) ∧
    (∀ g n0, GETTER g (Some hd) (Some n0) w1 = Fault) ∧
    (∀ g, GETTER g (Some hd) None w1 = Ok (Some (pd, g), None) w1).
Proof.
  intros Hmat (Hh & Hd & Hm). pose proof Hmat as (Hhm & _).
  assert (hm ≠ pm ∧ hm ≠ hd ∧ hm ≠ pd ∧ pm ≠ hd ∧ pm ≠ pd ∧ hd ≠ pd)
    as (? & ? & ? & ? & ? & ?) by (repeat split; congruence).
  eexists. split; [exact (free_model_ok _ _ _ _ Hmat)|].
  match goal with |- context [GETTER _ _ _ ?w1'] => set (w1 := w1') end.
  assert (heap w1 !! hd
          = Some (BAccessData (MkAccessData (Some pd) (Some pm)))) as Hh1.
  { unfold w1. cbn [heap]. by rewrite !lookup_delete_ne. }
  assert (heap w1 !! pd = Some (BData d)) as Hd1.
  { unfold w1. cbn [heap]. by rewrite !lookup_delete_ne. }
  assert (load_model (mjtNum:=mjtNum) (mjDataExtra:=DRest) (Some pm) w1 = Fault)
    as Hgone.
  { apply load_model_gone. unfold w1. cbn [heap].
    rewrite lookup_delete_ne by done. apply lookup_delete_eq. }
  split; [|split; [|split]].
  - intros k index value Hi.
    destruct k; cbn [run_entry_setter];
      unfold mjaccess_set_qpos_at, mjaccess_set_qvel_at, mjaccess_set_ctrl_at;
      rewrite (run_bind _ _ _ _ _ (live_data_ok _ _ _ _ Hh1));
      rewrite (proj2 (Z.ltb_ge index 0)) by lia; cbn [ad_model_ref];
      by rewrite (run_bind_fault _ _ _ Hgone).
  - intros vals n Hn. unfold mjaccess_set_xfrc_applied.
    rewrite (run_bind _ _ _ _ _ (live_data_ok _ _ _ _ Hh1)).
    rewrite (proj2 (Z.leb_gt n 0)) by lia. cbn [ad_model_ref].
    by rewrite (run_bind_fault _ _ _ Hgone).
  - intros g n0. unfold GETTER.
    rewrite (run_bind _ _ _ _ _ (live_data_ok _ _ _ _ Hh1)). cbn [ad_model_ref].
    rewrite run_bind_fault; [done|]. by rewrite (run_bind_fault _ _ _ Hgone).
  - intros g. unfold GETTER.
    rewrite (run_bind _ _ _ _ _ (live_data_ok _ _ _ _ Hh1)).
    cbn [ad_model_ref ad_mj]. rewrite run_ret.
    by rewrite (run_bind _ _ _ _ _ (load_data_ok _ _ _ Hd1)).
Qed.

End AccessorTheory.

(** ** The shim on the small engine *)

Lemma toy_pool_at :
  pool_at toy_pool 3 toy_sim 1 toy_model' toy_slots
          (replicate 3 (toy_default toy_model')).
Proof.
  split.
  - by vm_compute.
  - done.
  - by vm_compute.
  - exists 4%positive. split; [done | by vm_compute].
  - done.
  - by vm_compute.
  - apply (bool_decide_unpack _). by vm_compute.
  - repeat constructor; by vm_compute.
Qed.

Lemma toy_stepped_at :
  pool_at toy_stepped 3 toy_sim 1 toy_model' toy_slots
          [toy_state 1; toy_state 2; toy_state 3].
Proof.
  split.
  - by vm_compute.
  - done.
  - by vm_compute.
  - exists 4%positive. split; [done | by vm_compute].
  - done.
  - by vm_compute.
  - apply (bool_decide_unpack _). by vm_compute.
  - repeat constructor; by vm_compute.
Qed.

Lemma toy_model_ok : model_ok toy_model'.
Proof. by vm_compute. Qed.

Lemma toy_default_ok : data_ok toy_model' (toy_default toy_model').
Proof. split; [done|]. by intros []. Qed.

Lemma toy_state_ok x : data_ok toy_model' (toy_state x).
Proof. split; [done|]. by intros []. Qed.

Lemma toy_pool_buffers : buffers_at toy_pool toy_sim toy_model' 3.
Proof.
  intros f. split; [by destruct f; vm_compute|].
  destruct f; eexists _, _; (split; [reflexivity|]);
    (split; [by vm_compute | by vm_compute]).
Qed.

Lemma toy_stepped_buffers : buffers_at toy_stepped toy_sim toy_model' 3.
Proof.
  intros f. split; [by destruct f; vm_compute|].
  destruct f; eexists _, _; (split; [reflexivity|]);
    (split; [by vm_compute | by vm_compute]).
Qed.

Lemma toy_pool_owned : buffers_owned toy_pool toy_sim.
Proof.
  split; [apply (bool_decide_unpack _); by vm_compute|].
  intros f b Hb. destruct (toy_pool_buffers f) as (_ & b' & cells & Hb' & Hc & _).
  exists cells. congruence.
Qed.

Lemma toy_step_keeps_sizes m d :
  model_ok m → data_ok m d → data_ok m (toy_step m d).
Proof.
  intros _ [Hc Hf]. split; [done|]. intros f. specialize (Hf f).
  destruct f; try done. simpl. by rewrite length_map.
Qed.


Lemma toy_pool_dims : dims_ok toy_model' (replicate 3 (toy_default toy_model')).
Proof. split; [exact toy_model_ok|]. repeat constructor; apply toy_default_ok. Qed.

Lemma toy_stepped_dims :
  dims_ok toy_model' [toy_state 1; toy_state 2; toy_state 3].
Proof. split; [exact toy_model_ok|]. repeat constructor; apply toy_state_ok. Qed.

Lemma batched_step_is_independent_steps_witness :
  pool_at toy_pool 3 toy_sim 1 toy_model' toy_slots
          (replicate 3 (toy_default toy_model')) ∧
  dims_ok toy_model' (replicate 3 (toy_default toy_model')) ∧
  length [1; 2; 3]%Z = length toy_slots * Z.to_nat (nu toy_model') ∧
  ∃ w', mjaccess_batched_step toy_step (Some 3%positive) (Some [1; 2; 3]%Z) toy_pool
        = Ok tt w' ∧
        heap w' !! 6%positive = Some (BData (toy_state 2)) ∧
        single_env_step toy_step toy_model' (toy_default toy_model') [2%Z]
        = Some (toy_state 2).
Proof.
  split; [exact toy_pool_at|]. split; [exact toy_pool_dims|]. split; [reflexivity|].
  destruct (batched_step_is_independent_steps toy_step toy_pool 3 toy_sim 1
              toy_model' toy_slots (replicate 3 (toy_default toy_model'))
              [1; 2; 3]%Z toy_pool_at toy_pool_dims eq_refl)
    as (w' & Hrun & Hslots & _).
  exists w'. split; [exact Hrun|].
  exact (Hslots 1 6%positive (toy_default toy_model') eq_refl eq_refl).
Defined.

Lemma batched_gather_layout_witness :
  pool_at toy_stepped 3 toy_sim 1 toy_model' toy_slots
          [toy_state 1; toy_state 2; toy_state 3] ∧
  dims_ok toy_model' [toy_state 1; toy_state 2; toy_state 3] ∧
  buffers_at toy_stepped toy_sim toy_model' (length toy_slots) ∧
  ∃ cells w',
    mjaccess_batched_get_qpos (Some 3%positive) (Some 0%Z) toy_stepped
    = Ok (Some 8%positive, Some 6%Z) w' ∧
    heap w' !! 8%positive = Some (BBuf cells) ∧
    env_slice 2 1 cells = [Some 2%Z; Some 2%Z].
Proof.
  split; [exact toy_stepped_at|]. split; [exact toy_stepped_dims|].
  split; [exact toy_stepped_buffers|].
  destruct (batched_gather_layout Fqpos toy_stepped 3 toy_sim 1 toy_model'
              toy_slots [toy_state 1; toy_state 2; toy_state 3] 0%Z
              toy_stepped_at toy_stepped_dims toy_stepped_buffers)
    as (b & cells & w' & Hrun & Hb & Hc & _ & Hsl & _).
  injection Hb as <-.
  exists cells, w'. split; [exact Hrun|]. split; [exact Hc|].
  exact (Hsl 1 (toy_state 2) eq_refl).
Defined.

Lemma batched_qfrc_actuator_dim_witness :
  pool_at toy_stepped 3 toy_sim 1 toy_model' toy_slots
          [toy_state 1; toy_state 2; toy_state 3] ∧
  dims_ok toy_model' [toy_state 1; toy_state 2; toy_state 3] ∧
  buffers_at toy_stepped toy_sim toy_model' (length toy_slots) ∧
  ∃ b cells w',
    mjaccess_batched_get_qfrc_actuator (Some 3%positive) (Some 0%Z) toy_stepped
    = Ok (Some b, Some 6%Z) w' ∧
    heap w' !! b = Some (BBuf cells) ∧ length cells = 6.
Proof.
  split; [exact toy_stepped_at|]. split; [exact toy_stepped_dims|].
  split; [exact toy_stepped_buffers|].
  destruct (batched_qfrc_actuator_dim toy_stepped 3 toy_sim 1 toy_model'
              toy_slots [toy_state 1; toy_state 2; toy_state 3] 0%Z
              toy_stepped_at toy_stepped_dims toy_stepped_buffers)
    as (b & cells & w' & Hrun & Hc & Hlen & _).
  exists b, cells, w'. split; [exact Hrun|]. split; [exact Hc | exact Hlen].
Defined.

(** C4, as the spec words it, fails: on a pool of 3 environments of a
    model with nv = 2 and nu = 1 the actuator-force getter reports 6,
    not 3 * nu = 3. *)
Lemma batched_qfrc_actuator_dim_counterexample :
  reported_length
    (mjaccess_batched_get_qfrc_actuator (Some 3%positive) (Some 0%Z) toy_stepped)
  = Some 6%Z ∧
  reported_length
    (mjaccess_batched_get_qfrc_actuator (Some 3%positive) (Some 0%Z) toy_stepped)
  ≠ Some (Z.of_nat (length toy_slots) * nu toy_model')%Z.
Proof. split; [by vm_compute|]. vm_compute. discriminate. Qed.

Lemma batched_reset_masked_witness :
  pool_at toy_stepped 3 toy_sim 1 toy_model' toy_slots
          [toy_state 1; toy_state 2; toy_state 3] ∧
  length [0; 1; 0]%Z = length toy_slots ∧
  ∃ w', mjaccess_batched_reset toy_reset (Some 3%positive) (Some [0; 1; 0]%Z)
          toy_stepped = Ok tt w' ∧
        heap w' !! 6%positive = Some (BData (toy_default toy_model')) ∧
        heap w' !! 5%positive = heap toy_stepped !! 5%positive ∧
        heap w' !! 7%positive = heap toy_stepped !! 7%positive.
Proof.
  split; [exact toy_stepped_at|]. split; [reflexivity|].
  destruct (batched_reset_masked toy_reset toy_stepped 3 toy_sim 1 toy_model'
              toy_slots [toy_state 1; toy_state 2; toy_state 3] [0; 1; 0]%Z
              toy_stepped_at eq_refl)
    as (w' & Hrun & Hslots & _).
  exists w'. split; [exact Hrun|]. split; [|split].
  - exact (proj1 (Hslots 1 6%positive (toy_state 2) 1%Z eq_refl eq_refl eq_refl)).
  - exact (proj2 (Hslots 0 5%positive (toy_state 1) 0%Z eq_refl eq_refl eq_refl) eq_refl).
  - exact (proj2 (Hslots 2 7%positive (toy_state 3) 0%Z eq_refl eq_refl eq_refl) eq_refl).
Defined.

Lemma batched_create_fails_cleanly_witness :
  failure_cause toy_refusing (Some 2%positive) (MkConfig 3 7) ∧
  ∃ w', mjaccess_batched_create toy_default (Some 2%positive)
          (Some (MkConfig 3 7)) toy_refusing = Ok None w' ∧
        heap w' = heap toy_refusing.
Proof.
  assert (failure_cause toy_refusing (Some 2%positive) (MkConfig 3 7)) as Hc.
  { apply (cause_slot_alloc toy_refusing 2 1 toy_model (MkConfig 3 7) 1 [false; true]).
    - reflexivity.
    - reflexivity.
    - simpl. unfold INT_MAX. lia.
    - simpl. lia.
    - reflexivity.
    - right. by exists [true]. }
  split; [exact Hc|].
  exact (batched_create_fails_cleanly toy_default toy_refusing (Some 2%positive)
           (MkConfig 3 7) Hc).
Defined.

(** The scenario yields eight values, two per environment: the first
    two environments moved with their controls, the last two stayed. *)
Example toy_scenario_values :
  toy_scenario
  = Some ([Some 1; Some 1; Some (-1); Some (-1);
           Some 0; Some 0; Some 0; Some 0]%Z, Some 8%Z).
Proof. by vm_compute. Qed.

Lemma toy_pool_created :
  mjaccess_batched_create toy_default (Some 2%positive) (Some (MkConfig 3 7))
    (toy_start (replicate 13 true)) = Ok (Some 3%positive) toy_pool.
Proof. by vm_compute. Qed.

Lemma toy_pool_freed :
  mjaccess_batched_free (Some 3%positive) toy_pool
  = Ok tt (MkWorld (mjtNum:=Z) toy_memory' []).
Proof. by vm_compute. Qed.

(** C8, as the spec words it, fails for a pool that has already been
    destroyed: on a pool of 3 environments the first destruction returns
    and releases the pool header, and a second destruction through the
    same handle is not a no-op, it reads the released header. *)
Lemma batched_free_destroyed_counterexample :
  mjaccess_batched_free (Some 3%positive) toy_pool
  = Ok tt (MkWorld (mjtNum:=Z) toy_memory' []) ∧
  heap (MkWorld (mjtNum:=Z) toy_memory' []) !! 3%positive = None ∧
  mjaccess_batched_free (Some 3%positive) (MkWorld (mjtNum:=Z) toy_memory' [])
  = Fault ∧
  ¬ ∃ w', mjaccess_batched_free (Some 3%positive)
            (MkWorld (mjtNum:=Z) toy_memory' []) = Ok tt w'.
Proof.
  split; [by vm_compute|]. split; [by vm_compute|].
  assert (mjaccess_batched_free (Some 3%positive)
            (MkWorld (mjtNum:=Z) (mjModelExtra:=unit) (mjDataExtra:=unit)
               toy_memory' []) = Fault) as Hf by (by vm_compute).
  split; [exact Hf|]. intros [w' Hw']. rewrite Hf in Hw'. discriminate.
Qed.

Lemma batched_ops_keep_shared_model_witness :
  heap (toy_start (replicate 13 true)) !! 1%positive = Some (BModel toy_model) ∧
  heap toy_pool !! 1%positive = Some (BModel toy_model') ∧
  pool_at toy_pool 3 toy_sim 1 toy_model' toy_slots
          (replicate 3 (toy_default toy_model')) ∧
  buffers_owned toy_pool toy_sim ∧
  toy_memory' !! 1%positive = Some (BModel toy_model').
Proof.
  split; [reflexivity|]. split; [|split; [exact toy_pool_at|split; [exact toy_pool_owned|]]].
  - exact (proj2 (proj1 (batched_ops_keep_shared_model toy_default toy_step toy_reset)
                   (toy_start (replicate 13 true)) 2%positive 1%positive toy_model
                   (MkConfig 3 7) (Some 3%positive) toy_pool eq_refl eq_refl
                   (Zle_bool_imp_le 3 INT_MAX eq_refl) toy_pool_created)).
  - exact (proj2 (proj2 (batched_ops_keep_shared_model toy_default toy_step toy_reset)
                   toy_pool 3%positive toy_sim 1%positive toy_model' toy_slots
                   (replicate 3 (toy_default toy_model')) OpFree tt
                   (MkWorld toy_memory' []) toy_pool_at toy_pool_owned
                   toy_pool_freed)).
Defined.

Lemma batched_parity_witness :
  (∀ m d, model_ok m → data_ok m d → data_ok m (toy_step m d)) ∧
  pool_at toy_pool 3 toy_sim 1 toy_model' toy_slots
          (replicate (length toy_slots) (toy_default toy_model')) ∧
  ∃ b cells n w',
    steps_then_gather toy_step Fqpos (Some 3%positive)
      [[5; 5; 5]; [1; 1; 1]]%Z toy_pool = Ok (Some b, n) w' ∧
    heap w' !! b = Some (BBuf cells) ∧
    env_slice 2 0 cells = env_slice 2 2 cells.
Proof.
  split; [exact toy_step_keeps_sizes|]. split; [exact toy_pool_at|].
  destruct (batched_parity toy_step toy_step_keeps_sizes Fqpos toy_pool 3 toy_sim 1
              toy_model' toy_slots (toy_default toy_model')
              [[5; 5; 5]; [1; 1; 1]]%Z toy_pool_at toy_model_ok toy_default_ok
              toy_pool_buffers)
    as (b & cells & n & w' & Hrun & Hc & _ & Heq).
  { repeat constructor.
    - by exists [5%Z].
    - by exists [1%Z]. }
  exists b, cells, n, w'. split; [exact Hrun|]. split; [exact Hc|].
  apply (Heq 0 2); simpl; lia.
Defined.

(** C3, as the code has it: the scatter copies the count it is given.
    Asked to copy 3 values into the position vector of slot 0 of a pool
    whose model has 2 positions, it does not stop at 2: the copy runs
    past the end of the vector. *)
Theorem batched_set_env_qpos_overruns :
  length (qpos (toy_default toy_model')) = 2 ∧
  mjaccess_batched_set_env_qpos (mjModelExtra:=unit) (mjDataExtra:=unit)
    (Some 3%positive) 0 (Some [7; 8; 9]%Z) 3 toy_pool = Fault.
Proof. split; by vm_compute. Qed.

(** ** Further runs on the small engine *)

Lemma toy_default_sizes m : model_ok m → data_ok m (toy_default m).
Proof.
  intros _. split; [apply length_replicate|].
  intros f. destruct f; apply length_replicate.
Qed.

Lemma toy_reset_keeps_sizes m d :
  model_ok m → data_ok m d → data_ok m (toy_reset m d).
Proof. intros Hm _. by apply toy_default_sizes. Qed.

Lemma toy_model_sizes : model_ok toy_model.
Proof. unfold model_ok, INT_MAX. simpl. lia. Qed.

Lemma toy_model_fits f : (cfg_num_envs (MkConfig 3 7) * field_dim f toy_model ≤ INT_MAX)%Z.
Proof. by destruct f; vm_compute. Qed.

Lemma toy_cfg_range : (0 < cfg_num_envs (MkConfig 3 7) ≤ INT_MAX)%Z.
Proof. unfold INT_MAX. simpl. lia. Qed.

Lemma toy_pool_ready : pool_ready toy_pool 3 1 toy_model' 3.
Proof.
  exists toy_sim, toy_slots, (replicate 3 (toy_default toy_model')).
  split; [exact toy_pool_at|]. split; [done|]. split; [exact toy_pool_dims|].
  split; [exact toy_pool_buffers | exact toy_pool_owned].
Qed.

Lemma batched_create_builds_pool_witness :
  ∃ sp w',
    mjaccess_batched_create toy_default (Some 2%positive) (Some (MkConfig 3 7))
      (toy_start (replicate 13 true)) = Ok (Some sp) w' ∧
    script w' = [] ∧
    pool_ready w' sp 1 toy_model' 3.
Proof.
  destruct (batched_create_builds_pool toy_default toy_default_sizes
              (toy_start (replicate 13 true)) 2 1 toy_model (MkConfig 3 7) []
              eq_refl eq_refl toy_model_sizes
              toy_cfg_range
              toy_model_fits eq_refl)
    as (sp & w' & Hrun & Hsc & Hr & _).
  exists sp, w'. split; [exact Hrun|]. split; [exact Hsc | exact Hr].
Defined.

Lemma batched_create_then_free_witness :
  ∃ sp w' w'',
    mjaccess_batched_create toy_default (Some 2%positive) (Some (MkConfig 3 7))
      (toy_start (replicate 13 true)) = Ok (Some sp) w' ∧
    mjaccess_batched_free (Some sp) w' = Ok tt w'' ∧
    heap w'' = <[1%positive:=BModel toy_model']> toy_memory.
Proof.
  destruct (batched_create_then_free toy_default toy_default_sizes
              (toy_start (replicate 13 true)) 2 1 toy_model (MkConfig 3 7) []
              eq_refl eq_refl toy_model_sizes
              toy_cfg_range
              toy_model_fits eq_refl)
    as (sp & w' & w'' & Hrun & Hfree & Hheap & _).
  exists sp, w', w''. split; [exact Hrun|]. split; [exact Hfree | exact Hheap].
Defined.

Lemma batched_free_releases_pool_witness :
  pool_at toy_pool 3 toy_sim 1 toy_model' toy_slots
          (replicate 3 (toy_default toy_model')) ∧
  buffers_owned toy_pool toy_sim ∧
  ∃ w', mjaccess_batched_free (Some 3%positive) toy_pool = Ok tt w' ∧
        heap w' !! 3%positive = None ∧ heap w' !! 6%positive = None ∧
        heap w' !! 8%positive = None ∧
        heap w' !! 2%positive = heap toy_pool !! 2%positive ∧
        heap w' !! 1%positive = Some (BModel toy_model').
Proof.
  split; [exact toy_pool_at|]. split; [exact toy_pool_owned|].
  destruct (batched_free_releases_pool toy_pool 3 toy_sim 1 toy_model' toy_slots
              (replicate 3 (toy_default toy_model')) toy_pool_at toy_pool_owned)
    as (da & w' & Hda & Hrun & _ & Hgone & Hkept & Hm).
  injection Hda as <-.
  exists w'. split; [exact Hrun|].
  split; [apply Hgone, (bool_decide_unpack _); by vm_compute|].
  split; [apply Hgone, (bool_decide_unpack _); by vm_compute|].
  split; [apply Hgone, (bool_decide_unpack _); by vm_compute|].
  split; [|exact Hm].
  apply Hkept. apply (bool_decide_unpack _). by vm_compute.
Defined.

Lemma batched_use_after_free_witness :
  pool_at toy_pool 3 toy_sim 1 toy_model' toy_slots
          (replicate 3 (toy_default toy_model')) ∧
  buffers_owned toy_pool toy_sim ∧
  ∃ w', mjaccess_batched_free (Some 3%positive) toy_pool = Ok tt w' ∧
        mjaccess_batched_step toy_step (Some 3%positive) (Some [1; 2; 3]%Z) w'
        = Fault ∧
        mjaccess_batched_get_qpos (Some 3%positive) (Some 0%Z) w' = Fault ∧
        mjaccess_batched_free (Some 3%positive) w' = Fault.
Proof.
  split; [exact toy_pool_at|]. split; [exact toy_pool_owned|].
  destruct (batched_use_after_free toy_step toy_reset toy_pool 3 toy_sim 1
              toy_model' toy_slots (replicate 3 (toy_default toy_model'))
              toy_pool_at toy_pool_owned)
    as (w' & Hrun & Hstep & _ & Hget & _ & Hfree).
  exists w'. split; [exact Hrun|]. split; [apply Hstep|].
  split; [apply Hget | exact Hfree].
Defined.

Lemma batched_scatter_within_bounds_witness :
  pool_at toy_pool 3 toy_sim 1 toy_model' toy_slots
          (replicate 3 (toy_default toy_model')) ∧
  mjaccess_batched_set_env_qpos (Some 3%positive) 0 (Some [7; 8; 9]%Z) 1 toy_pool
  = Ok tt (MkWorld (<[5%positive:=BData (set_qpos [7; 0]%Z (toy_default toy_model'))]>
                      (heap toy_pool)) (script toy_pool)) ∧
  mjaccess_batched_set_env_qvel (mjModelExtra:=unit) (mjDataExtra:=unit)
    (Some 3%positive) 3 (Some [7; 8]%Z) 2 toy_pool = Ok tt toy_pool.
Proof.
  split; [exact toy_pool_at|].
  destruct (batched_scatter_within_bounds toy_pool 3 toy_sim 1 toy_model' toy_slots
              (replicate 3 (toy_default toy_model')) toy_pool_at) as [Hin Hout].
  split.
  - refine (proj1 (Hin 0 5%positive (toy_default toy_model') [7; 8; 9]%Z 1
                     eq_refl eq_refl _ _) _).
    + simpl. lia.
    + by vm_compute.
    + simpl. lia.
  - apply (Hout 3%Z (Some [7; 8]%Z) 2%Z). right. simpl. lia.
Defined.

Lemma batched_scatter_gather_roundtrip_witness :
  pool_at toy_pool 3 toy_sim 1 toy_model' toy_slots
          (replicate 3 (toy_default toy_model')) ∧
  ∃ w1 b cells w2,
    mjaccess_batched_set_env_qpos (Some 3%positive) 1 (Some [7; 8]%Z) 2 toy_pool
    = Ok tt w1 ∧
    mjaccess_batched_get_qpos (Some 3%positive) (Some 0%Z) w1
    = Ok (Some b, Some 6%Z) w2 ∧
    heap w2 !! b = Some (BBuf cells) ∧
    env_slice 2 1 cells = [Some 7; Some 8]%Z ∧
    env_slice 2 2 cells = [Some 0; Some 0]%Z.
Proof.
  split; [exact toy_pool_at|].
  destruct (batched_scatter_gather_roundtrip toy_pool 3 toy_sim 1 toy_model'
              toy_slots (replicate 3 (toy_default toy_model')) 1 [7; 8]%Z [9; 9]%Z
              toy_pool_at toy_pool_dims toy_pool_buffers)
    as [(w1 & b & cells & w2 & Hset & Hget & Hc & Hi & Hj) _].
  - simpl. lia.
  - reflexivity.
  - reflexivity.
  - exists w1, b, cells, w2. split; [exact Hset|]. split; [exact Hget|].
    split; [exact Hc|]. split; [exact Hi|].
    exact (Hj 2 (toy_default toy_model') (λ H, Nat.neq_succ_diag_l 1 H) eq_refl).
Defined.

Lemma batched_gathers_independent_witness :
  pool_at toy_stepped 3 toy_sim 1 toy_model' toy_slots
          [toy_state 1; toy_state 2; toy_state 3] ∧
  buffers_owned toy_stepped toy_sim ∧
  ∃ bf bg r1 r2 w1 w2,
    mjaccess_batched_get_qpos (Some 3%positive) (Some 0%Z) toy_stepped
    = Ok (Some bf, r1) w1 ∧
    mjaccess_batched_get_qvel (Some 3%positive) (Some 0%Z) w1 = Ok (Some bg, r2) w2 ∧
    bf ≠ bg ∧
    heap w2 !! bf = Some (BBuf (Some <$> [1; 1; 2; 2; 3; 3]%Z)).
Proof.
  assert (buffers_owned toy_stepped toy_sim) as Ho.
  { split; [apply (bool_decide_unpack _); by vm_compute|].
    intros f b Hb. destruct (toy_stepped_buffers f) as (_ & b' & cells & Hb' & Hc & _).
    exists cells. congruence. }
  split; [exact toy_stepped_at|]. split; [exact Ho|].
  destruct (batched_gathers_independent Fqpos Fqvel toy_stepped 3 toy_sim 1
              toy_model' toy_slots [toy_state 1; toy_state 2; toy_state 3]
              (Some 0%Z) (Some 0%Z) toy_stepped_at toy_stepped_dims
              toy_stepped_buffers Ho)
    as (bf & bg & r1 & r2 & w1 & w2 & Hf & Hg & Hne & Hbf & _).
  - discriminate.
  - exists bf, bg, r1, r2, w1, w2. split; [exact Hf|]. split; [exact Hg|].
    split; [exact Hne | exact Hbf].
Defined.

Lemma batched_create_unchecked_calloc_witness :
  mjaccess_batched_create toy_default (Some 2%positive) (Some (MkConfig 3 7))
    (toy_start []) = Fault ∧
  mjaccess_batched_create toy_default (Some 2%positive) (Some (MkConfig 3 7))
    (toy_start [true; false; true]) = Fault.
Proof.
  split.
  - exact (proj1 (batched_create_unchecked_calloc toy_default (toy_start []) 2 1
                    toy_model (MkConfig 3 7) [] eq_refl eq_refl
                    (proj1 toy_cfg_range) (or_introl eq_refl)) eq_refl).
  - exact (proj2 (batched_create_unchecked_calloc toy_default
                    (toy_start [true; false; true]) 2 1
                    toy_model (MkConfig 3 7) [false; true] eq_refl eq_refl
                    (proj1 toy_cfg_range)
                    (or_intror (ex_intro _ [true] eq_refl))) eq_refl).
Defined.

Lemma batched_ops_preserve_pool_witness :
  pool_ready toy_pool 3 1 toy_model' 3 ∧
  ∃ w', run_ops toy_step toy_reset (Some 3%positive)
          [OpStep (seq 0) (Some [1; 2; 3]%Z); OpGather Fqpos None;
           OpReset (Some [0; 1; 0]%Z); OpSetEnvQpos 0 (Some [7; 8]%Z) 2;
           OpGather Fcinert (Some 0%Z)] toy_pool = Ok tt w' ∧
        pool_ready w' 3 1 toy_model' 3.
Proof.
  split; [exact toy_pool_ready|].
  apply (batched_ops_preserve_pool toy_step toy_reset toy_step_keeps_sizes
           toy_reset_keeps_sizes 3 1 toy_model' 3 _ toy_pool toy_pool_ready).
  apply Forall_cons. split.
  { split; [intros k; apply Permutation_refl|]. intros cb [= <-]. reflexivity. }
  apply Forall_cons. split; [exact I|].
  apply Forall_cons. split.
  { intros mask [= <-]. reflexivity. }
  apply Forall_cons. split.
  { intros vals [= <-] _. simpl. split; lia. }
  apply Forall_cons. split; [exact I|]. apply Forall_nil_2.
Defined.

Lemma batched_reset_short_mask_witness :
  pool_at toy_pool 3 toy_sim 1 toy_model' toy_slots
          (replicate 3 (toy_default toy_model')) ∧
  length [1; 0]%Z < length toy_slots ∧
  mjaccess_batched_reset toy_reset (Some 3%positive) (Some [1; 0]%Z) toy_pool
  = Fault.
Proof.
  split; [exact toy_pool_at|]. split; [simpl; lia|].
  apply (batched_reset_short_mask toy_reset toy_pool 3 toy_sim 1 toy_model'
           toy_slots (replicate 3 (toy_default toy_model')) [1; 0]%Z toy_pool_at).
  simpl. lia.
Defined.

Lemma batched_step_short_controls_witness :
  pool_at toy_pool 3 toy_sim 1 toy_model' toy_slots
          (replicate 3 (toy_default toy_model')) ∧
  length [1; 2]%Z < length toy_slots * Z.to_nat (nu toy_model') ∧
  mjaccess_batched_step toy_step (Some 3%positive) (Some [1; 2]%Z) toy_pool
  = Fault.
Proof.
  split; [exact toy_pool_at|]. split; [simpl; lia|].
  apply (batched_step_short_controls toy_step toy_step_keeps_sizes (seq 0) toy_pool
           3 toy_sim 1 toy_model' toy_slots (replicate 3 (toy_default toy_model'))
           [1; 2]%Z (λ n, Permutation_refl _) toy_pool_at toy_pool_dims).
  simpl. lia.
Defined.

Lemma batched_gather_reuses_buffer_witness :
  pool_at toy_pool 3 toy_sim 1 toy_model' toy_slots
          (replicate 3 (toy_default toy_model')) ∧
  ∃ b w1 w2 w3,
    mjaccess_batched_get_qpos (Some 3%positive) None toy_pool
    = Ok (Some b, None) w1 ∧
    heap w1 !! b = Some (BBuf (Some <$> [0; 0; 0; 0; 0; 0]%Z)) ∧
    mjaccess_batched_step toy_step (Some 3%positive) (Some [1; 2; 3]%Z) w1
    = Ok tt w2 ∧
    heap w2 !! b = heap w1 !! b ∧
    mjaccess_batched_get_qpos (Some 3%positive) None w2 = Ok (Some b, None) w3 ∧
    heap w3 !! b = Some (BBuf (Some <$> [1; 1; 2; 2; 3; 3]%Z)).
Proof.
  split; [exact toy_pool_at|].
  exact (batched_gather_reuses_buffer toy_step toy_step_keeps_sizes Fqpos toy_pool
           3 toy_sim 1 toy_model' toy_slots (replicate 3 (toy_default toy_model'))
           [1; 2; 3]%Z toy_pool_at toy_pool_dims toy_pool_buffers toy_pool_owned
           eq_refl).
Defined.

(** ** Runs of the single-environment interface *)

Lemma acc_model_at : model_at acc_world 2 1 acc_model.
Proof. by split. Qed.

Lemma acc_data_at : data_at acc_world 4 3 1 acc_model (acc_state 1).
Proof. by repeat split. Qed.

Lemma acc_counts_ok : counts_ok acc_model.
Proof.
  split; [unfold INT_MAX; simpl; lia|]. intros g. by destruct g; vm_compute.
Qed.

Lemma acc_arrays_ok x : arrays_ok acc_model (acc_state x).
Proof. intros g. by destruct g. Qed.

Lemma acc_model_arrays : model_arrays_ok acc_model.
Proof. split; [|split; [|done]]; intros k; by destruct k. Qed.

Lemma entry_setters_checked_witness :
  data_at acc_world 4 3 1 acc_model (acc_state 1) ∧
  mjaccess_set_qpos_at (Some 4%positive) 1 9%Z acc_world
  = Ok tt (MkWorld (<[3%positive:=BData (set_qpos [1; 9]%Z (acc_state 1))]>
                      (heap acc_world)) (script acc_world)) ∧
  mjaccess_set_ctrl_at (Some 4%positive) 1 9%Z acc_world = Ok tt acc_world ∧
  mjaccess_set_qvel_at (Some 4%positive) (-1) 9%Z acc_world = Ok tt acc_world.
Proof.
  split; [exact acc_data_at|]. split; [|split].
  - exact (entry_setters_checked SetQposAt acc_world 4 3 1 acc_model (acc_state 1)
             1 9%Z acc_data_at eq_refl).
  - exact (entry_setters_checked SetCtrlAt acc_world 4 3 1 acc_model (acc_state 1)
             1 9%Z acc_data_at eq_refl).
  - exact (entry_setters_checked SetQvelAt acc_world 4 3 1 acc_model (acc_state 1)
             (-1) 9%Z acc_data_at eq_refl).
Defined.

Lemma bulk_setters_copy_count_witness :
  mjaccess_set_qpos (Some 4%positive) (Some [7; 8; 9]%Z) (-1) acc_world
  = Ok tt acc_world ∧
  mjaccess_set_qpos (Some 4%positive) (Some [7; 8; 9]%Z) 1 acc_world
  = Ok tt (MkWorld (<[3%positive:=BData (set_qpos [7; 1]%Z (acc_state 1))]>
                      (heap acc_world)) (script acc_world)) ∧
  mjaccess_set_mocap_pos (Some 4%positive) (Some [7; 8; 9; 7]%Z) 4 acc_world
  = Fault.
Proof.
  split; [|split].
  - refine (proj1 (bulk_setters_copy_count SetQpos acc_world 4 3 (Some 1%positive)
                     (acc_state 1) [7; 8; 9]%Z (-1) eq_refl eq_refl) _). lia.
  - refine (proj1 (proj2 (bulk_setters_copy_count SetQpos acc_world 4 3
                            (Some 1%positive) (acc_state 1) [7; 8; 9]%Z 1
                            eq_refl eq_refl)) _ _ _).
    + unfold INT_MAX. lia.
    + simpl. lia.
    + simpl. lia.
  - refine (proj2 (proj2 (bulk_setters_copy_count SetMocapPos acc_world 4 3
                            (Some 1%positive) (acc_state 1) [7; 8; 9; 7]%Z 4
                            eq_refl eq_refl)) _ _).
    + unfold INT_MAX. lia.
    + simpl. lia.
Defined.

Lemma set_xfrc_applied_clamps_witness :
  data_at acc_world 4 3 1 acc_model (acc_state 1) ∧
  mjaccess_set_xfrc_applied (Some 4%positive) (Some (replicate 8 7%Z)) 8 acc_world
  = Ok tt (MkWorld (<[3%positive:=BData (set_xfrc_applied (replicate 6 7%Z)
                                           (acc_state 1))]>
                      (heap acc_world)) (script acc_world)).
Proof.
  split; [exact acc_data_at|].
  refine (set_xfrc_applied_clamps acc_world 4 3 1 acc_model (acc_state 1)
            (replicate 8 7%Z) 8 acc_data_at _ _ eq_refl _ _).
  - simpl. lia.
  - unfold INT_MAX. simpl. lia.
  - unfold INT_MAX. lia.
  - simpl. lia.
Defined.

Lemma getter_reports_length_witness :
  data_at acc_world 4 3 1 acc_model (acc_state 1) ∧
  counts_ok acc_model ∧ arrays_ok acc_model (acc_state 1) ∧
  mjaccess_get_cinert (Some 4%positive) (Some 0%Z) acc_world
  = Ok (Some (3%positive, Gcinert), Some 10%Z) acc_world ∧
  read_array (3%positive, Gcinert) acc_world = Ok (replicate 10 1%Z) acc_world.
Proof.
  split; [exact acc_data_at|]. split; [exact acc_counts_ok|].
  split; [exact (acc_arrays_ok 1)|].
  destruct (getter_reports_length Gcinert acc_world 4 3 1 acc_model (acc_state 1)
              0%Z acc_data_at acc_counts_ok (acc_arrays_ok 1)) as (Hg & _ & Hr).
  split; [exact Hg | exact Hr].
Defined.

Lemma entry_set_then_get_witness :
  data_at acc_world 4 3 1 acc_model (acc_state 1) ∧
  ∃ w1 arr,
    mjaccess_set_qvel_at (Some 4%positive) 0 9%Z acc_world = Ok tt w1 ∧
    mjaccess_get_qvel (Some 4%positive) (Some 0%Z) w1
    = Ok (Some (3%positive, Gqvel), Some 2%Z) w1 ∧
    read_array (3%positive, Gqvel) w1 = Ok arr w1 ∧
    arr !! 0 = Some 9%Z ∧ arr !! 1 = Some 1%Z.
Proof.
  split; [exact acc_data_at|].
  destruct (entry_set_then_get SetQvelAt acc_world 4 3 1 acc_model (acc_state 1)
              0 9%Z acc_data_at eq_refl)
    as (w1 & arr & Hset & Hget & Hread & Hi & Hj).
  - simpl. lia.
  - unfold INT_MAX. simpl. lia.
  - exists w1, arr. split; [exact Hset|]. split; [exact Hget|].
    split; [exact Hread|]. split; [exact Hi|].
    exact (Hj 1 (Nat.neq_succ_0 0)).
Defined.

Lemma set_hfield_data_clamps_witness :
  model_at acc_world 2 1 acc_model ∧
  mjaccess_model_set_hfield_data (Some 2%positive) 3 (Some [7; 8]%Z) 2 acc_world
  = Ok tt (MkWorld (<[1%positive:=BModel (set_hfield_data [0; 0; 0; 7]%Z acc_model)]>
                      (heap acc_world)) (script acc_world)) ∧
  mjaccess_model_set_hfield_data (Some 2%positive) 4 (Some [7; 8]%Z) 2 acc_world
  = Ok tt acc_world.
Proof.
  split; [exact acc_model_at|].
  assert (0 ≤ nhfielddata (m_other acc_model) ≤ INT_MAX)%Z as Hnh
    by (unfold INT_MAX; simpl; lia).
  assert (2 ≤ INT_MAX)%Z as H2 by (unfold INT_MAX; lia).
  assert (3 ≤ INT_MAX)%Z as H3 by (unfold INT_MAX; lia).
  assert (4 ≤ INT_MAX)%Z as H4 by (unfold INT_MAX; lia).
  split.
  - refine (proj2 (set_hfield_data_clamps acc_world 2 1 acc_model [7; 8]%Z 3 2
                     acc_model_at Hnh eq_refl H2 H3) _ _ _).
    + lia.
    + simpl. lia.
    + simpl. lia.
  - refine (proj1 (set_hfield_data_clamps acc_world 2 1 acc_model [7; 8]%Z 4 2
                     acc_model_at Hnh eq_refl H2 H4) _).
    right. right. simpl. lia.
Defined.

Lemma hfield_set_then_get_witness :
  model_at acc_world 2 1 acc_model ∧
  ∃ w1 m1,
    mjaccess_model_set_hfield_data (Some 2%positive) 1 (Some [7; 8]%Z) 2 acc_world
    = Ok tt w1 ∧
    mjaccess_model_hfield_data (Some 2%positive) (Some 0%Z) w1
    = Ok (Some 1%positive, Some 4%Z) w1 ∧
    heap w1 !! 1%positive = Some (BModel m1) ∧
    take 2 (drop 1 (hfield_data (m_other m1))) = [7; 8]%Z.
Proof.
  split; [exact acc_model_at|].
  destruct (hfield_set_then_get acc_world 2 1 acc_model [7; 8]%Z 1 2 acc_model_at)
    as (w1 & m1 & Hset & Hget & Hm1 & _ & Hval & _).
  - unfold INT_MAX. simpl. lia.
  - reflexivity.
  - discriminate.
  - unfold INT_MAX. lia.
  - simpl. lia.
  - simpl. lia.
  - exists w1, m1. split; [exact Hset|]. split; [exact Hget|].
    split; [exact Hm1 | exact Hval].
Defined.

Lemma model_accessors_checked_witness :
  model_at acc_world 2 1 acc_model ∧ model_arrays_ok acc_model ∧
  mjaccess_model_jnt_type (Some 2%positive) 0 acc_world = Ok 3%Z acc_world ∧
  mjaccess_model_jnt_type (Some 2%positive) 1 acc_world = Ok (-1)%Z acc_world ∧
  mjaccess_model_body_mass 0%Z (Some 2%positive) 0 acc_world = Ok 10%Z acc_world ∧
  mjaccess_model_body_mass 0%Z (Some 2%positive) (-1) acc_world = Ok 0%Z acc_world.
Proof.
  split; [exact acc_model_at|]. split; [exact acc_model_arrays|].
  destruct (model_accessors_checked 0%Z acc_world 2 1 acc_model 0
              acc_model_at acc_model_arrays) as [Hi0 Hn0].
  destruct (model_accessors_checked 0%Z acc_world 2 1 acc_model 1
              acc_model_at acc_model_arrays) as [Hi1 _].
  destruct (model_accessors_checked 0%Z acc_world 2 1 acc_model (-1)
              acc_model_at acc_model_arrays) as [_ Hn1].
  split; [|split; [|split]].
  - destruct (proj1 (Hi0 Ajnt_type)) as (v & Hv & Hrun); [simpl; lia|].
    injection Hv as <-. exact Hrun.
  - apply (proj2 (Hi1 Ajnt_type)). simpl. lia.
  - destruct (proj1 (Hn0 Abody_mass)) as (v & Hv & Hrun); [simpl; lia|].
    injection Hv as <-. exact Hrun.
  - apply (proj2 (Hn1 Abody_mass)). simpl. lia.
Defined.

Lemma opt_timestep_set_then_get_witness :
  model_at acc_world 2 1 acc_model ∧
  mjaccess_model_opt_timestep 0%Z (Some 2%positive) acc_world = Ok 5%Z acc_world ∧
  ∃ w1, mjaccess_model_set_opt_timestep (Some 2%positive) 8%Z acc_world = Ok tt w1 ∧
        mjaccess_model_opt_timestep 0%Z (Some 2%positive) w1 = Ok 8%Z w1.
Proof.
  split; [exact acc_model_at|].
  destruct (opt_timestep_set_then_get 0%Z acc_world 2 1 acc_model 8%Z acc_model_at)
    as (Hget & (w1 & Hset & Hget1 & _) & _).
  split; [exact Hget|]. exists w1. split; [exact Hset | exact Hget1].
Defined.

Lemma acc_start_model_at sc : model_at (acc_start sc) 2 1 acc_model.
Proof. by split. Qed.

Lemma make_data_then_free_witness :
  model_at (acc_start [true; true]) 2 1 acc_model ∧
  ∃ hd pd w' w'',
    mjaccess_make_data acc_default (Some 2%positive) (acc_start [true; true])
    = Ok (Some hd) w' ∧
    data_at w' hd pd 1 acc_model (acc_state 0) ∧
    mjaccess_free_data (Some hd) w' = Ok tt w'' ∧
    heap w'' = heap (acc_start [true; true]).
Proof.
  split; [apply acc_start_model_at|].
  destruct (make_data_then_free acc_default (acc_start [true; true]) 2 1 acc_model []
              (acc_start_model_at _) eq_refl)
    as (hd & pd & w' & w'' & Hmk & Hat & _ & Hfree & Hheap).
  exists hd, pd, w', w''. split; [exact Hmk|]. split; [exact Hat|].
  split; [exact Hfree | exact Hheap].
Defined.

Lemma make_data_fails_cleanly_witness :
  model_at (acc_start [false; true]) 2 1 acc_model ∧
  ∃ w', mjaccess_make_data acc_default (Some 2%positive) (acc_start [false; true])
        = Ok None w' ∧
        heap w' = heap (acc_start [false; true]).
Proof.
  split; [apply acc_start_model_at|].
  apply (make_data_fails_cleanly acc_default (acc_start [false; true])
           (Some 2%positive)).
  right. right. exists 2%positive, 1%positive, acc_model.
  split; [reflexivity|]. split; [apply acc_start_model_at|].
  right. by exists [true].
Defined.

Lemma make_data_unchecked_calloc_witness :
  model_at (acc_start [true; false]) 2 1 acc_model ∧
  mjaccess_make_data acc_default (Some 2%positive) (acc_start [true; false]) = Fault.
Proof.
  split; [apply acc_start_model_at|].
  apply (make_data_unchecked_calloc acc_default (acc_start [true; false]) 2 1
           acc_model [false] (acc_start_model_at _) eq_refl).
  right. by exists [].
Defined.

Lemma free_model_and_data_commute_witness :
  model_at acc_world 2 1 acc_model ∧
  data_at acc_world 4 3 1 acc_model (acc_state 1) ∧
  ∃ w1 w2 w',
    mjaccess_free_model (Some 2%positive) acc_world = Ok tt w1 ∧
    mjaccess_free_data (Some 4%positive) w1 = Ok tt w' ∧
    mjaccess_free_data (Some 4%positive) acc_world = Ok tt w2 ∧
    mjaccess_free_model (Some 2%positive) w2 = Ok tt w' ∧
    heap w' !! 1%positive = None ∧ heap w' !! 3%positive = None.
Proof.
  split; [exact acc_model_at|]. split; [exact acc_data_at|].
  destruct (free_model_and_data_commute acc_world 2 4 1 3 acc_model (acc_state 1)
              acc_model_at acc_data_at)
    as (w1 & w2 & w' & H1 & H2 & H3 & H4 & _ & Hheap).
  exists w1, w2, w'. split; [exact H1|]. split; [exact H2|]. split; [exact H3|].
  split; [exact H4|]. split; [exact (Hheap 1%positive) | exact (Hheap 3%positive)].
Defined.

Lemma model_ref_not_owned_witness :
  model_at acc_world 2 1 acc_model ∧
  data_at acc_world 4 3 1 acc_model (acc_state 1) ∧
  ∃ w1,
    mjaccess_free_model (Some 2%positive) acc_world = Ok tt w1 ∧
    mjaccess_set_qpos_at (Some 4%positive) 0 9%Z w1 = Fault ∧
    mjaccess_get_qpos (Some 4%positive) (Some 0%Z) w1 = Fault ∧
    mjaccess_get_qpos (Some 4%positive) None w1
    = Ok (Some (3%positive, Gqpos), None) w1.
Proof.
  split; [exact acc_model_at|]. split; [exact acc_data_at|].
  destruct (model_ref_not_owned acc_world 2 4 1 3 acc_model (acc_state 1)
              acc_model_at acc_data_at)
    as (w1 & Hfree & Hset & _ & Hget & Hptr).
  exists w1. split; [exact Hfree|].
  split; [exact (Hset SetQposAt 0%Z 9%Z (Z.le_refl 0))|].
  split; [exact (Hget Gqpos 0%Z) | exact (Hptr Gqpos)].
Defined.
